(** * A shallow embedding of the CLMM pool engine ([src/pool.py])

    The pool is a Python object whose methods mutate it in place.  The
    embedding keeps the state explicit: a method that only reads is a function
    of the pool, a method that writes returns the pool it leaves behind, and a
    method that can raise returns the pool at the moment it stops together
    with either its value or the exception.

    Python's [int] is unbounded, so integers are [Z]; [//] is floor division,
    which is [Z.div].  Python's [float] is IEEE-754 binary64, modelled by
    Rocq's primitive floats; the two libm functions the engine calls ([pow]
    and [log]) are not fixed by IEEE-754 and are taken as parameters.
    [ticks] (a dict) is a [gmap], [tickBitmap] (a set) is a [gset]; where
    their iteration order shows (in [serialize]) it is an argument. *)

From Stdlib Require Import ZArith Floats Ascii String DecimalString DecimalPos DecimalZ.
From stdpp Require Import gmap sorting.

Local Open Scope Z_scope.

(** ** Python run-time: exceptions and results *)

(** The exceptions the engine can raise.  [LoopBound] is not a Python
    exception: it marks the exhaustion of the bound that the model puts on the
    iterations of [executeCLMMSwap]'s [while] loop, and is shown unreachable
    ([executeCLMMSwap_loop_bound]). *)
Inductive pyexn : Set :=
  | OverflowError | ValueError | ZeroDivisionError | KeyError | TypeError
  | LoopBound.

Inductive result (A : Type) : Type :=
  | Ok (a : A)
  | Raise (e : pyexn).
Arguments Ok {A} a.
Arguments Raise {A} e.

Definition rbind {A B} (r : result A) (k : A -> result B) : result B :=
  match r with
  | Ok a => k a
  | Raise e => Raise e
  end.

Declare Scope py_scope.
Delimit Scope py_scope with py.
Notation "'do' x <- r ; k" := (rbind r (fun x => k))
  (at level 10, x name, r at level 100, k at level 200) : py_scope.
Local Open Scope py_scope.

Definition is_Ok {A} (r : result A) : Prop :=
  match r with Ok _ => True | Raise _ => False end.

(** ** Python floats *)

(** [float(z)], also the implicit conversion of an [int] operand in mixed
    arithmetic: the nearest double, ties to even; [OverflowError] when the
    integer is too large for a double. *)
Definition float_of_int (z : Z) : result float :=
  match binary_normalize prec emax z 0 false with
  | S754_infinity _ => Raise OverflowError
  | sf => Ok (SF2Prim sf)
  end.

Definition Z2SF (z : Z) : spec_float :=
  match z with
  | Z0 => S754_zero false
  | Zpos m => S754_finite false m 0
  | Zneg m => S754_finite true m 0
  end.

(** [a / b] on two [int]s: the correctly rounded quotient. *)
Definition int_true_div (a b : Z) : result float :=
  if b =? 0 then Raise ZeroDivisionError
  else match SFdiv prec emax (Z2SF a) (Z2SF b) with
       | S754_infinity _ => Raise OverflowError
       | sf => Ok (SF2Prim sf)
       end.

(** [x / y] on two floats. *)
Definition float_div (x y : float) : result float :=
  if PrimFloat.eqb y 0 then Raise ZeroDivisionError else Ok (PrimFloat.div x y).

(** [math.floor(x)]. *)
Definition math_floor (x : float) : result Z :=
  match Prim2SF x with
  | S754_zero _ => Ok 0
  | S754_finite s m e => Ok (Z.shiftl (if s then Zneg m else Zpos m) e)
  | S754_infinity _ => Raise OverflowError
  | S754_nan => Raise ValueError
  end.

(** [round(x)] with one argument: the nearest integer, ties to even. *)
Definition round_half_even (m : positive) (e : Z) : Z :=
  if 0 <=? e then Z.shiftl (Zpos m) e
  else
    let d := 2 ^ (- e) in
    let q := Zpos m / d in
    let r := Zpos m mod d in
    if 2 * r <? d then q
    else if d <? 2 * r then q + 1
    else if Z.even q then q else q + 1.

Definition py_round (x : float) : result Z :=
  match Prim2SF x with
  | S754_zero _ => Ok 0
  | S754_finite s m e => Ok (if s then - round_half_even m e else round_half_even m e)
  | S754_infinity _ => Raise OverflowError
  | S754_nan => Raise ValueError
  end.

(** [math.sqrt(x)]: IEEE-754 square root; a negative argument is a domain
    error. *)
Definition math_sqrt (x : float) : result float :=
  if PrimFloat.ltb x 0 then Raise ValueError else Ok (PrimFloat.sqrt x).

(** The part of the float arithmetic that IEEE-754 leaves open: C's [pow] and
    [log].  [libm_pow v w] is what [float.__pow__] gets from [pow] in its
    general case, [None] when CPython finds [errno] set afterwards; [libm_log]
    is C's [log] on a finite positive double. *)
Record Libm : Type := {
  libm_pow : float -> float -> option float;
  libm_log : float -> float;
}.

Definition float_is_finite (x : float) : bool :=
  negb (is_nan x) && negb (is_infinity x).

(** [v ** w] for a float [v] that is finite, positive and not 1 (as [Base]
    is) and an [int] [w]: [w] is converted to a double first; CPython returns
    1.0 for a zero exponent before it calls [pow], and turns a range error of
    [pow] into [OverflowError]. *)
Definition float_pow_int (lm : Libm) (v : float) (w : Z) : result float :=
  do fw <- float_of_int w ;
  if w =? 0 then Ok 1%float
  else match libm_pow lm v fw with
       | Some r => Ok r
       | None => Raise OverflowError
       end.

(** [math.log(x)] with one argument: a domain error for a finite [x <= 0] and
    for minus infinity, and for a result that is not a finite number although
    [x] is. *)
Definition math_log (lm : Libm) (x : float) : result float :=
  if float_is_finite x then
    if PrimFloat.ltb 0 x then
      let r := libm_log lm x in
      if float_is_finite r then Ok r else Raise ValueError
    else Raise ValueError
  else if is_nan x then Ok x
  else if PrimFloat.ltb 0 x then Ok x
  else Raise ValueError.

(** ** Module constants *)

Definition Q64 : Z := Z.shiftl 1 64.
Definition Base : float := 0x1.00068db8bac71p+0%float.

(** ** Data model *)

(** [TickData] (a [TypedDict] with these four keys). *)
Record TickData : Set := {
  liquidityNet : Z;
  liquidityGross : Z;
  feeGrowthOutside0X64 : Z;
  feeGrowthOutside1X64 : Z;
}.

(** [self.validationStats]. *)
Record ValidationStats : Set := {
  totalSwaps : Z;
  amountOutMismatches : Z;
  feeMismatches : Z;
  protocolFeeMismatches : Z;
  totalAmountOutDifference : Z;
  totalFeeDifference : Z;
  totalProtocolFeeDifference : Z;
  exactMatches : Z;
}.

Definition validationStats_init : ValidationStats :=
  {| totalSwaps := 0; amountOutMismatches := 0; feeMismatches := 0;
     protocolFeeMismatches := 0; totalAmountOutDifference := 0;
     totalFeeDifference := 0; totalProtocolFeeDifference := 0;
     exactMatches := 0 |}.

(** The attributes of a [Pool] object. *)
Record Pool : Type := {
  reserveA : Z;
  reserveB : Z;
  sqrtPriceX64 : Z;
  liquidity : Z;
  tickCurrent : Z;
  feeRatePpm : Z;
  tickSpacing : Z;
  feeRate : float;
  protocolFeeShareNumerator : Z;
  protocolFeeShareDenominator : Z;
  ticks : gmap Z TickData;
  tickBitmap : gset Z;
  feeGrowthGlobal0X64 : Z;
  feeGrowthGlobal1X64 : Z;
  totalSwapFee0 : Z;
  totalSwapFee1 : Z;
  validationStats : ValidationStats;
}.

(** Attribute assignment, one function per attribute the engine writes. *)
Definition set_reserveA (v : Z) (p : Pool) : Pool :=
  {| reserveA := v; reserveB := reserveB p; sqrtPriceX64 := sqrtPriceX64 p;
     liquidity := liquidity p; tickCurrent := tickCurrent p;
     feeRatePpm := feeRatePpm p; tickSpacing := tickSpacing p;
     feeRate := feeRate p;
     protocolFeeShareNumerator := protocolFeeShareNumerator p;
     protocolFeeShareDenominator := protocolFeeShareDenominator p;
     ticks := ticks p; tickBitmap := tickBitmap p;
     feeGrowthGlobal0X64 := feeGrowthGlobal0X64 p;
     feeGrowthGlobal1X64 := feeGrowthGlobal1X64 p;
     totalSwapFee0 := totalSwapFee0 p; totalSwapFee1 := totalSwapFee1 p;
     validationStats := validationStats p |}.

Definition set_reserveB (v : Z) (p : Pool) : Pool :=
  {| reserveA := reserveA p; reserveB := v; sqrtPriceX64 := sqrtPriceX64 p;
     liquidity := liquidity p; tickCurrent := tickCurrent p;
     feeRatePpm := feeRatePpm p; tickSpacing := tickSpacing p;
     feeRate := feeRate p;
     protocolFeeShareNumerator := protocolFeeShareNumerator p;
     protocolFeeShareDenominator := protocolFeeShareDenominator p;
     ticks := ticks p; tickBitmap := tickBitmap p;
     feeGrowthGlobal0X64 := feeGrowthGlobal0X64 p;
     feeGrowthGlobal1X64 := feeGrowthGlobal1X64 p;
     totalSwapFee0 := totalSwapFee0 p; totalSwapFee1 := totalSwapFee1 p;
     validationStats := validationStats p |}.

Definition set_sqrtPriceX64 (v : Z) (p : Pool) : Pool :=
  {| reserveA := reserveA p; reserveB := reserveB p; sqrtPriceX64 := v;
     liquidity := liquidity p; tickCurrent := tickCurrent p;
     feeRatePpm := feeRatePpm p; tickSpacing := tickSpacing p;
     feeRate := feeRate p;
     protocolFeeShareNumerator := protocolFeeShareNumerator p;
     protocolFeeShareDenominator := protocolFeeShareDenominator p;
     ticks := ticks p; tickBitmap := tickBitmap p;
     feeGrowthGlobal0X64 := feeGrowthGlobal0X64 p;
     feeGrowthGlobal1X64 := feeGrowthGlobal1X64 p;
     totalSwapFee0 := totalSwapFee0 p; totalSwapFee1 := totalSwapFee1 p;
     validationStats := validationStats p |}.

Definition set_liquidity (v : Z) (p : Pool) : Pool :=
  {| reserveA := reserveA p; reserveB := reserveB p;
     sqrtPriceX64 := sqrtPriceX64 p;
     liquidity := v; tickCurrent := tickCurrent p;
     feeRatePpm := feeRatePpm p; tickSpacing := tickSpacing p;
     feeRate := feeRate p;
     protocolFeeShareNumerator := protocolFeeShareNumerator p;
     protocolFeeShareDenominator := protocolFeeShareDenominator p;
     ticks := ticks p; tickBitmap := tickBitmap p;
     feeGrowthGlobal0X64 := feeGrowthGlobal0X64 p;
     feeGrowthGlobal1X64 := feeGrowthGlobal1X64 p;
     totalSwapFee0 := totalSwapFee0 p; totalSwapFee1 := totalSwapFee1 p;
     validationStats := validationStats p |}.

Definition set_tickCurrent (v : Z) (p : Pool) : Pool :=
  {| reserveA := reserveA p; reserveB := reserveB p;
     sqrtPriceX64 := sqrtPriceX64 p;
     liquidity := liquidity p; tickCurrent := v;
     feeRatePpm := feeRatePpm p; tickSpacing := tickSpacing p;
     feeRate := feeRate p;
     protocolFeeShareNumerator := protocolFeeShareNumerator p;
     protocolFeeShareDenominator := protocolFeeShareDenominator p;
     ticks := ticks p; tickBitmap := tickBitmap p;
     feeGrowthGlobal0X64 := feeGrowthGlobal0X64 p;
     feeGrowthGlobal1X64 := feeGrowthGlobal1X64 p;
     totalSwapFee0 := totalSwapFee0 p; totalSwapFee1 := totalSwapFee1 p;
     validationStats := validationStats p |}.

Definition set_ticks (v : gmap Z TickData) (p : Pool) : Pool :=
  {| reserveA := reserveA p; reserveB := reserveB p;
     sqrtPriceX64 := sqrtPriceX64 p;
     liquidity := liquidity p; tickCurrent := tickCurrent p;
     feeRatePpm := feeRatePpm p; tickSpacing := tickSpacing p;
     feeRate := feeRate p;
     protocolFeeShareNumerator := protocolFeeShareNumerator p;
     protocolFeeShareDenominator := protocolFeeShareDenominator p;
     ticks := v; tickBitmap := tickBitmap p;
     feeGrowthGlobal0X64 := feeGrowthGlobal0X64 p;
     feeGrowthGlobal1X64 := feeGrowthGlobal1X64 p;
     totalSwapFee0 := totalSwapFee0 p; totalSwapFee1 := totalSwapFee1 p;
     validationStats := validationStats p |}.

Definition set_tickBitmap (v : gset Z) (p : Pool) : Pool :=
  {| reserveA := reserveA p; reserveB := reserveB p;
     sqrtPriceX64 := sqrtPriceX64 p;
     liquidity := liquidity p; tickCurrent := tickCurrent p;
     feeRatePpm := feeRatePpm p; tickSpacing := tickSpacing p;
     feeRate := feeRate p;
     protocolFeeShareNumerator := protocolFeeShareNumerator p;
     protocolFeeShareDenominator := protocolFeeShareDenominator p;
     ticks := ticks p; tickBitmap := v;
     feeGrowthGlobal0X64 := feeGrowthGlobal0X64 p;
     feeGrowthGlobal1X64 := feeGrowthGlobal1X64 p;
     totalSwapFee0 := totalSwapFee0 p; totalSwapFee1 := totalSwapFee1 p;
     validationStats := validationStats p |}.

Definition set_feeGrowthGlobal0X64 (v : Z) (p : Pool) : Pool :=
  {| reserveA := reserveA p; reserveB := reserveB p;
     sqrtPriceX64 := sqrtPriceX64 p;
     liquidity := liquidity p; tickCurrent := tickCurrent p;
     feeRatePpm := feeRatePpm p; tickSpacing := tickSpacing p;
     feeRate := feeRate p;
     protocolFeeShareNumerator := protocolFeeShareNumerator p;
     protocolFeeShareDenominator := protocolFeeShareDenominator p;
     ticks := ticks p; tickBitmap := tickBitmap p;
     feeGrowthGlobal0X64 := v;
     feeGrowthGlobal1X64 := feeGrowthGlobal1X64 p;
     totalSwapFee0 := totalSwapFee0 p; totalSwapFee1 := totalSwapFee1 p;
     validationStats := validationStats p |}.

Definition set_feeGrowthGlobal1X64 (v : Z) (p : Pool) : Pool :=
  {| reserveA := reserveA p; reserveB := reserveB p;
     sqrtPriceX64 := sqrtPriceX64 p;
     liquidity := liquidity p; tickCurrent := tickCurrent p;
     feeRatePpm := feeRatePpm p; tickSpacing := tickSpacing p;
     feeRate := feeRate p;
     protocolFeeShareNumerator := protocolFeeShareNumerator p;
     protocolFeeShareDenominator := protocolFeeShareDenominator p;
     ticks := ticks p; tickBitmap := tickBitmap p;
     feeGrowthGlobal0X64 := feeGrowthGlobal0X64 p;
     feeGrowthGlobal1X64 := v;
     totalSwapFee0 := totalSwapFee0 p; totalSwapFee1 := totalSwapFee1 p;
     validationStats := validationStats p |}.

Definition set_totalSwapFee0 (v : Z) (p : Pool) : Pool :=
  {| reserveA := reserveA p; reserveB := reserveB p;
     sqrtPriceX64 := sqrtPriceX64 p;
     liquidity := liquidity p; tickCurrent := tickCurrent p;
     feeRatePpm := feeRatePpm p; tickSpacing := tickSpacing p;
     feeRate := feeRate p;
     protocolFeeShareNumerator := protocolFeeShareNumerator p;
     protocolFeeShareDenominator := protocolFeeShareDenominator p;
     ticks := ticks p; tickBitmap := tickBitmap p;
     feeGrowthGlobal0X64 := feeGrowthGlobal0X64 p;
     feeGrowthGlobal1X64 := feeGrowthGlobal1X64 p;
     totalSwapFee0 := v; totalSwapFee1 := totalSwapFee1 p;
     validationStats := validationStats p |}.

Definition set_totalSwapFee1 (v : Z) (p : Pool) : Pool :=
  {| reserveA := reserveA p; reserveB := reserveB p;
     sqrtPriceX64 := sqrtPriceX64 p;
     liquidity := liquidity p; tickCurrent := tickCurrent p;
     feeRatePpm := feeRatePpm p; tickSpacing := tickSpacing p;
     feeRate := feeRate p;
     protocolFeeShareNumerator := protocolFeeShareNumerator p;
     protocolFeeShareDenominator := protocolFeeShareDenominator p;
     ticks := ticks p; tickBitmap := tickBitmap p;
     feeGrowthGlobal0X64 := feeGrowthGlobal0X64 p;
     feeGrowthGlobal1X64 := feeGrowthGlobal1X64 p;
     totalSwapFee0 := totalSwapFee0 p; totalSwapFee1 := v;
     validationStats := validationStats p |}.

Definition set_validationStats (v : ValidationStats) (p : Pool) : Pool :=
  {| reserveA := reserveA p; reserveB := reserveB p;
     sqrtPriceX64 := sqrtPriceX64 p;
     liquidity := liquidity p; tickCurrent := tickCurrent p;
     feeRatePpm := feeRatePpm p; tickSpacing := tickSpacing p;
     feeRate := feeRate p;
     protocolFeeShareNumerator := protocolFeeShareNumerator p;
     protocolFeeShareDenominator := protocolFeeShareDenominator p;
     ticks := ticks p; tickBitmap := tickBitmap p;
     feeGrowthGlobal0X64 := feeGrowthGlobal0X64 p;
     feeGrowthGlobal1X64 := feeGrowthGlobal1X64 p;
     totalSwapFee0 := totalSwapFee0 p; totalSwapFee1 := totalSwapFee1 p;
     validationStats := v |}.

(** [Pool.__init__(feeRatePpm, tickSpacing)]: [float(feeRatePpm) / 1_000_000]
    raises when [feeRatePpm] does not fit a double. *)
Definition Pool_init (feeRatePpm0 tickSpacing0 : Z) : result Pool :=
  do f <- float_of_int feeRatePpm0 ;
  do m <- float_of_int 1000000 ;
  do rate <- float_div f m ;
  Ok {| reserveA := 0; reserveB := 0; sqrtPriceX64 := 0; liquidity := 0;
        tickCurrent := 0; feeRatePpm := feeRatePpm0;
        tickSpacing := tickSpacing0; feeRate := rate;
        protocolFeeShareNumerator := 1; protocolFeeShareDenominator := 5;
        ticks := ∅; tickBitmap := ∅;
        feeGrowthGlobal0X64 := 0; feeGrowthGlobal1X64 := 0;
        totalSwapFee0 := 0; totalSwapFee1 := 0;
        validationStats := validationStats_init |}.

(** ** Tick / price conversions *)

(** [price] (a property): the square of [sqrtPriceX64 / Q64]. *)
Definition price (p : Pool) : result float :=
  do sqrt_price <- int_true_div (sqrtPriceX64 p) Q64 ;
  Ok (sqrt_price * sqrt_price)%float.

Definition tickToSqrtPrice (lm : Libm) (tick : Z) : result Z :=
  do b <- float_pow_int lm Base tick ;
  do sqrt_price <- math_sqrt b ;
  do q <- float_of_int Q64 ;
  math_floor (sqrt_price * q)%float.

Definition sqrtPriceToTick (lm : Libm) (sqrt_price : Z) : result Z :=
  if sqrt_price <=? 0 then Ok 0
  else
    do price <- int_true_div sqrt_price Q64 ;
    do l <- math_log lm price ;
    do two <- float_of_int 2 ;
    do lb <- math_log lm Base ;
    do q <- float_div (two * l)%float lb ;
    math_floor q.

Definition getActiveLiquidity (p : Pool) : Z := liquidity p.

(** ** Tick book and liquidity manager *)

Definition TickData_zero : TickData :=
  {| liquidityNet := 0; liquidityGross := 0;
     feeGrowthOutside0X64 := 0; feeGrowthOutside1X64 := 0 |}.

(** [updateTickData]: the entry is created when absent, both deltas are
    added, and the entry is either deleted (with its bitmap bit) or kept with
    [liquidityGross] clamped at 0 (and its bitmap bit set). *)
Definition updateTickData (tick netDelta grossDelta : Z) (p : Pool) : Pool :=
  let tickData := default TickData_zero (ticks p !! tick) in
  let net := liquidityNet tickData + netDelta in
  let gross := liquidityGross tickData + grossDelta in
  if (gross <=? 0) && (net =? 0) then
    set_tickBitmap (tickBitmap p ∖ {[tick]}) (set_ticks (delete tick (ticks p)) p)
  else
    let gross' := if gross <? 0 then 0 else gross in
    set_tickBitmap ({[tick]} ∪ tickBitmap p)
      (set_ticks (<[tick := {| liquidityNet := net; liquidityGross := gross';
                               feeGrowthOutside0X64 := feeGrowthOutside0X64 tickData;
                               feeGrowthOutside1X64 := feeGrowthOutside1X64 tickData |}]>
                    (ticks p)) p).

Definition applyLiquidityDelta (tickLower tickUpper liquidityDelta : Z) (p : Pool) : Pool :=
  if liquidityDelta =? 0 then p
  else
    let deltaAbs := if 0 <=? liquidityDelta then liquidityDelta else - liquidityDelta in
    let grossDelta := if 0 <=? liquidityDelta then deltaAbs else - deltaAbs in
    let p := updateTickData tickLower liquidityDelta grossDelta p in
    let p := updateTickData tickUpper (- liquidityDelta) grossDelta p in
    if (tickLower <=? tickCurrent p) && (tickCurrent p <? tickUpper) then
      let p := set_liquidity (liquidity p + liquidityDelta) p in
      if liquidity p <? 0 then set_liquidity 0 p else p
    else p.

(** ** Fee engine *)

(** The dict [calculateFees] returns. *)
Record Fees : Set := {
  totalFee : Z;
  lpFee : Z;
  protocolFee : Z;
}.

Definition Fees_zero : Fees := {| totalFee := 0; lpFee := 0; protocolFee := 0 |}.

(** The line [ppm = self.feeRatePpm if self.feeRatePpm > 0 else
    int(round(self.feeRate * 1_000_000))] of [calculateFees]. *)
Definition effectivePpm (p : Pool) : result Z :=
  if 0 <? feeRatePpm p then Ok (feeRatePpm p)
  else
    do m <- float_of_int 1000000 ;
    py_round (feeRate p * m)%float.

Definition calculateFees (p : Pool) (amountIn : Z) : result Fees :=
  if amountIn <=? 0 then Ok Fees_zero
  else
    do ppm <- effectivePpm p ;
    if ppm <=? 0 then Ok Fees_zero
    else
      let rawFee := (amountIn * ppm + 1000000 - 1) / 1000000 in
      if rawFee <=? 0 then Ok Fees_zero
      else
        let lpFee := (rawFee * 4 + 5 - 1) / 5 in
        let lpFee := if lpFee <? 1 then 1 else lpFee in
        let protocolFee := rawFee - lpFee in
        let protocolFee := if protocolFee <? 0 then 0 else protocolFee in
        let totalFee := lpFee + protocolFee in
        Ok {| totalFee := totalFee; lpFee := lpFee; protocolFee := protocolFee |}.

Definition updateFeeGrowth (feeAmount : Z) (zeroForOne : bool) (p : Pool) : Pool :=
  if 0 <? liquidity p then
    let feeGrowthDelta := (feeAmount * Z.shiftl 1 64) / liquidity p in
    if zeroForOne then set_feeGrowthGlobal0X64 (feeGrowthGlobal0X64 p + feeGrowthDelta) p
    else set_feeGrowthGlobal1X64 (feeGrowthGlobal1X64 p + feeGrowthDelta) p
  else p.

Definition updateFeeGrowthOutside (tick : Z) (zeroForOne : bool) (p : Pool) : Pool :=
  match ticks p !! tick with
  | None => p
  | Some tickData =>
      let globalFeeGrowth :=
        if zeroForOne then feeGrowthGlobal0X64 p else feeGrowthGlobal1X64 p in
      if zeroForOne then
        set_ticks (<[tick := {| liquidityNet := liquidityNet tickData;
                                liquidityGross := liquidityGross tickData;
                                feeGrowthOutside0X64 := globalFeeGrowth;
                                feeGrowthOutside1X64 := feeGrowthOutside1X64 tickData |}]>
                     (ticks p)) p
      else
        set_ticks (<[tick := {| liquidityNet := liquidityNet tickData;
                                liquidityGross := liquidityGross tickData;
                                feeGrowthOutside0X64 := feeGrowthOutside0X64 tickData;
                                feeGrowthOutside1X64 := globalFeeGrowth |}]>
                     (ticks p)) p
  end.

Definition updateTickFeeGrowthForFlashSwap (p : Pool) : Pool :=
  set_ticks
    ((fun tickData =>
        {| liquidityNet := liquidityNet tickData;
           liquidityGross := liquidityGross tickData;
           feeGrowthOutside0X64 := feeGrowthGlobal0X64 p;
           feeGrowthOutside1X64 := feeGrowthGlobal1X64 p |}) <$> ticks p) p.

Definition submod (a b : Z) : Z :=
  let diff := a - b in
  if diff <? 0 then 0 else diff.

Definition mulDivRoundingDown (a b denominator : Z) : Z :=
  if (denominator =? 0) || (a =? 0) || (b =? 0) then 0
  else (a * b) / denominator.

Definition calculateFeeGrowthInside (tickLower tickUpper tokenIndex : Z) (p : Pool) : Z :=
  let globalFeeGrowth :=
    if tokenIndex =? 0 then feeGrowthGlobal0X64 p else feeGrowthGlobal1X64 p in
  match ticks p !! tickLower, ticks p !! tickUpper with
  | Some tickLowerData, Some tickUpperData =>
      let feeGrowthOutsideLower :=
        if tokenIndex =? 0 then feeGrowthOutside0X64 tickLowerData
        else feeGrowthOutside1X64 tickLowerData in
      let feeGrowthOutsideUpper :=
        if tokenIndex =? 0 then feeGrowthOutside0X64 tickUpperData
        else feeGrowthOutside1X64 tickUpperData in
      if tickCurrent p <? tickLower then
        submod feeGrowthOutsideLower feeGrowthOutsideUpper
      else if tickUpper <=? tickCurrent p then
        submod feeGrowthOutsideUpper feeGrowthOutsideLower
      else
        let temp := submod globalFeeGrowth feeGrowthOutsideLower in
        submod temp feeGrowthOutsideUpper
  | _, _ => 0
  end.

(** The dict [getFeesAtTick] returns. *)
Record TickFees : Set := {
  fee0 : Z;
  fee1 : Z;
}.

Definition getFeesAtTick (tick : Z) (p : Pool) : TickFees :=
  match ticks p !! tick with
  | None => {| fee0 := 0; fee1 := 0 |}
  | Some tickData =>
      let feeGrowthInside0X64 := calculateFeeGrowthInside tick tick 0 p in
      let feeGrowthInside1X64 := calculateFeeGrowthInside tick tick 1 p in
      {| fee0 := (liquidityGross tickData * feeGrowthInside0X64) / Z.shiftl 1 64;
         fee1 := (liquidityGross tickData * feeGrowthInside1X64) / Z.shiftl 1 64 |}
  end.

(** ** Swap engine *)

(** [sorted(...)[0]] of the initialized ticks on the side of the swap, [None]
    when there is none. *)
Definition getNextTick (p : Pool) (currentTick : Z) (zeroForOne : bool) : option Z :=
  if zeroForOne then
    head (merge_sort Z.ge
            (filter (fun tick => tick < currentTick) (elements (tickBitmap p))))
  else
    head (merge_sort Z.le
            (filter (fun tick => currentTick < tick) (elements (tickBitmap p)))).

Definition calculateMaxSwapAtPrice (lm : Libm) (p : Pool)
    (currentSqrtPriceX64 nextTick : Z) (zeroForOne : bool) : result Z :=
  do nextSqrtPriceX64 <- tickToSqrtPrice lm nextTick ;
  let Q64 := Z.shiftl 1 64 in
  if zeroForOne then
    let numerator := liquidity p * (currentSqrtPriceX64 - nextSqrtPriceX64) * Q64 in
    let denominator := currentSqrtPriceX64 * nextSqrtPriceX64 in
    Ok (if negb (denominator =? 0) then numerator / denominator else 0)
  else
    let deltaSqrtPrice := nextSqrtPriceX64 - currentSqrtPriceX64 in
    Ok (if negb (Q64 =? 0) then (liquidity p * deltaSqrtPrice) / Q64 else 0).

(** The dict [swapAtPrice] returns. *)
Record StepResult : Set := {
  step_amountOut : Z;
  step_newSqrtPriceX64 : Z;
}.

Definition swapAtPrice (p : Pool) (amountIn sqrtPriceX64 : Z) (zeroForOne : bool) : StepResult :=
  let Q64 := Z.shiftl 1 64 in
  if zeroForOne then
    if liquidity p =? 0 then
      {| step_amountOut := 0; step_newSqrtPriceX64 := sqrtPriceX64 |}
    else
      let numerator := liquidity p * sqrtPriceX64 * Q64 in
      let denominator := liquidity p * Q64 + amountIn * sqrtPriceX64 in
      let newSqrtPriceX64 :=
        if denominator =? 0 then sqrtPriceX64 else numerator / denominator in
      let delta := sqrtPriceX64 - newSqrtPriceX64 in
      let amountOut := mulDivRoundingDown (liquidity p) delta Q64 in
      {| step_amountOut := amountOut; step_newSqrtPriceX64 := newSqrtPriceX64 |}
  else
    if liquidity p =? 0 then
      {| step_amountOut := 0; step_newSqrtPriceX64 := sqrtPriceX64 |}
    else
      let newSqrtPriceX64 := sqrtPriceX64 + (amountIn * Q64) / liquidity p in
      let delta := newSqrtPriceX64 - sqrtPriceX64 in
      let numerator := liquidity p * delta * Q64 in
      let denominator := newSqrtPriceX64 * sqrtPriceX64 in
      let amountOut := if denominator =? 0 then 0 else numerator / denominator in
      {| step_amountOut := amountOut; step_newSqrtPriceX64 := newSqrtPriceX64 |}.

(** The dict [executeCLMMSwap] returns. *)
Record SwapResult : Set := {
  amountOut : Z;
  newSqrtPriceX64 : Z;
  newTick : Z;
}.

(** The liquidity update at the end of an iteration that crosses [nextTick]. *)
Definition crossTick (nextTick : Z) (zeroForOne : bool) (p : Pool) : Pool :=
  match ticks p !! nextTick with
  | None => p
  | Some tickData =>
      let liquidityNet := liquidityNet tickData in
      let p :=
        if zeroForOne then set_liquidity (liquidity p - liquidityNet) p
        else set_liquidity (liquidity p + liquidityNet) p in
      if liquidity p <? 0 then set_liquidity 0 p else p
  end.

(** The [while remainingAmount > 0] loop of [executeCLMMSwap], on its four
    local variables and the pool.  [fuel] bounds the number of iterations. *)
Fixpoint executeCLMMSwap_loop (lm : Libm) (zeroForOne : bool) (fuel : nat) (p : Pool)
    (currentSqrtPriceX64 currentTick amountOut remainingAmount : Z)
    {struct fuel} : Pool * result SwapResult :=
  if remainingAmount <=? 0 then
    (p, Ok {| amountOut := amountOut; newSqrtPriceX64 := currentSqrtPriceX64;
              newTick := currentTick |})
  else
    match fuel with
    | O => (p, Raise LoopBound)
    | S fuel =>
        match getNextTick p currentTick zeroForOne with
        | None =>
            let swapResult := swapAtPrice p remainingAmount currentSqrtPriceX64 zeroForOne in
            let amountOut := amountOut + step_amountOut swapResult in
            let currentSqrtPriceX64 := step_newSqrtPriceX64 swapResult in
            (p, do currentTick <- sqrtPriceToTick lm currentSqrtPriceX64 ;
                Ok {| amountOut := amountOut; newSqrtPriceX64 := currentSqrtPriceX64;
                      newTick := currentTick |})
        | Some nextTick =>
            match calculateMaxSwapAtPrice lm p currentSqrtPriceX64 nextTick zeroForOne with
            | Raise e => (p, Raise e)
            | Ok maxAmountAtCurrentPrice =>
                if maxAmountAtCurrentPrice <=? 0 then
                  (p, Ok {| amountOut := amountOut;
                            newSqrtPriceX64 := currentSqrtPriceX64;
                            newTick := currentTick |})
                else if remainingAmount <=? maxAmountAtCurrentPrice then
                  let swapResult :=
                    swapAtPrice p remainingAmount currentSqrtPriceX64 zeroForOne in
                  let amountOut := amountOut + step_amountOut swapResult in
                  let currentSqrtPriceX64 := step_newSqrtPriceX64 swapResult in
                  (p, do currentTick <- sqrtPriceToTick lm currentSqrtPriceX64 ;
                      Ok {| amountOut := amountOut;
                            newSqrtPriceX64 := currentSqrtPriceX64;
                            newTick := currentTick |})
                else
                  let swapResult :=
                    swapAtPrice p maxAmountAtCurrentPrice currentSqrtPriceX64 zeroForOne in
                  let amountOut := amountOut + step_amountOut swapResult in
                  let remainingAmount := remainingAmount - maxAmountAtCurrentPrice in
                  match tickToSqrtPrice lm nextTick with
                  | Raise e => (p, Raise e)
                  | Ok currentSqrtPriceX64 =>
                      let currentTick := nextTick in
                      let p := updateFeeGrowthOutside nextTick zeroForOne p in
                      let p := crossTick nextTick zeroForOne p in
                      executeCLMMSwap_loop lm zeroForOne fuel p
                        currentSqrtPriceX64 currentTick amountOut remainingAmount
                  end
            end
        end
    end.

(** [executeCLMMSwap]: every iteration that does not leave the loop consumes
    at least one unit of [remainingAmount], so [amountIn] iterations are
    enough. *)
Definition executeCLMMSwap (lm : Libm) (amountIn : Z) (zeroForOne : bool) (p : Pool)
    : Pool * result SwapResult :=
  executeCLMMSwap_loop lm zeroForOne (Z.to_nat amountIn) p
    (sqrtPriceX64 p) (tickCurrent p) 0 amountIn.

Definition applySwapInternal (lm : Libm) (amountIn : Z) (zeroForOne : bool) (fees : Fees)
    (p : Pool) : Pool * result Z :=
  if amountIn <=? 0 then (p, Ok 0)
  else
    let totalFee := totalFee fees in
    let lpFee := lpFee fees in
    let p :=
      if 0 <? totalFee then
        if zeroForOne then set_totalSwapFee0 (totalSwapFee0 p + totalFee) p
        else set_totalSwapFee1 (totalSwapFee1 p + totalFee) p
      else p in
    let p := if 0 <? lpFee then updateFeeGrowth lpFee zeroForOne p else p in
    let amountInAfterFee := if totalFee <? amountIn then amountIn - totalFee else 0 in
    if amountInAfterFee =? 0 then (p, Ok 0)
    else
      match executeCLMMSwap lm amountInAfterFee zeroForOne p with
      | (p, Raise e) => (p, Raise e)
      | (p, Ok result) =>
          let p := set_sqrtPriceX64 (newSqrtPriceX64 result) p in
          let p := set_tickCurrent (newTick result) p in
          (p, Ok (amountOut result))
      end.

Definition applySwap (lm : Libm) (amountIn : Z) (zeroForOne : bool) (p : Pool)
    : Pool * result Z :=
  match calculateFees p amountIn with
  | Raise e => (p, Raise e)
  | Ok fees => applySwapInternal lm amountIn zeroForOne fees p
  end.

(** ** Validation harness *)

(** The [validation] dict of [applySwapWithValidation]. *)
Record Validation : Set := {
  amountOutMatch : bool;
  feeMatch : bool;
  protocolFeeMatch : bool;
  amountOutDifference : Z;
  feeDifference : Z;
  protocolFeeDifference : Z;
  isExactMatch : bool;
}.

(** The dict [applySwapWithValidation] returns. *)
Record ValidatedSwap : Set := {
  vs_amountOut : Z;
  vs_feeAmount : Z;
  vs_protocolFee : Z;
  vs_validation : Validation;
}.

(** The counter updates at the end of [applySwapWithValidation]. *)
Definition recordValidation (validation : Validation) (s : ValidationStats) : ValidationStats :=
  let mis1 := negb (amountOutMatch validation) in
  let mis2 := negb (feeMatch validation) in
  let mis3 := negb (protocolFeeMatch validation) in
  {| totalSwaps := totalSwaps s;
     amountOutMismatches :=
       if mis1 then amountOutMismatches s + 1 else amountOutMismatches s;
     feeMismatches := if mis2 then feeMismatches s + 1 else feeMismatches s;
     protocolFeeMismatches :=
       if mis3 then protocolFeeMismatches s + 1 else protocolFeeMismatches s;
     totalAmountOutDifference :=
       if mis1 then totalAmountOutDifference s + amountOutDifference validation
       else totalAmountOutDifference s;
     totalFeeDifference :=
       if mis2 then totalFeeDifference s + feeDifference validation
       else totalFeeDifference s;
     totalProtocolFeeDifference :=
       if mis3 then totalProtocolFeeDifference s + protocolFeeDifference validation
       else totalProtocolFeeDifference s;
     exactMatches :=
       if isExactMatch validation then exactMatches s + 1 else exactMatches s |}.

Definition countSwap (s : ValidationStats) : ValidationStats :=
  {| totalSwaps := totalSwaps s + 1;
     amountOutMismatches := amountOutMismatches s;
     feeMismatches := feeMismatches s;
     protocolFeeMismatches := protocolFeeMismatches s;
     totalAmountOutDifference := totalAmountOutDifference s;
     totalFeeDifference := totalFeeDifference s;
     totalProtocolFeeDifference := totalProtocolFeeDifference s;
     exactMatches := exactMatches s |}.

(** The three [expected...] arguments default to [None]. *)
Definition applySwapWithValidation (lm : Libm) (amountIn : Z) (zeroForOne : bool)
    (expectedAmountOut expectedFee expectedProtocolFee : option Z) (p : Pool)
    : Pool * result ValidatedSwap :=
  let p := set_validationStats (countSwap (validationStats p)) p in
  match calculateFees p amountIn with
  | Raise e => (p, Raise e)
  | Ok computedFees =>
      let lpFee := default (lpFee computedFees) expectedFee in
      let protocolFee := default (protocolFee computedFees) expectedProtocolFee in
      let totalFee := lpFee + protocolFee in
      match applySwapInternal lm amountIn zeroForOne
              {| totalFee := totalFee; lpFee := lpFee; protocolFee := protocolFee |} p with
      | (p, Raise e) => (p, Raise e)
      | (p, Ok amountOut) =>
          let amountOutMatch :=
            match expectedAmountOut with Some e => amountOut =? e | None => true end in
          let feeMatch :=
            match expectedFee with Some e => lpFee =? e | None => true end in
          let protocolFeeMatch :=
            match expectedProtocolFee with Some e => protocolFee =? e | None => true end in
          let validation :=
            {| amountOutMatch := amountOutMatch;
               feeMatch := feeMatch;
               protocolFeeMatch := protocolFeeMatch;
               amountOutDifference :=
                 match expectedAmountOut with Some e => amountOut - e | None => 0 end;
               feeDifference :=
                 match expectedFee with Some e => lpFee - e | None => 0 end;
               protocolFeeDifference :=
                 match expectedProtocolFee with Some e => protocolFee - e | None => 0 end;
               isExactMatch := amountOutMatch && feeMatch && protocolFeeMatch |} in
          let p := set_validationStats (recordValidation validation (validationStats p)) p in
          (p, Ok {| vs_amountOut := amountOut; vs_feeAmount := lpFee;
                    vs_protocolFee := protocolFee; vs_validation := validation |})
      end
  end.

(** ** Flash-swap repay *)

(** [reserveX] and [reserveY] default to [None]. *)
Definition applyRepayFlashSwap (amountXDebt amountYDebt paidX paidY : Z)
    (reserveX reserveY : option Z) (p : Pool) : Pool :=
  let feeX := if amountXDebt <? paidX then paidX - amountXDebt else 0 in
  let feeY := if amountYDebt <? paidY then paidY - amountYDebt else 0 in
  let p :=
    if 0 <? feeX then
      let p := updateFeeGrowth feeX true p in
      set_totalSwapFee0 (totalSwapFee0 p + feeX) p
    else p in
  let p :=
    if 0 <? feeY then
      let p := updateFeeGrowth feeY false p in
      set_totalSwapFee1 (totalSwapFee1 p + feeY) p
    else p in
  let p := match reserveX with Some r => set_reserveA r p | None => p end in
  let p := match reserveY with Some r => set_reserveB r p | None => p end in
  updateTickFeeGrowthForFlashSwap p.

(** ** Estimators *)

Definition calculatePriceImpact (p : Pool) (amountIn amountOut : Z) (zeroForOne : bool)
    : result float :=
  do currentPrice <- price p ;
  if (amountIn =? 0) || (amountOut =? 0) then Ok 0%float
  else
    do effectivePrice <- (if zeroForOne then int_true_div amountOut amountIn
                          else int_true_div amountIn amountOut) ;
    if negb (PrimFloat.eqb currentPrice 0) then
      do hundred <- float_of_int 100 ;
      Ok (PrimFloat.abs ((effectivePrice - currentPrice) / currentPrice) * hundred)%float
    else Ok 0%float.

(** The dict [estimateAmountOut] returns. *)
Record Estimate : Set := {
  est_amountOut : Z;
  est_feeAmount : Z;
  est_priceImpact : float;
}.

Definition estimateAmountOut (lm : Libm) (amountIn : Z) (zeroForOne : bool) (p : Pool)
    : Pool * result Estimate :=
  match calculateFees p amountIn with
  | Raise e => (p, Raise e)
  | Ok fees =>
      let amountInAfterFee :=
        if totalFee fees <? amountIn then amountIn - totalFee fees else 0 in
      let '(p, r) :=
        if 0 <? amountInAfterFee then executeCLMMSwap lm amountInAfterFee zeroForOne p
        else (p, Ok {| amountOut := 0; newSqrtPriceX64 := sqrtPriceX64 p;
                       newTick := tickCurrent p |}) in
      match r with
      | Raise e => (p, Raise e)
      | Ok result =>
          (p, do priceImpact <- calculatePriceImpact p amountIn (amountOut result) zeroForOne ;
              Ok {| est_amountOut := amountOut result; est_feeAmount := lpFee fees;
                    est_priceImpact := priceImpact |})
      end
  end.

(** ** Serializer *)

(** A JSON value: what [json.loads] returns and [json.dumps] takes.  The
    [state] dict of [serialize] and [deserialize] is such a value; the text
    in between is not modelled beyond the one way it can fail (see
    [json_dumps_int]).  A string is a sequence of code points below 256, one
    [ascii] each.  An object is an association list, a key's value is its
    first binding. *)
#[local] Unset Elimination Schemes.
Inductive json : Type :=
  | JNull
  | JBool (b : bool)
  | JInt (z : Z)
  | JFloat (f : float)
  | JStr (s : string)
  | JList (l : list json)
  | JObj (kvs : list (string * json)).
#[local] Set Elimination Schemes.

(** CPython's limit on the decimal digits of an [int] in [str(z)] and
    [int(s)] ([sys.get_int_max_str_digits()], 4300 unless configured). *)
Definition int_max_str_digits : Z := 4300.

Definition int_digits (i : Decimal.int) : Z :=
  match i with
  | Decimal.Pos d | Decimal.Neg d => Z.of_nat (Decimal.nb_digits d)
  end.

(** [str(z)]: the decimal digits, after a minus sign for a negative [z];
    [ValueError] beyond the digit limit. *)
Definition py_str (z : Z) : result string :=
  let i := Z.to_int z in
  if int_max_str_digits <? int_digits i then Raise ValueError
  else Ok (NilZero.string_of_int i).

(** The white space [int(s)] skips around a number. *)
Definition is_space (c : ascii) : bool :=
  let n := N_of_ascii c in
  ((9 <=? n) && (n <=? 13) || (n =? 32) || (n =? 133) || (n =? 160))%N.

Definition digit_of (c : ascii) : option (Decimal.uint -> Decimal.uint) :=
  match c with
  | "0" => Some Decimal.D0 | "1" => Some Decimal.D1 | "2" => Some Decimal.D2
  | "3" => Some Decimal.D3 | "4" => Some Decimal.D4 | "5" => Some Decimal.D5
  | "6" => Some Decimal.D6 | "7" => Some Decimal.D7 | "8" => Some Decimal.D8
  | "9" => Some Decimal.D9
  | _ => None
  end%char.

Fixpoint lstrip (s : string) : string :=
  match s with
  | String c s' => if is_space c then lstrip s' else s
  | EmptyString => s
  end.

Fixpoint all_space (s : string) : bool :=
  match s with
  | String c s' => is_space c && all_space s'
  | EmptyString => true
  end.

(** The digits of a number, with single underscores between digits, up to
    trailing white space.  [after_digit] tells whether the character before
    was a digit. *)
Fixpoint scan_digits (after_digit : bool) (s : string) : option Decimal.uint :=
  match s with
  | EmptyString => if after_digit then Some Decimal.Nil else None
  | String c s' =>
      match digit_of c with
      | Some d => d <$> scan_digits true s'
      | None =>
          if after_digit then
            if Ascii.eqb c "_" then scan_digits false s'
            else if is_space c && all_space s' then Some Decimal.Nil
            else None
          else None
      end
  end.

(** [int(s)] on a string: white space, an optional sign, decimal digits with
    single underscores between them, white space; [ValueError] for anything
    else and beyond the digit limit. *)
Definition int_of_str (s : string) : result Z :=
  let s := lstrip s in
  let '(negative, s) :=
    match s with
    | String "-" s' => (true, s')
    | String "+" s' => (false, s')
    | _ => (false, s)
    end in
  match scan_digits false s with
  | Some d =>
      if int_max_str_digits <? Z.of_nat (Decimal.nb_digits d) then Raise ValueError
      else Ok (if negative then - Z.of_uint d else Z.of_uint d)
  | None => Raise ValueError
  end.

(** [int(x)] on a float truncates towards zero. *)
Definition float_trunc (x : float) : result Z :=
  match Prim2SF x with
  | S754_zero _ => Ok 0
  | S754_finite s m e =>
      let a := Z.shiftl (Zpos m) e in Ok (if s then - a else a)
  | S754_infinity _ => Raise OverflowError
  | S754_nan => Raise ValueError
  end.

(** [int(x)] for [x] a JSON value. *)
Definition py_int (x : json) : result Z :=
  match x with
  | JInt z => Ok z
  | JBool b => Ok (if b then 1 else 0)
  | JFloat f => float_trunc f
  | JStr s => int_of_str s
  | JNull | JList _ | JObj _ => Raise TypeError
  end.

Fixpoint assoc (k : string) (kvs : list (string * json)) : option json :=
  match kvs with
  | [] => None
  | (k', v) :: kvs => if String.eqb k k' then Some v else assoc k kvs
  end.

(** [d[k]] for a string [k]. *)
Definition json_get (k : string) (d : json) : result json :=
  match d with
  | JObj kvs => match assoc k kvs with Some v => Ok v | None => Raise KeyError end
  | _ => Raise TypeError
  end.

(** [d.get(k, dflt)], on a [d] that [d[...]] has been applied to before. *)
Definition json_get_default (k : string) (dflt : json) (d : json) : result json :=
  match d with
  | JObj kvs => Ok (default dflt (assoc k kvs))
  | _ => Raise TypeError
  end.

(** [for x in v]: the items of a list, the characters of a string, the keys
    of a dict. *)
Fixpoint chars (s : string) : list json :=
  match s with
  | String c s' => JStr (String c EmptyString) :: chars s'
  | EmptyString => []
  end.

Definition py_iter (v : json) : result (list json) :=
  match v with
  | JList l => Ok l
  | JStr s => Ok (chars s)
  | JObj kvs => Ok (JStr <$> kvs.*1)
  | JNull | JBool _ | JInt _ | JFloat _ => Raise TypeError
  end.

(** [json.dumps(state)]: the text is not modelled, the value stands for it;
    writing an [int] is subject to the digit limit. *)
Definition json_dumps_int (z : Z) : result json :=
  do _ <- py_str z ; Ok (JInt z).

(** *** Loading a state into the typed pool

    [deserialize] stores some values of the state as they come
    ([tickSpacing], [tickCurrent], [feeRate], the tick indices).  The model's
    pool is typed, so a state that holds a value of another type there has
    no pool in the model: the outcome is [Untyped], which says nothing about
    what the code does. *)
Inductive loaded (A : Type) : Type :=
  | Loaded (a : A)
  | Fails (e : pyexn)
  | Untyped.
Arguments Loaded {A} a.
Arguments Fails {A} e.
Arguments Untyped {A}.

Definition lbind {A B} (r : loaded A) (k : A -> loaded B) : loaded B :=
  match r with
  | Loaded a => k a
  | Fails e => Fails e
  | Untyped => Untyped
  end.

Definition lift {A} (r : result A) : loaded A :=
  match r with
  | Ok a => Loaded a
  | Raise e => Fails e
  end.

Declare Scope load_scope.
Delimit Scope load_scope with load.
Notation "'do' x <- r ; k" := (lbind r (fun x => k))
  (at level 10, x name, r at level 100, k at level 200) : load_scope.

(** An attribute of type [int] resp. [float] stored as it comes. *)
Definition stored_int (x : json) : loaded Z :=
  match x with JInt z => Loaded z | _ => Untyped end.

Definition stored_float (x : json) : loaded float :=
  match x with JFloat f => Loaded f | _ => Untyped end.

(** A value used as a key of [ticks] or put into [tickBitmap]: a list or a
    dict is unhashable. *)
Definition stored_key (x : json) : loaded Z :=
  match x with
  | JInt z => Loaded z
  | JList _ | JObj _ => Fails TypeError
  | _ => Untyped
  end.

(** *** [serialize] *)

Definition serialize_tick (kv : Z * TickData) : result json :=
  let '(tick, data) := kv in
  do net <- py_str (liquidityNet data) ;
  do gross <- py_str (liquidityGross data) ;
  do fgo0 <- py_str (feeGrowthOutside0X64 data) ;
  do fgo1 <- py_str (feeGrowthOutside1X64 data) ;
  Ok (JObj [ ("tick", JInt tick);
             ("liquidityNet", JStr net);
             ("liquidityGross", JStr gross);
             ("feeGrowthOutside0X64", JStr fgo0);
             ("feeGrowthOutside1X64", JStr fgo1) ]%string).

Fixpoint serialize_ticks (l : list (Z * TickData)) : result (list json) :=
  match l with
  | [] => Ok []
  | kv :: l => do x <- serialize_tick kv ; do xs <- serialize_ticks l ; Ok (x :: xs)
  end.

Fixpoint json_dumps_ints (l : list Z) : result (list json) :=
  match l with
  | [] => Ok []
  | z :: l => do x <- json_dumps_int z ; do xs <- json_dumps_ints l ; Ok (x :: xs)
  end.

(** [serialize].  [ticks] is a [gmap] and [tickBitmap] a [gset] in the model,
    which do not keep Python's iteration order (insertion order for the dict,
    hash-table order for the set): the two orders are arguments,
    [ticksOrder] for [self.ticks.items()] and [bitmapOrder] for
    [list(self.tickBitmap)], each a permutation of the entries.  The [int]s
    that [json.dumps] writes as such are checked against the digit limit
    where the value is built. *)
Definition serialize (ticksOrder : list (Z * TickData)) (bitmapOrder : list Z)
    (p : Pool) : result json :=
  do reserveA <- py_str (reserveA p) ;
  do reserveB <- py_str (reserveB p) ;
  do sqrtPriceX64 <- py_str (sqrtPriceX64 p) ;
  do liquidity <- py_str (liquidity p) ;
  do feeRatePpm <- py_str (feeRatePpm p) ;
  do protocolFeeShareNumerator <- py_str (protocolFeeShareNumerator p) ;
  do protocolFeeShareDenominator <- py_str (protocolFeeShareDenominator p) ;
  do feeGrowthGlobal0X64 <- py_str (feeGrowthGlobal0X64 p) ;
  do feeGrowthGlobal1X64 <- py_str (feeGrowthGlobal1X64 p) ;
  do totalSwapFee0 <- py_str (totalSwapFee0 p) ;
  do totalSwapFee1 <- py_str (totalSwapFee1 p) ;
  do ticks <- serialize_ticks ticksOrder ;
  do tickCurrent <- json_dumps_int (tickCurrent p) ;
  do tickSpacing <- json_dumps_int (tickSpacing p) ;
  do _ <- json_dumps_ints ticksOrder.*1 ;
  do tickBitmap <- json_dumps_ints bitmapOrder ;
  Ok (JObj [ ("reserveA", JStr reserveA);
             ("reserveB", JStr reserveB);
             ("sqrtPriceX64", JStr sqrtPriceX64);
             ("liquidity", JStr liquidity);
             ("tickCurrent", tickCurrent);
             ("feeRate", JFloat (feeRate p));
             ("tickSpacing", tickSpacing);
             ("feeRatePpm", JStr feeRatePpm);
             ("protocolFeeShareNumerator", JStr protocolFeeShareNumerator);
             ("protocolFeeShareDenominator", JStr protocolFeeShareDenominator);
             ("feeGrowthGlobal0X64", JStr feeGrowthGlobal0X64);
             ("feeGrowthGlobal1X64", JStr feeGrowthGlobal1X64);
             ("totalSwapFee0", JStr totalSwapFee0);
             ("totalSwapFee1", JStr totalSwapFee1);
             ("ticks", JList ticks);
             ("tickBitmap", JList tickBitmap) ]%string).

(** The iteration orders a pool can have. *)
Definition iterationOrders (ticksOrder : list (Z * TickData)) (bitmapOrder : list Z)
    (p : Pool) : Prop :=
  ticksOrder ≡ₚ map_to_list (ticks p) /\ bitmapOrder ≡ₚ elements (tickBitmap p).

(** The pools [serialize] returns on: every [int] it writes is within the
    digit limit of [str]. *)
Definition str_ok (z : Z) : bool := int_digits (Z.to_int z) <=? int_max_str_digits.

Definition tick_str_ok (kv : Z * TickData) : bool :=
  str_ok kv.1 && str_ok (liquidityNet kv.2) && str_ok (liquidityGross kv.2) &&
  str_ok (feeGrowthOutside0X64 kv.2) && str_ok (feeGrowthOutside1X64 kv.2).

Definition serializable (p : Pool) : bool :=
  str_ok (reserveA p) && str_ok (reserveB p) && str_ok (sqrtPriceX64 p) &&
  str_ok (liquidity p) && str_ok (tickCurrent p) && str_ok (tickSpacing p) &&
  str_ok (feeRatePpm p) && str_ok (protocolFeeShareNumerator p) &&
  str_ok (protocolFeeShareDenominator p) && str_ok (feeGrowthGlobal0X64 p) &&
  str_ok (feeGrowthGlobal1X64 p) && str_ok (totalSwapFee0 p) &&
  str_ok (totalSwapFee1 p) &&
  forallb tick_str_ok (map_to_list (ticks p)) &&
  forallb str_ok (elements (tickBitmap p)).

(** *** [deserialize] *)

(** One iteration of [for tickData in state["ticks"]]: the four values of the
    new entry are evaluated before its key. *)
Definition deserialize_tick (tickData : json) (m : gmap Z TickData)
    : loaded (gmap Z TickData) :=
  (do x <- lift (json_get "liquidityNet" tickData) ;
   do net <- lift (py_int x) ;
   do x <- lift (json_get "liquidityGross" tickData) ;
   do gross <- lift (py_int x) ;
   do x <- lift (json_get "feeGrowthOutside0X64" tickData) ;
   do fgo0 <- lift (py_int x) ;
   do x <- lift (json_get "feeGrowthOutside1X64" tickData) ;
   do fgo1 <- lift (py_int x) ;
   do x <- lift (json_get "tick" tickData) ;
   do tick <- stored_key x ;
   Loaded (<[tick := {| liquidityNet := net; liquidityGross := gross;
                        feeGrowthOutside0X64 := fgo0;
                        feeGrowthOutside1X64 := fgo1 |}]> m))%load.

Fixpoint deserialize_ticks (l : list json) (m : gmap Z TickData)
    : loaded (gmap Z TickData) :=
  match l with
  | [] => Loaded m
  | tickData :: l => (do m <- deserialize_tick tickData m ; deserialize_ticks l m)%load
  end.

(** [set(...)] of the items of [state["tickBitmap"]]. *)
Fixpoint stored_keys (l : list json) : loaded (list Z) :=
  match l with
  | [] => Loaded []
  | x :: l => (do z <- stored_key x ; do zs <- stored_keys l ; Loaded (z :: zs))%load
  end.

Definition deserialize (state : json) : loaded Pool :=
  (do x <- lift (json_get "feeRatePpm" state) ;
   do ppm <- lift (py_int x) ;
   do x <- lift (json_get "tickSpacing" state) ;
   do spacing <- stored_int x ;
   do pool <- lift (Pool_init ppm spacing) ;
   do x <- lift (json_get "reserveA" state) ;
   do v <- lift (py_int x) ;
   let pool := set_reserveA v pool in
   do x <- lift (json_get "reserveB" state) ;
   do v <- lift (py_int x) ;
   let pool := set_reserveB v pool in
   do x <- lift (json_get "sqrtPriceX64" state) ;
   do v <- lift (py_int x) ;
   let pool := set_sqrtPriceX64 v pool in
   do x <- lift (json_get "liquidity" state) ;
   do v <- lift (py_int x) ;
   let pool := set_liquidity v pool in
   do x <- lift (json_get "tickCurrent" state) ;
   do v <- stored_int x ;
   let pool := set_tickCurrent v pool in
   do x <- lift (json_get "feeRate" state) ;
   do rate <- stored_float x ;
   do x <- lift (json_get_default "protocolFeeShareNumerator" (JInt 1) state) ;
   do num <- lift (py_int x) ;
   do x <- lift (json_get_default "protocolFeeShareDenominator" (JInt 5) state) ;
   do den <- lift (py_int x) ;
   let pool :=
     {| reserveA := reserveA pool; reserveB := reserveB pool;
        sqrtPriceX64 := sqrtPriceX64 pool; liquidity := liquidity pool;
        tickCurrent := tickCurrent pool; feeRatePpm := feeRatePpm pool;
        tickSpacing := tickSpacing pool; feeRate := rate;
        protocolFeeShareNumerator := num; protocolFeeShareDenominator := den;
        ticks := ticks pool; tickBitmap := tickBitmap pool;
        feeGrowthGlobal0X64 := feeGrowthGlobal0X64 pool;
        feeGrowthGlobal1X64 := feeGrowthGlobal1X64 pool;
        totalSwapFee0 := totalSwapFee0 pool; totalSwapFee1 := totalSwapFee1 pool;
        validationStats := validationStats pool |} in
   do x <- lift (json_get "feeGrowthGlobal0X64" state) ;
   do v <- lift (py_int x) ;
   let pool := set_feeGrowthGlobal0X64 v pool in
   do x <- lift (json_get "feeGrowthGlobal1X64" state) ;
   do v <- lift (py_int x) ;
   let pool := set_feeGrowthGlobal1X64 v pool in
   do x <- lift (json_get_default "totalSwapFee0" (JInt 0) state) ;
   do v <- lift (py_int x) ;
   let pool := set_totalSwapFee0 v pool in
   do x <- lift (json_get_default "totalSwapFee1" (JInt 0) state) ;
   do v <- lift (py_int x) ;
   let pool := set_totalSwapFee1 v pool in
   do x <- lift (json_get "ticks" state) ;
   do l <- lift (py_iter x) ;
   do m <- deserialize_ticks l ∅ ;
   let pool := set_ticks m pool in
   do x <- lift (json_get "tickBitmap" state) ;
   do l <- lift (py_iter x) ;
   do zs <- stored_keys l ;
   Loaded (set_tickBitmap (list_to_set zs) pool))%load.

(** ** Concrete pools and a concrete libm *)

(** The pool [Pool(100, 60)] builds. *)
Definition pool_100_60 : Pool :=
  {| reserveA := 0; reserveB := 0; sqrtPriceX64 := 0; liquidity := 0;
     tickCurrent := 0; feeRatePpm := 100; tickSpacing := 60;
     feeRate := (100 / 1000000)%float;
     protocolFeeShareNumerator := 1; protocolFeeShareDenominator := 5;
     ticks := ∅; tickBitmap := ∅;
     feeGrowthGlobal0X64 := 0; feeGrowthGlobal1X64 := 0;
     totalSwapFee0 := 0; totalSwapFee1 := 0;
     validationStats := validationStats_init |}.

(** The pool of the test suite's [setUp]: price at tick 7, liquidity 10^6. *)
Definition pool_setUp : Pool :=
  set_tickCurrent 7
    (set_liquidity 1000000 (set_sqrtPriceX64 18453201241220755456 pool_100_60)).

(** [pool_setUp] after [applyLiquidityDelta(5, 10, 1000)]. *)
Definition pool_position : Pool := applyLiquidityDelta 5 10 1000 pool_setUp.



(** The pool [Pool(2000000, 60)] builds: a fee of 200 percent. *)
Definition pool_2000000_60 : Pool :=
  {| reserveA := 0; reserveB := 0; sqrtPriceX64 := 0; liquidity := 0;
     tickCurrent := 0; feeRatePpm := 2000000; tickSpacing := 60;
     feeRate := (2000000 / 1000000)%float;
     protocolFeeShareNumerator := 1; protocolFeeShareDenominator := 5;
     ticks := ∅; tickBitmap := ∅;
     feeGrowthGlobal0X64 := 0; feeGrowthGlobal1X64 := 0;
     totalSwapFee0 := 0; totalSwapFee1 := 0;
     validationStats := validationStats_init |}.

(** A pool at price 1/4 (sqrt price 2^63, tick -13864) holding one position
    of liquidity 1000 on the range [-20000, 0). *)
Definition pool_below_0 : Pool :=
  applyLiquidityDelta (-20000) 0 1000
    (set_tickCurrent (-13864) (set_sqrtPriceX64 (2 ^ 63) pool_100_60)).

(** [pool_below_0] after swaps that raised [feeGrowthGlobal1X64] to 5 without
    crossing a tick. *)
Definition pool_below_0_fees : Pool := set_feeGrowthGlobal1X64 5 pool_below_0.

(** [pool_setUp] after one validated swap has been counted. *)
Definition pool_counted : Pool :=
  set_validationStats (countSwap validationStats_init) pool_setUp.

(** An instance of [Libm], to instantiate statements that hold for every
    libm: its [pow] always reports a range error. *)
Definition libm_sample : Libm :=
  {| libm_pow := fun _ _ => None; libm_log := fun _ => 0%float |}.

(** ** The liquidity manager as the specification words it *)

(** [applyLiquidityDelta] with the gross delta of both [updateTickData] calls
    given by [gross liquidityDelta]. *)
Definition applyLiquidityDelta_with (gross : Z -> Z)
    (tickLower tickUpper liquidityDelta : Z) (p : Pool) : Pool :=
  if liquidityDelta =? 0 then p
  else
    let p := updateTickData tickLower liquidityDelta (gross liquidityDelta) p in
    let p := updateTickData tickUpper (- liquidityDelta) (gross liquidityDelta) p in
    if (tickLower <=? tickCurrent p) && (tickCurrent p <? tickUpper) then
      let p := set_liquidity (liquidity p + liquidityDelta) p in
      if liquidity p <? 0 then set_liquidity 0 p else p
    else p.


(** The net and gross liquidity recorded at a tick, 0 for an absent entry
    (the values [updateTickData] starts from). *)
Definition netAt (tick : Z) (p : Pool) : Z :=
  liquidityNet (default TickData_zero (ticks p !! tick)).

Definition grossAt (tick : Z) (p : Pool) : Z :=
  liquidityGross (default TickData_zero (ticks p !! tick)).

(** ** Invariants *)

(** A tick index is a key of [ticks] exactly when it is in [tickBitmap]. *)
Definition tickBookConsistent (p : Pool) : Prop :=
  forall t : Z, is_Some (ticks p !! t) <-> t ∈ tickBitmap p.

(** The fee accounting at the head of [applySwapInternal]: [totalFee] goes to
    [totalSwapFee0] or [totalSwapFee1], [lpFee] to the fee growth. *)
Definition chargeFees (zeroForOne : bool) (fees : Fees) (p : Pool) : Pool :=
  let p :=
    if 0 <? totalFee fees then
      if zeroForOne then set_totalSwapFee0 (totalSwapFee0 p + totalFee fees) p
      else set_totalSwapFee1 (totalSwapFee1 p + totalFee fees) p
    else p in
  if 0 <? lpFee fees then updateFeeGrowth (lpFee fees) zeroForOne p else p.

(** What the tick walk of [executeCLMMSwap] has no business with: every
    attribute but [liquidity], and of each tick its two liquidity fields. *)
Definition tickLiquidity (d : TickData) : Z * Z := (liquidityNet d, liquidityGross d).

Definition walkFrame (p : Pool) :=
  (reserveA p, reserveB p, sqrtPriceX64 p, tickCurrent p, feeRatePpm p,
   tickSpacing p, feeRate p, protocolFeeShareNumerator p,
   protocolFeeShareDenominator p, tickBitmap p, feeGrowthGlobal0X64 p,
   feeGrowthGlobal1X64 p, totalSwapFee0 p, totalSwapFee1 p, validationStats p,
   tickLiquidity <$> ticks p).

(** The two monotone accumulators and the tick book's keys, as observations
    of a pool. *)
Definition feeGrowth_le (p p' : Pool) : Prop :=
  feeGrowthGlobal0X64 p <= feeGrowthGlobal0X64 p' /\
  feeGrowthGlobal1X64 p <= feeGrowthGlobal1X64 p'.

Definition bookFrame (p : Pool) := (tickBitmap p, tickLiquidity <$> ticks p).

(** A result that Python can produce: a value or one of its exceptions. *)
Definition python_result {A} (r : result A) : Prop := r <> Raise LoopBound.

(** ** Position previews *)

Definition estimatePositionFees (tickLower tickUpper liquidityAmount : Z) (p : Pool)
    : TickFees :=
  let feeGrowthInside0 := calculateFeeGrowthInside tickLower tickUpper 0 p in
  let feeGrowthInside1 := calculateFeeGrowthInside tickLower tickUpper 1 p in
  {| fee0 := (liquidityAmount * feeGrowthInside0) / Z.shiftl 1 64;
     fee1 := (liquidityAmount * feeGrowthInside1) / Z.shiftl 1 64 |}.

(** The dict [estimateCollectFee] returns ([feeGrowthInside] is a dict with the
    keys [fee0] and [fee1] too). *)
Record CollectFeeEstimate : Set := {
  collectableFees : TickFees;
  totalFees : TickFees;
  feeGrowthInside : TickFees;
  estimatedValue : Z;
}.

Definition estimateCollectFee (tickLower tickUpper liquidityAmount : Z) (p : Pool)
    : CollectFeeEstimate :=
  let currentFees := estimatePositionFees tickLower tickUpper liquidityAmount p in
  let feeGrowthInside0 := calculateFeeGrowthInside tickLower tickUpper 0 p in
  let feeGrowthInside1 := calculateFeeGrowthInside tickLower tickUpper 1 p in
  let totalFees := {| fee0 := fee0 currentFees; fee1 := fee1 currentFees |} in
  let estimatedValue := fee0 currentFees + fee1 currentFees in
  {| collectableFees := currentFees;
     totalFees := totalFees;
     feeGrowthInside := {| fee0 := feeGrowthInside0; fee1 := feeGrowthInside1 |};
     estimatedValue := estimatedValue |}.

Definition calculateLiquidityAmount (tickLower tickUpper amountA amountB : Z) (p : Pool) : Z :=
  let currentTick := tickCurrent p in
  if currentTick <? tickLower then amountA
  else if tickUpper <=? currentTick then amountB
  else Z.min amountA amountB.

(** The dict [calculateActualLiquidityAmounts] returns. *)
Record ActualAmounts : Set := {
  actualAmountA : Z;
  actualAmountB : Z;
  unusedAmountA : Z;
  unusedAmountB : Z;
}.

(** [a // b] on two [int]s whose divisor is not known to be non-zero. *)
Definition int_floordiv (a b : Z) : result Z :=
  if b =? 0 then Raise ZeroDivisionError else Ok (a / b).

(** [int(price * 1_000_000)], the price in millionths. *)
Definition priceMillionths (p : Pool) : result Z :=
  do price <- price p ;
  do m <- float_of_int 1000000 ;
  float_trunc (price * m)%float.

Definition calculateActualLiquidityAmounts (tickLower tickUpper amountA amountB : Z)
    (p : Pool) : result ActualAmounts :=
  let currentTick := tickCurrent p in
  if currentTick <? tickLower then
    Ok {| actualAmountA := amountA; actualAmountB := 0;
          unusedAmountA := 0; unusedAmountB := amountB |}
  else if tickUpper <=? currentTick then
    Ok {| actualAmountA := 0; actualAmountB := amountB;
          unusedAmountA := amountA; unusedAmountB := 0 |}
  else
    do k <- priceMillionths p ;
    let optimalAmountB := (amountA * k) / 1000000 in
    if optimalAmountB <=? amountB then
      Ok {| actualAmountA := amountA; actualAmountB := optimalAmountB;
            unusedAmountA := 0; unusedAmountB := amountB - optimalAmountB |}
    else
      do k' <- priceMillionths p ;
      do optimalAmountA <- int_floordiv (amountB * 1000000) k' ;
      Ok {| actualAmountA := optimalAmountA; actualAmountB := amountB;
            unusedAmountA := amountA - optimalAmountA; unusedAmountB := 0 |}.

(** ** Tick listing *)

(** An entry of the list [getAllTicksWithFees] returns. *)
Record TickWithFees : Set := {
  twf_tick : Z;
  twf_liquidity : Z;
  twf_fee0 : Z;
  twf_fee1 : Z;
}.

(** The order of [sorted(..., key=lambda x: x["tick"])]. *)
Definition tick_le (x y : TickWithFees) : Prop := twf_tick x <= twf_tick y.

#[global] Instance tick_le_dec : RelDecision tick_le :=
  fun x y => decide (twf_tick x <= twf_tick y).

(** [sorted(result, key=lambda x: x["tick"])] of one entry per item of
    [self.ticks]. *)
Definition getAllTicksWithFees (p : Pool) : list TickWithFees :=
  merge_sort tick_le
    ((fun '(tick, tickData) =>
        let fees := getFeesAtTick tick p in
        {| twf_tick := tick; twf_liquidity := liquidityGross tickData;
           twf_fee0 := fee0 fees; twf_fee1 := fee1 fees |}) <$> map_to_list (ticks p)).

(** ** Amount-in estimator *)

(** The dict [estimateAmountIn] returns. *)
Record AmountInEstimate : Set := {
  ain_amountIn : Z;
  ain_feeAmount : Z;
  ain_totalCost : Z;
  ain_priceImpact : float;
}.

(** The [while low <= high] loop of [estimateAmountIn] on its three local
    variables and the pool; it returns [bestGrossAmountIn].  [fuel] bounds the
    number of iterations. *)
Fixpoint estimateAmountIn_loop (lm : Libm) (amountOut' : Z) (zeroForOne : bool)
    (fuel : nat) (p : Pool) (low high bestGrossAmountIn : Z) {struct fuel}
    : Pool * result Z :=
  if high <? low then (p, Ok bestGrossAmountIn)
  else
    match fuel with
    | O => (p, Raise LoopBound)
    | S fuel =>
        let gross := (low + high) / 2 in
        match calculateFees p gross with
        | Raise e => (p, Raise e)
        | Ok fees =>
            let net := if totalFee fees <? gross then gross - totalFee fees else 0 in
            let '(p, r) :=
              if 0 <? net then executeCLMMSwap lm net zeroForOne p
              else (p, Ok {| amountOut := 0; newSqrtPriceX64 := sqrtPriceX64 p;
                             newTick := tickCurrent p |}) in
            match r with
            | Raise e => (p, Raise e)
            | Ok testResult =>
                if amountOut testResult =? amountOut' then (p, Ok gross)
                else if amountOut testResult <? amountOut' then
                  estimateAmountIn_loop lm amountOut' zeroForOne fuel p
                    (gross + 1) high bestGrossAmountIn
                else
                  estimateAmountIn_loop lm amountOut' zeroForOne fuel p
                    low (gross - 1) gross
            end
        end
    end.

(** [estimateAmountIn]: the interval [low, high] shrinks at every iteration
    that does not leave the loop, so [high - low + 1] iterations are enough. *)
Definition estimateAmountIn (lm : Libm) (amountOut' : Z) (zeroForOne : bool) (p : Pool)
    : Pool * result AmountInEstimate :=
  let low := 0 in
  let high := amountOut' * 2 in
  match estimateAmountIn_loop lm amountOut' zeroForOne (Z.to_nat (high - low + 1))
          p low high 0 with
  | (p, Raise e) => (p, Raise e)
  | (p, Ok bestGrossAmountIn) =>
      (p, do fees <- calculateFees p bestGrossAmountIn ;
          let totalCost := bestGrossAmountIn in
          do priceImpact <- calculatePriceImpact p totalCost amountOut' zeroForOne ;
          Ok {| ain_amountIn := bestGrossAmountIn; ain_feeAmount := lpFee fees;
                ain_totalCost := totalCost; ain_priceImpact := priceImpact |})
  end.

(** ** More invariants and observations *)

(** A tick entry that [updateTickData] keeps: its gross liquidity is not
    negative and it is not drained. *)
Definition tickLive (d : TickData) : Prop :=
  0 <= liquidityGross d /\ ~ (liquidityGross d <= 0 /\ liquidityNet d = 0).

Definition ticksLive (p : Pool) : Prop :=
  forall t d, ticks p !! t = Some d -> tickLive d.

(** The attributes the liquidity manager never writes. *)
Definition configFrame (p : Pool) :=
  (reserveA p, reserveB p, sqrtPriceX64 p, tickCurrent p, feeRatePpm p,
   tickSpacing p, feeRate p, protocolFeeShareNumerator p,
   protocolFeeShareDenominator p, feeGrowthGlobal0X64 p, feeGrowthGlobal1X64 p,
   totalSwapFee0 p, totalSwapFee1 p, validationStats p).

(** What [updateTickData] makes of the entry [o] of its tick ([None] when
    absent). *)
Definition tickAfter (o : option TickData) (netDelta grossDelta : Z) : option TickData :=
  let tickData := default TickData_zero o in
  if (liquidityGross tickData + grossDelta <=? 0) && (liquidityNet tickData + netDelta =? 0)
  then None
  else Some {| liquidityNet := liquidityNet tickData + netDelta;
               liquidityGross := Z.max 0 (liquidityGross tickData + grossDelta);
               feeGrowthOutside0X64 := feeGrowthOutside0X64 tickData;
               feeGrowthOutside1X64 := feeGrowthOutside1X64 tickData |}.

(** A float that is not negative: zero of either sign, a positive finite
    number, plus infinity or NaN (what a square or a square root can be). *)
Definition sf_nonneg (x : spec_float) : Prop :=
  match x with
  | S754_finite true _ _ | S754_infinity true => False
  | _ => True
  end.


(** The floats the round trip of tick 1 goes through: [sqrt(1.0001)], and
    the correctly rounded logarithms of [sqrt(1.0001)] and of [1.0001]. *)
Definition sqrt_Base : float := 0x1.000346d6ff116p+0%float.
Definition log_sqrt_Base : float := 0x1.a368d0657c6aap-15%float.
Definition log_Base : float := 0x1.a368d0657fcd4p-14%float.

(** Within one unit in the last place of [x]. *)
Definition within_ulp (x y : float) : Prop :=
  y = next_down x \/ y = x \/ y = next_up x.

(** A libm that is exact where the result is a double ([pow(x, 1.0)] is [x])
    and whose [log] is within one unit in the last place of the correctly
    rounded value at the two arguments above. *)
Definition libm_accurate_at_tick_1 (lm : Libm) : Prop :=
  libm_pow lm Base 1 = Some Base /\
  within_ulp log_sqrt_Base (libm_log lm sqrt_Base) /\
  within_ulp log_Base (libm_log lm Base).

(** Such a libm, as a table of the three results. *)
Definition libm_tick_1 : Libm :=
  {| libm_pow := fun v w => if PrimFloat.eqb w 1 then Some v else None;
     libm_log := fun x => if PrimFloat.eqb x Base then log_Base else log_sqrt_Base |}.

(** * Theorems *)

(** ** Fixed-point helpers and the fee read-out *)

Lemma submod_diag (a : Z) : submod a a = 0.
Proof.
  unfold submod. rewrite Z.sub_diag. reflexivity.
Qed.

Lemma calculateFeeGrowthInside_diag (tick tokenIndex : Z) (p : Pool) :
  calculateFeeGrowthInside tick tick tokenIndex p = 0.
Proof.
  unfold calculateFeeGrowthInside.
  destruct (ticks p !! tick) as [d|]; [|reflexivity].
  destruct (tickCurrent p <? tick) eqn:Hlt; [apply submod_diag|].
  destruct (tick <=? tickCurrent p) eqn:Hle; [apply submod_diag|].
  apply Z.ltb_ge in Hlt. apply Z.leb_gt in Hle. lia.
Qed.

(** C10: for every pool and every tick index, [getFeesAtTick] returns
    [fee0 = 0] and [fee1 = 0]: the fee growth inside the empty range
    [tick, tick) is a saturating difference of a snapshot with itself. *)
Theorem getFeesAtTick_zero (tick : Z) (p : Pool) :
  getFeesAtTick tick p = {| fee0 := 0; fee1 := 0 |}.
Proof.
  unfold getFeesAtTick.
  destruct (ticks p !! tick) as [d|]; [|reflexivity].
  rewrite !calculateFeeGrowthInside_diag, Z.mul_0_r.
  reflexivity.
Qed.

(** ** Tick book *)

(** What [updateTickData] leaves at the tick it updates. *)
Lemma updateTickData_lookup_eq (tick netDelta grossDelta : Z) (p : Pool) :
  ticks (updateTickData tick netDelta grossDelta p) !! tick =
  if (grossAt tick p + grossDelta <=? 0) && (netAt tick p + netDelta =? 0) then None
  else Some {| liquidityNet := netAt tick p + netDelta;
               liquidityGross := Z.max 0 (grossAt tick p + grossDelta);
               feeGrowthOutside0X64 :=
                 feeGrowthOutside0X64 (default TickData_zero (ticks p !! tick));
               feeGrowthOutside1X64 :=
                 feeGrowthOutside1X64 (default TickData_zero (ticks p !! tick)) |}.
Proof.
  unfold updateTickData, grossAt, netAt.
  destruct (_ && _); simpl.
  - apply lookup_delete_eq.
  - rewrite lookup_insert_eq. do 2 f_equal.
    destruct (Z.ltb_spec (liquidityGross (default TickData_zero (ticks p !! tick)) + grossDelta) 0); lia.
Qed.

Lemma updateTickData_lookup_ne (tick netDelta grossDelta t : Z) (p : Pool) :
  tick <> t ->
  ticks (updateTickData tick netDelta grossDelta p) !! t = ticks p !! t.
Proof.
  intros Hne. unfold updateTickData.
  destruct (_ && _); simpl.
  - by rewrite lookup_delete_ne.
  - by rewrite lookup_insert_ne.
Qed.

Lemma updateTickData_bitmap_eq (tick netDelta grossDelta : Z) (p : Pool) :
  tick ∈ tickBitmap (updateTickData tick netDelta grossDelta p) <->
  (grossAt tick p + grossDelta <=? 0) && (netAt tick p + netDelta =? 0) = false.
Proof.
  unfold updateTickData, grossAt, netAt.
  destruct (_ && _); simpl;
    rewrite ?elem_of_difference, ?elem_of_union, ?elem_of_singleton;
    intuition congruence.
Qed.

Lemma updateTickData_bitmap_ne (tick netDelta grossDelta t : Z) (p : Pool) :
  tick <> t ->
  t ∈ tickBitmap (updateTickData tick netDelta grossDelta p) <-> t ∈ tickBitmap p.
Proof.
  intros Hne. unfold updateTickData.
  destruct (_ && _); simpl;
    rewrite ?elem_of_difference, ?elem_of_union, ?elem_of_singleton;
    intuition congruence.
Qed.

Lemma updateTickData_consistent (tick netDelta grossDelta : Z) (p : Pool) :
  tickBookConsistent p ->
  tickBookConsistent (updateTickData tick netDelta grossDelta p).
Proof.
  intros Hp t. destruct (decide (tick = t)) as [<-|Hne].
  - rewrite updateTickData_lookup_eq, updateTickData_bitmap_eq.
    destruct (_ && _); split; intros H;
      first [done | by destruct H | by eexists].
  - rewrite updateTickData_lookup_ne, updateTickData_bitmap_ne by done. apply Hp.
Qed.

Lemma updateTickData_frame (tick netDelta grossDelta : Z) (p : Pool) :
  liquidity (updateTickData tick netDelta grossDelta p) = liquidity p /\
  tickCurrent (updateTickData tick netDelta grossDelta p) = tickCurrent p.
Proof.
  unfold updateTickData. by destruct (_ && _).
Qed.

Lemma applyLiquidityDelta_consistent (tickLower tickUpper liquidityDelta : Z) (p : Pool) :
  tickBookConsistent p ->
  tickBookConsistent (applyLiquidityDelta tickLower tickUpper liquidityDelta p).
Proof.
  intros Hp. unfold applyLiquidityDelta.
  destruct (liquidityDelta =? 0); [done|]. cbv zeta.
  set (g := if 0 <=? liquidityDelta then _ else _). clearbody g.
  pose proof (updateTickData_consistent tickUpper (- liquidityDelta) g _
                (updateTickData_consistent tickLower liquidityDelta g p Hp)) as H2.
  destruct (_ && _); [|done].
  destruct (_ <? 0); exact H2.
Qed.

(** C8: the tick book stays consistent.  From a pool in which a tick index is
    a key of [ticks] exactly when it is in [tickBitmap], [updateTickData] and
    [applyLiquidityDelta] lead to such a pool again; and [updateTickData]
    leaves its tick out of both [ticks] and [tickBitmap] exactly when, after
    the deltas, [liquidityGross <= 0] and [liquidityNet = 0] (otherwise the
    tick is in both). *)
Theorem tickBook_consistency_preserved (p : Pool) :
  tickBookConsistent p ->
  (forall tick netDelta grossDelta : Z,
      let p' := updateTickData tick netDelta grossDelta p in
      tickBookConsistent p' /\
      ((ticks p' !! tick = None /\ tick ∉ tickBitmap p') <->
       (grossAt tick p + grossDelta <= 0 /\ netAt tick p + netDelta = 0)) /\
      ((is_Some (ticks p' !! tick) /\ tick ∈ tickBitmap p') <->
       ~ (grossAt tick p + grossDelta <= 0 /\ netAt tick p + netDelta = 0))) /\
  (forall tickLower tickUpper liquidityDelta : Z,
      tickBookConsistent (applyLiquidityDelta tickLower tickUpper liquidityDelta p)).
Proof.
  intros Hp. split.
  - intros tick netDelta grossDelta p'. subst p'.
    split; [by apply updateTickData_consistent|].
    rewrite updateTickData_lookup_eq, updateTickData_bitmap_eq.
    destruct (Z.leb_spec (grossAt tick p + grossDelta) 0);
      destruct (Z.eqb_spec (netAt tick p + netDelta) 0); simpl;
      (split; (split; [intros [H1 H2]|intros H1]));
      first [ lia | done | by destruct H1 | by destruct H2
            | (exfalso; apply H1; lia) | (exfalso; apply H2; lia)
            | (split; [by eexists|done]) | (split; [done|by intros []]) | idtac ].
  - intros. by apply applyLiquidityDelta_consistent.
Qed.

(** The test pool has no tick and an empty bitmap. *)
Lemma tickBookConsistent_setUp : tickBookConsistent pool_setUp.
Proof.
  intros t. simpl. rewrite lookup_empty. split.
  - intros [x Hx]. discriminate Hx.
  - intros Hin. by apply not_elem_of_empty in Hin.
Defined.

(** C8 at the test pool and [applyLiquidityDelta(5, 10, 1000)]. *)
Lemma tickBook_consistency_witness :
  tickBookConsistent pool_setUp /\ tickBookConsistent pool_position.
Proof.
  split.
  - exact tickBookConsistent_setUp.
  - exact (proj2 (tickBook_consistency_preserved pool_setUp tickBookConsistent_setUp)
             5 10 1000).
Defined.

(** ** Liquidity manager *)

Lemma applyLiquidityDelta_eq_with (tickLower tickUpper liquidityDelta : Z) (p : Pool) :
  applyLiquidityDelta tickLower tickUpper liquidityDelta p =
  applyLiquidityDelta_with (fun delta => delta) tickLower tickUpper liquidityDelta p.
Proof.
  unfold applyLiquidityDelta, applyLiquidityDelta_with.
  destruct (liquidityDelta =? 0); [reflexivity|]. cbv zeta.
  destruct (0 <=? liquidityDelta); [reflexivity|].
  rewrite Z.opp_involutive. reflexivity.
Qed.




(** ** Fee split *)

Lemma calculateFees_unfold (p : Pool) (amountIn ppm : Z) :
  0 < amountIn -> effectivePpm p = Ok ppm ->
  calculateFees p amountIn =
  if ppm <=? 0 then Ok Fees_zero
  else
    let rawFee := (amountIn * ppm + 1000000 - 1) / 1000000 in
    if rawFee <=? 0 then Ok Fees_zero
    else
      let lpFee := Z.max 1 ((rawFee * 4 + 5 - 1) / 5) in
      let protocolFee := Z.max 0 (rawFee - lpFee) in
      Ok {| totalFee := lpFee + protocolFee; lpFee := lpFee; protocolFee := protocolFee |}.
Proof.
  intros Ha Hppm. unfold calculateFees. rewrite Hppm.
  destruct (Z.leb_spec amountIn 0); [lia|]. simpl.
  destruct (ppm <=? 0); [reflexivity|].
  destruct (_ <=? 0); [reflexivity|].
  set (l := (_ * 4 + 5 - 1) / 5).
  replace (if l <? 1 then 1 else l) with (Z.max 1 l)
    by (destruct (Z.ltb_spec l 1); lia).
  set (l' := Z.max 1 l).
  replace (if _ - l' <? 0 then 0 else _ - l') with
    (Z.max 0 ((amountIn * ppm + 1000000 - 1) / 1000000 - l'))
    by (destruct (Z.ltb_spec ((amountIn * ppm + 1000000 - 1) / 1000000 - l') 0); lia).
  reflexivity.
Qed.

Lemma calculateFees_sum (p : Pool) (amountIn : Z) (f : Fees) :
  calculateFees p amountIn = Ok f -> lpFee f + protocolFee f = totalFee f.
Proof.
  unfold calculateFees.
  destruct (amountIn <=? 0); [by intros [= <-]|].
  destruct (effectivePpm p) as [ppm|e]; simpl; [|done].
  destruct (ppm <=? 0); [by intros [= <-]|].
  destruct (_ <=? 0); [by intros [= <-]|].
  by intros [= <-].
Qed.

(** C4, as the code has it: whenever [calculateFees] returns,
    [lpFee + protocolFee = totalFee]; and for [amountIn >= 0] and a fee rate
    of at most 1_000_000 ppm it returns, with [totalFee <= amountIn]. *)
Theorem calculateFees_conservation (p : Pool) (amountIn : Z) :
  (forall f, calculateFees p amountIn = Ok f -> lpFee f + protocolFee f = totalFee f) /\
  (forall ppm, 0 <= amountIn -> effectivePpm p = Ok ppm -> ppm <= 1000000 ->
     exists f, calculateFees p amountIn = Ok f /\
               lpFee f + protocolFee f = totalFee f /\
               totalFee f <= amountIn).
Proof.
  split; [apply calculateFees_sum|].
  intros ppm Ha Hppm Hle.
  destruct (Z.eq_dec amountIn 0) as [->|Hnz].
  { exists Fees_zero. by vm_compute. }
  rewrite (calculateFees_unfold p amountIn ppm) by (done || lia).
  destruct (Z.leb_spec ppm 0).
  { exists Fees_zero. simpl. repeat split; lia. }
  cbv zeta. set (raw := (amountIn * ppm + 1000000 - 1) / 1000000).
  assert (Hraw : raw <= amountIn).
  { subst raw. apply Z.lt_succ_r. apply Z.div_lt_upper_bound; nia. }
  destruct (Z.leb_spec raw 0).
  { exists Fees_zero. simpl. repeat split; lia. }
  eexists. split; [reflexivity|]. simpl. split; [reflexivity|].
  assert (Hlp : (raw * 4 + 5 - 1) / 5 <= raw).
  { apply Z.lt_succ_r. apply Z.div_lt_upper_bound; lia. }
  lia.
Qed.

(** C4 at the test pool and [calculateFees(10000)]. *)
Lemma calculateFees_conservation_witness :
  0 <= 10000 /\ effectivePpm pool_setUp = Ok 100 /\ 100 <= 1000000 /\
  exists f, calculateFees pool_setUp 10000 = Ok f /\
            lpFee f + protocolFee f = totalFee f /\ totalFee f <= 10000.
Proof.
  assert (H1 : 0 <= 10000) by lia.
  assert (H2 : effectivePpm pool_setUp = Ok 100) by reflexivity.
  assert (H3 : 100 <= 1000000) by lia.
  split; [exact H1|]. split; [exact H2|]. split; [exact H3|].
  exact (proj2 (calculateFees_conservation pool_setUp 10000) 100 H1 H2 H3).
Defined.

(** C4 as stated fails: with a fee rate above 1_000_000 ppm the total fee
    exceeds the input. *)
Lemma calculateFees_total_exceeds_cex :
  0 <= 1 /\
  calculateFees pool_2000000_60 1 = Ok {| totalFee := 2; lpFee := 2; protocolFee := 0 |} /\
  ~ (2 <= 1).
Proof.
  split; [lia|]. split; [reflexivity|lia].
Qed.




(** ** Swap engine: the loop and the active liquidity *)

Lemma executeCLMMSwap_loop_0 (lm : Libm) (zeroForOne : bool) (fuel : nat) (p : Pool)
    (cur tick out remaining : Z) :
  remaining <= 0 ->
  executeCLMMSwap_loop lm zeroForOne fuel p cur tick out remaining =
  (p, Ok {| amountOut := out; newSqrtPriceX64 := cur; newTick := tick |}).
Proof.
  intros H. destruct fuel; cbn [executeCLMMSwap_loop];
    destruct (Z.leb_spec remaining 0); (reflexivity || lia).
Qed.

Lemma executeCLMMSwap_loop_S (lm : Libm) (zeroForOne : bool) (fuel : nat) (p : Pool)
    (cur tick out remaining : Z) :
  0 < remaining ->
  executeCLMMSwap_loop lm zeroForOne (S fuel) p cur tick out remaining =
  match getNextTick p tick zeroForOne with
  | None =>
      (p, do t <- sqrtPriceToTick lm
                    (step_newSqrtPriceX64 (swapAtPrice p remaining cur zeroForOne)) ;
          Ok {| amountOut := out + step_amountOut (swapAtPrice p remaining cur zeroForOne);
                newSqrtPriceX64 :=
                  step_newSqrtPriceX64 (swapAtPrice p remaining cur zeroForOne);
                newTick := t |})
  | Some nextTick =>
      match calculateMaxSwapAtPrice lm p cur nextTick zeroForOne with
      | Raise e => (p, Raise e)
      | Ok maxAmount =>
          if maxAmount <=? 0 then
            (p, Ok {| amountOut := out; newSqrtPriceX64 := cur; newTick := tick |})
          else if remaining <=? maxAmount then
            (p, do t <- sqrtPriceToTick lm
                          (step_newSqrtPriceX64 (swapAtPrice p remaining cur zeroForOne)) ;
                Ok {| amountOut :=
                        out + step_amountOut (swapAtPrice p remaining cur zeroForOne);
                      newSqrtPriceX64 :=
                        step_newSqrtPriceX64 (swapAtPrice p remaining cur zeroForOne);
                      newTick := t |})
          else
            match tickToSqrtPrice lm nextTick with
            | Raise e => (p, Raise e)
            | Ok cur' =>
                executeCLMMSwap_loop lm zeroForOne fuel
                  (crossTick nextTick zeroForOne
                     (updateFeeGrowthOutside nextTick zeroForOne p))
                  cur' nextTick
                  (out + step_amountOut (swapAtPrice p maxAmount cur zeroForOne))
                  (remaining - maxAmount)
            end
      end
  end.
Proof.
  intros H. cbn [executeCLMMSwap_loop].
  destruct (Z.leb_spec remaining 0); [lia|reflexivity].
Qed.

Lemma updateFeeGrowthOutside_liquidity (tick : Z) (zeroForOne : bool) (p : Pool) :
  liquidity (updateFeeGrowthOutside tick zeroForOne p) = liquidity p.
Proof.
  unfold updateFeeGrowthOutside.
  destruct (ticks p !! tick); [destruct zeroForOne|]; reflexivity.
Qed.

Lemma crossTick_liquidity (nextTick : Z) (zeroForOne : bool) (p : Pool) :
  liquidity (crossTick nextTick zeroForOne p) =
  match ticks p !! nextTick with
  | Some tickData =>
      Z.max 0 (if zeroForOne then liquidity p - liquidityNet tickData
               else liquidity p + liquidityNet tickData)
  | None => liquidity p
  end.
Proof.
  unfold crossTick. destruct (ticks p !! nextTick) as [d|]; [|reflexivity].
  destruct zeroForOne; cbn.
  - destruct (Z.ltb_spec (liquidity p - liquidityNet d) 0); cbn; lia.
  - destruct (Z.ltb_spec (liquidity p + liquidityNet d) 0); cbn; lia.
Qed.

Lemma crossTick_liquidity_nonneg (nextTick : Z) (zeroForOne : bool) (p : Pool) :
  0 <= liquidity p -> 0 <= liquidity (crossTick nextTick zeroForOne p).
Proof.
  intros H. rewrite crossTick_liquidity.
  destruct (ticks p !! nextTick); [destruct zeroForOne|]; lia.
Qed.

Lemma executeCLMMSwap_loop_liquidity_nonneg (lm : Libm) (zeroForOne : bool) (fuel : nat) :
  forall (p : Pool) (cur tick out remaining : Z),
    0 <= liquidity p ->
    0 <= liquidity (executeCLMMSwap_loop lm zeroForOne fuel p cur tick out remaining).1.
Proof.
  induction fuel as [|fuel IH]; intros p cur tick out remaining Hp.
  - cbn [executeCLMMSwap_loop]. by destruct (remaining <=? 0).
  - destruct (Z.leb_spec remaining 0) as [Hr|Hr].
    { by rewrite executeCLMMSwap_loop_0. }
    rewrite executeCLMMSwap_loop_S by done.
    destruct (getNextTick p tick zeroForOne) as [nextTick|]; [|done].
    destruct (calculateMaxSwapAtPrice lm p cur nextTick zeroForOne) as [m|e]; [|done].
    destruct (m <=? 0); [done|].
    destruct (remaining <=? m); [done|].
    destruct (tickToSqrtPrice lm nextTick) as [cur'|e]; [|done].
    apply IH. apply crossTick_liquidity_nonneg.
    by rewrite updateFeeGrowthOutside_liquidity.
Qed.

Lemma updateFeeGrowth_liquidity (feeAmount : Z) (zeroForOne : bool) (p : Pool) :
  liquidity (updateFeeGrowth feeAmount zeroForOne p) = liquidity p.
Proof.
  unfold updateFeeGrowth. destruct (0 <? liquidity p); [destruct zeroForOne|]; reflexivity.
Qed.

Lemma applySwapInternal_liquidity_nonneg (lm : Libm) (amountIn : Z) (zeroForOne : bool)
    (fees : Fees) (p : Pool) :
  0 <= liquidity p ->
  0 <= liquidity (applySwapInternal lm amountIn zeroForOne fees p).1.
Proof.
  intros Hp. unfold applySwapInternal.
  destruct (amountIn <=? 0); [done|]. cbv zeta.
  set (p1 := if 0 <? totalFee fees then _ else p).
  assert (H1 : 0 <= liquidity p1).
  { subst p1. destruct (0 <? totalFee fees); [destruct zeroForOne|]; done. }
  clearbody p1.
  set (p2 := if 0 <? lpFee fees then _ else p1).
  assert (H2 : 0 <= liquidity p2).
  { subst p2. destruct (0 <? lpFee fees); [by rewrite updateFeeGrowth_liquidity|done]. }
  clearbody p2.
  destruct (_ =? 0); [done|].
  pose proof (executeCLMMSwap_loop_liquidity_nonneg lm zeroForOne
    (Z.to_nat (if totalFee fees <? amountIn then amountIn - totalFee fees else 0))
    p2 (sqrtPriceX64 p2) (tickCurrent p2) 0
    (if totalFee fees <? amountIn then amountIn - totalFee fees else 0) H2) as H3.
  unfold executeCLMMSwap.
  destruct (executeCLMMSwap_loop _ _ _ _ _ _ _ _) as [p3 [r|e]]; exact H3.
Qed.

Lemma applySwap_liquidity_nonneg (lm : Libm) (amountIn : Z) (zeroForOne : bool) (p : Pool) :
  0 <= liquidity p -> 0 <= liquidity (applySwap lm amountIn zeroForOne p).1.
Proof.
  intros Hp. unfold applySwap.
  destruct (calculateFees p amountIn); [|done].
  by apply applySwapInternal_liquidity_nonneg.
Qed.

Lemma applySwapWithValidation_liquidity_nonneg (lm : Libm) (amountIn : Z)
    (zeroForOne : bool) (e1 e2 e3 : option Z) (p : Pool) :
  0 <= liquidity p ->
  0 <= liquidity (applySwapWithValidation lm amountIn zeroForOne e1 e2 e3 p).1.
Proof.
  intros Hp. unfold applySwapWithValidation. cbv zeta.
  set (p0 := set_validationStats _ p).
  assert (H0 : 0 <= liquidity p0) by done. clearbody p0.
  destruct (calculateFees p0 amountIn) as [f|e]; [|done].
  match goal with
  | |- context [applySwapInternal lm amountIn zeroForOne ?fs p0] =>
      pose proof (applySwapInternal_liquidity_nonneg lm amountIn zeroForOne fs p0 H0) as H1;
      destruct (applySwapInternal lm amountIn zeroForOne fs p0) as [p1 [out|e]]
  end; exact H1.
Qed.

Lemma applyLiquidityDelta_liquidity (tickLower tickUpper liquidityDelta : Z) (p : Pool) :
  liquidity (applyLiquidityDelta tickLower tickUpper liquidityDelta p) =
  if (liquidityDelta =? 0)
     || negb ((tickLower <=? tickCurrent p) && (tickCurrent p <? tickUpper))
  then liquidity p
  else Z.max 0 (liquidity p + liquidityDelta).
Proof.
  unfold applyLiquidityDelta.
  destruct (liquidityDelta =? 0); [reflexivity|]. cbv zeta.
  set (g := if 0 <=? liquidityDelta then _ else _). clearbody g.
  destruct (updateTickData_frame tickUpper (- liquidityDelta) g
              (updateTickData tickLower liquidityDelta g p)) as [Hl Ht].
  destruct (updateTickData_frame tickLower liquidityDelta g p) as [Hl' Ht'].
  rewrite Ht, Ht'. simpl.
  destruct (_ && _); simpl; [|congruence].
  rewrite Hl, Hl'.
  destruct (Z.ltb_spec (liquidity p + liquidityDelta) 0); simpl; lia.
Qed.

Lemma applyRepayFlashSwap_liquidity (xd yd px py : Z) (rx ry : option Z) (p : Pool) :
  liquidity (applyRepayFlashSwap xd yd px py rx ry p) = liquidity p.
Proof.
  unfold applyRepayFlashSwap. cbv zeta.
  destruct (0 <? (if xd <? px then _ else _)), (0 <? (if yd <? py then _ else _)),
    rx, ry; simpl; rewrite ?updateFeeGrowth_liquidity; simpl;
    rewrite ?updateFeeGrowth_liquidity; reflexivity.
Qed.

(** C7: [liquidity >= 0] is kept by every public operation that writes the
    pool.  From a pool with [liquidity >= 0], [applyLiquidityDelta],
    [applySwap], [applySwapWithValidation] and [applyRepayFlashSwap] leave a
    pool with [liquidity >= 0] (also when a swap stops on an exception); the
    two places that add a delta to [liquidity] clamp the sum at 0. *)
Theorem liquidity_nonneg_preserved (lm : Libm) (p : Pool) :
  0 <= liquidity p ->
  (forall tickLower tickUpper liquidityDelta,
      0 <= liquidity (applyLiquidityDelta tickLower tickUpper liquidityDelta p)) /\
  (forall amountIn zeroForOne,
      0 <= liquidity (applySwap lm amountIn zeroForOne p).1) /\
  (forall amountIn zeroForOne expectedAmountOut expectedFee expectedProtocolFee,
      0 <= liquidity (applySwapWithValidation lm amountIn zeroForOne
                        expectedAmountOut expectedFee expectedProtocolFee p).1) /\
  (forall amountXDebt amountYDebt paidX paidY reserveX reserveY,
      0 <= liquidity (applyRepayFlashSwap amountXDebt amountYDebt paidX paidY
                        reserveX reserveY p)) /\
  (forall tickLower tickUpper liquidityDelta,
      liquidityDelta <> 0 -> tickLower <= tickCurrent p < tickUpper ->
      liquidity (applyLiquidityDelta tickLower tickUpper liquidityDelta p) =
      Z.max 0 (liquidity p + liquidityDelta)) /\
  (forall nextTick zeroForOne tickData,
      ticks p !! nextTick = Some tickData ->
      liquidity (crossTick nextTick zeroForOne p) =
      Z.max 0 (if zeroForOne then liquidity p - liquidityNet tickData
               else liquidity p + liquidityNet tickData)).
Proof.
  intros Hp. repeat apply conj.
  - intros. rewrite applyLiquidityDelta_liquidity. destruct (_ || _); lia.
  - intros. by apply applySwap_liquidity_nonneg.
  - intros. by apply applySwapWithValidation_liquidity_nonneg.
  - intros. by rewrite applyRepayFlashSwap_liquidity.
  - intros tl tu d Hd [H1 H2]. rewrite applyLiquidityDelta_liquidity.
    destruct (Z.eqb_spec d 0); [done|].
    destruct (Z.leb_spec tl (tickCurrent p)); [|lia].
    destruct (Z.ltb_spec (tickCurrent p) tu); [|lia]. reflexivity.
  - intros n z td Htd. rewrite crossTick_liquidity, Htd. reflexivity.
Qed.

(** C7 at the test pool and [applySwap(10000, True)]. *)
Lemma liquidity_nonneg_witness :
  0 <= liquidity pool_setUp /\
  0 <= liquidity (applySwap libm_sample 10000 true pool_setUp).1.
Proof.
  assert (H : 0 <= liquidity pool_setUp) by (simpl; lia).
  split.
  - exact H.
  - exact (proj1 (proj2 (liquidity_nonneg_preserved libm_sample pool_setUp H)) 10000 true).
Defined.

(** ** Swap engine: the loop bound is never reached *)

Lemma rbind_python {A B} (r : result A) (k : A -> result B) :
  python_result r -> (forall a, python_result (k a)) -> python_result (rbind r k).
Proof.
  intros Hr Hk. destruct r as [a|e]; simpl; [apply Hk|].
  intros [= ->]. by apply Hr.
Qed.

Lemma python_result_Raise {A B} (e : pyexn) :
  python_result (@Raise A e) -> python_result (@Raise B e).
Proof.
  intros H [= ->]. by apply H.
Qed.

Lemma float_of_int_python (z : Z) : python_result (float_of_int z).
Proof.
  unfold python_result, float_of_int. by destruct (binary_normalize _ _ _ _ _).
Qed.

Lemma int_true_div_python (a b : Z) : python_result (int_true_div a b).
Proof.
  unfold python_result, int_true_div.
  destruct (b =? 0); [done|]. by destruct (SFdiv _ _ _ _).
Qed.

Lemma float_div_python (x y : float) : python_result (float_div x y).
Proof.
  unfold python_result, float_div. by destruct (PrimFloat.eqb y 0).
Qed.

Lemma math_floor_python (x : float) : python_result (math_floor x).
Proof.
  unfold python_result, math_floor. by destruct (Prim2SF x).
Qed.

Lemma math_sqrt_python (x : float) : python_result (math_sqrt x).
Proof.
  unfold python_result, math_sqrt. by destruct (PrimFloat.ltb x 0).
Qed.

Lemma math_log_python (lm : Libm) (x : float) : python_result (math_log lm x).
Proof.
  unfold python_result, math_log.
  destruct (float_is_finite x).
  - destruct (PrimFloat.ltb 0 x); [|done]. by destruct (float_is_finite _).
  - destruct (is_nan x); [done|]. by destruct (PrimFloat.ltb 0 x).
Qed.

Create HintDb pyres.
#[local] Hint Resolve float_of_int_python int_true_div_python float_div_python
  math_floor_python math_sqrt_python math_log_python : pyres.

Lemma tickToSqrtPrice_python (lm : Libm) (tick : Z) :
  python_result (tickToSqrtPrice lm tick).
Proof.
  unfold tickToSqrtPrice, float_pow_int.
  repeat (apply rbind_python; [|intros ?]); auto with pyres.
  destruct (tick =? 0); [done|]. by destruct (libm_pow lm Base _).
Qed.

Lemma sqrtPriceToTick_python (lm : Libm) (sqrt_price : Z) :
  python_result (sqrtPriceToTick lm sqrt_price).
Proof.
  unfold sqrtPriceToTick. destruct (sqrt_price <=? 0); [done|].
  repeat (apply rbind_python; [|intros ?]); auto with pyres.
Qed.

Lemma calculateMaxSwapAtPrice_python (lm : Libm) (p : Pool) (cur nextTick : Z)
    (zeroForOne : bool) :
  python_result (calculateMaxSwapAtPrice lm p cur nextTick zeroForOne).
Proof.
  unfold calculateMaxSwapAtPrice.
  apply rbind_python; [apply tickToSqrtPrice_python|].
  intros a. by destruct zeroForOne.
Qed.

(** [remainingAmount] iterations are enough for the loop: the model's bound is
    never what stops a swap. *)
Lemma executeCLMMSwap_loop_bound (lm : Libm) (zeroForOne : bool) (fuel : nat) :
  forall (p : Pool) (cur tick out remaining : Z),
    (Z.to_nat remaining <= fuel)%nat ->
    python_result (executeCLMMSwap_loop lm zeroForOne fuel p cur tick out remaining).2.
Proof.
  induction fuel as [|fuel IH]; intros p cur tick out remaining Hfuel.
  - rewrite executeCLMMSwap_loop_0 by lia. done.
  - destruct (Z.leb_spec remaining 0) as [Hr|Hr].
    { rewrite executeCLMMSwap_loop_0 by lia. done. }
    rewrite executeCLMMSwap_loop_S by done.
    destruct (getNextTick p tick zeroForOne) as [nextTick|]; simpl.
    + pose proof (calculateMaxSwapAtPrice_python lm p cur nextTick zeroForOne) as Hm.
      destruct (calculateMaxSwapAtPrice lm p cur nextTick zeroForOne) as [m|e];
        [|exact (python_result_Raise e Hm)].
      destruct (Z.leb_spec m 0); [done|].
      destruct (Z.leb_spec remaining m); simpl.
      { apply rbind_python; [apply sqrtPriceToTick_python|done]. }
      pose proof (tickToSqrtPrice_python lm nextTick) as Ht.
      destruct (tickToSqrtPrice lm nextTick) as [cur'|e];
        [|exact (python_result_Raise e Ht)].
      apply IH. lia.
    + apply rbind_python; [apply sqrtPriceToTick_python|done].
Qed.

Lemma executeCLMMSwap_python (lm : Libm) (amountIn : Z) (zeroForOne : bool) (p : Pool) :
  python_result (executeCLMMSwap lm amountIn zeroForOne p).2.
Proof.
  unfold executeCLMMSwap. by apply executeCLMMSwap_loop_bound.
Qed.

(** ** Swap engine: degenerate swaps *)

Lemma swapAtPrice_no_liquidity (p : Pool) (amountIn cur : Z) (zeroForOne : bool) :
  liquidity p = 0 ->
  swapAtPrice p amountIn cur zeroForOne =
  {| step_amountOut := 0; step_newSqrtPriceX64 := cur |}.
Proof.
  intros H. unfold swapAtPrice. rewrite H. by destruct zeroForOne.
Qed.

Lemma calculateMaxSwapAtPrice_no_liquidity (lm : Libm) (p : Pool) (cur nextTick : Z)
    (zeroForOne : bool) :
  liquidity p = 0 ->
  calculateMaxSwapAtPrice lm p cur nextTick zeroForOne =
  (do _ <- tickToSqrtPrice lm nextTick ; Ok 0).
Proof.
  intros H. unfold calculateMaxSwapAtPrice. rewrite H.
  destruct (tickToSqrtPrice lm nextTick) as [nx|e]; [|reflexivity].
  cbn [rbind]. destruct zeroForOne; cbv zeta.
  - rewrite !Z.mul_0_l, Zdiv_0_l. by destruct (negb _).
  - by rewrite Z.mul_0_l.
Qed.

Lemma executeCLMMSwap_no_liquidity (lm : Libm) (amountIn : Z) (zeroForOne : bool)
    (p : Pool) :
  0 < amountIn -> liquidity p = 0 ->
  executeCLMMSwap lm amountIn zeroForOne p =
  match getNextTick p (tickCurrent p) zeroForOne with
  | None =>
      (p, do t <- sqrtPriceToTick lm (sqrtPriceX64 p) ;
          Ok {| amountOut := 0; newSqrtPriceX64 := sqrtPriceX64 p; newTick := t |})
  | Some nextTick =>
      (p, do _ <- tickToSqrtPrice lm nextTick ;
          Ok {| amountOut := 0; newSqrtPriceX64 := sqrtPriceX64 p;
                newTick := tickCurrent p |})
  end.
Proof.
  intros Ha Hl. unfold executeCLMMSwap.
  destruct (Z.to_nat amountIn) as [|fuel] eqn:Hfuel; [lia|].
  rewrite executeCLMMSwap_loop_S by done.
  rewrite swapAtPrice_no_liquidity by done. cbn [step_amountOut step_newSqrtPriceX64].
  destruct (getNextTick p (tickCurrent p) zeroForOne) as [nextTick|]; [|reflexivity].
  rewrite calculateMaxSwapAtPrice_no_liquidity by done.
  by destruct (tickToSqrtPrice lm nextTick).
Qed.

Lemma set_sqrtPriceX64_id (p : Pool) : set_sqrtPriceX64 (sqrtPriceX64 p) p = p.
Proof. by destruct p. Qed.

Lemma set_tickCurrent_id (p : Pool) : set_tickCurrent (tickCurrent p) p = p.
Proof. by destruct p. Qed.

Lemma applySwapInternal_no_liquidity (lm : Libm) (amountIn : Z) (zeroForOne : bool)
    (fees : Fees) (p : Pool) :
  0 < amountIn -> liquidity p = 0 ->
  applySwapInternal lm amountIn zeroForOne fees p =
  let p1 :=
    if 0 <? totalFee fees then
      if zeroForOne then set_totalSwapFee0 (totalSwapFee0 p + totalFee fees) p
      else set_totalSwapFee1 (totalSwapFee1 p + totalFee fees) p
    else p in
  if totalFee fees <? amountIn then
    match getNextTick p (tickCurrent p) zeroForOne with
    | None =>
        match sqrtPriceToTick lm (sqrtPriceX64 p) with
        | Ok t => (set_tickCurrent t p1, Ok 0)
        | Raise e => (p1, Raise e)
        end
    | Some nextTick =>
        match tickToSqrtPrice lm nextTick with
        | Ok _ => (p1, Ok 0)
        | Raise e => (p1, Raise e)
        end
    end
  else (p1, Ok 0).
Proof.
  intros Ha Hl. unfold applySwapInternal.
  destruct (Z.leb_spec amountIn 0); [lia|]. cbv zeta.
  set (p1 := if 0 <? totalFee fees then _ else p).
  assert (H1 : liquidity p1 = 0 /\ tickBitmap p1 = tickBitmap p /\
               tickCurrent p1 = tickCurrent p /\ sqrtPriceX64 p1 = sqrtPriceX64 p).
  { subst p1. destruct (0 <? totalFee fees); [destruct zeroForOne|]; done. }
  clearbody p1. destruct H1 as (Hl1 & Hb1 & Ht1 & Hs1).
  replace (if 0 <? lpFee fees then updateFeeGrowth (lpFee fees) zeroForOne p1 else p1)
    with p1.
  2:{ destruct (0 <? lpFee fees); [|done]. unfold updateFeeGrowth. by rewrite Hl1. }
  destruct (Z.ltb_spec (totalFee fees) amountIn) as [Hlt|Hge]; [|reflexivity].
  destruct (Z.eqb_spec (amountIn - totalFee fees) 0); [lia|].
  rewrite executeCLMMSwap_no_liquidity by (done || lia).
  replace (getNextTick p1 (tickCurrent p1) zeroForOne)
    with (getNextTick p (tickCurrent p) zeroForOne)
    by (unfold getNextTick; by rewrite Hb1, Ht1).
  rewrite Hs1, Ht1.
  destruct (getNextTick p (tickCurrent p) zeroForOne) as [nextTick|].
  - destruct (tickToSqrtPrice lm nextTick) as [nx|e]; [|reflexivity].
    cbn. rewrite <- Hs1, set_sqrtPriceX64_id, <- Ht1, set_tickCurrent_id. reflexivity.
  - destruct (sqrtPriceToTick lm (sqrtPriceX64 p)) as [t|e]; [|reflexivity].
    cbn. rewrite <- Hs1, set_sqrtPriceX64_id. reflexivity.
Qed.

(** C6, as the code has it.  [applySwap] with [amountIn <= 0] returns 0 and
    leaves the pool as it is.  With [amountIn > 0] and no active liquidity it
    returns 0 (unless a tick/price conversion raises), and changes the pool in
    two places only: the total fee is added to [totalSwapFee0] or
    [totalSwapFee1], and, when no initialized tick lies on the side of the
    swap, [tickCurrent] becomes [sqrtPriceToTick(sqrtPriceX64)].  When the
    fee computation raises, the pool is left as it is.  (A swap that finds
    liquidity but no initialized tick is an ordinary swap.) *)
Theorem applySwap_degenerate (lm : Libm) (amountIn : Z) (zeroForOne : bool) (p : Pool) :
  (amountIn <= 0 -> applySwap lm amountIn zeroForOne p = (p, Ok 0)) /\
  (0 < amountIn -> liquidity p = 0 ->
   forall fees, calculateFees p amountIn = Ok fees ->
   applySwap lm amountIn zeroForOne p =
   let p1 :=
     if 0 <? totalFee fees then
       if zeroForOne then set_totalSwapFee0 (totalSwapFee0 p + totalFee fees) p
       else set_totalSwapFee1 (totalSwapFee1 p + totalFee fees) p
     else p in
   if totalFee fees <? amountIn then
     match getNextTick p (tickCurrent p) zeroForOne with
     | None =>
         match sqrtPriceToTick lm (sqrtPriceX64 p) with
         | Ok t => (set_tickCurrent t p1, Ok 0)
         | Raise e => (p1, Raise e)
         end
     | Some nextTick =>
         match tickToSqrtPrice lm nextTick with
         | Ok _ => (p1, Ok 0)
         | Raise e => (p1, Raise e)
         end
     end
   else (p1, Ok 0)) /\
  (forall e, calculateFees p amountIn = Raise e ->
   applySwap lm amountIn zeroForOne p = (p, Raise e)).
Proof.
  repeat apply conj.
  - intros Ha. unfold applySwap, calculateFees, applySwapInternal.
    destruct (Z.leb_spec amountIn 0); [reflexivity|lia].
  - intros Ha Hl fees Hfees. unfold applySwap. rewrite Hfees.
    by apply applySwapInternal_no_liquidity.
  - intros e Hfees. unfold applySwap. by rewrite Hfees.
Qed.

(** C6 at [Pool(100, 60)] and [applySwap(10000, True)]. *)
Lemma applySwap_degenerate_witness :
  0 < 10000 /\ liquidity pool_100_60 = 0 /\
  calculateFees pool_100_60 10000 = Ok {| totalFee := 1; lpFee := 1; protocolFee := 0 |} /\
  applySwap libm_sample 10000 true pool_100_60 = (set_totalSwapFee0 1 pool_100_60, Ok 0).
Proof.
  assert (H1 : 0 < 10000) by lia.
  assert (H2 : liquidity pool_100_60 = 0) by reflexivity.
  assert (H3 : calculateFees pool_100_60 10000 =
               Ok {| totalFee := 1; lpFee := 1; protocolFee := 0 |}) by reflexivity.
  split; [exact H1|]. split; [exact H2|]. split; [exact H3|].
  exact (proj1 (proj2 (applySwap_degenerate libm_sample 10000 true pool_100_60))
           H1 H2 _ H3).
Defined.

Lemma applySwapInternal_unfold (lm : Libm) (amountIn : Z) (zeroForOne : bool)
    (fees : Fees) (p : Pool) :
  0 < amountIn -> totalFee fees < amountIn ->
  applySwapInternal lm amountIn zeroForOne fees p =
  match executeCLMMSwap lm (amountIn - totalFee fees) zeroForOne
          (chargeFees zeroForOne fees p) with
  | (p', Raise e) => (p', Raise e)
  | (p', Ok r) =>
      (set_tickCurrent (newTick r) (set_sqrtPriceX64 (newSqrtPriceX64 r) p'),
       Ok (amountOut r))
  end.
Proof.
  intros Ha Hlt. unfold applySwapInternal, chargeFees.
  destruct (Z.leb_spec amountIn 0); [lia|]. cbv zeta.
  destruct (Z.ltb_spec (totalFee fees) amountIn); [|lia].
  destruct (Z.eqb_spec (amountIn - totalFee fees) 0); [lia|]. reflexivity.
Qed.

Lemma executeCLMMSwap_no_next_tick (lm : Libm) (amountIn : Z) (zeroForOne : bool)
    (p : Pool) :
  0 < amountIn -> getNextTick p (tickCurrent p) zeroForOne = None ->
  executeCLMMSwap lm amountIn zeroForOne p =
  (p, do t <- sqrtPriceToTick lm
                (step_newSqrtPriceX64 (swapAtPrice p amountIn (sqrtPriceX64 p) zeroForOne)) ;
      Ok {| amountOut :=
              0 + step_amountOut (swapAtPrice p amountIn (sqrtPriceX64 p) zeroForOne);
            newSqrtPriceX64 :=
              step_newSqrtPriceX64 (swapAtPrice p amountIn (sqrtPriceX64 p) zeroForOne);
            newTick := t |}).
Proof.
  intros Ha Hnone. unfold executeCLMMSwap.
  destruct (Z.to_nat amountIn) as [|fuel] eqn:Hfuel; [lia|].
  rewrite executeCLMMSwap_loop_S by done. by rewrite Hnone.
Qed.

(** C6 as stated fails.  On the new pool [Pool(100, 60)], which has no active
    liquidity and no initialized tick, [applySwap(10000, True)] returns 0 but
    raises [totalSwapFee0] from 0 to 1, whatever libm computes; and on
    [pool_setUp], which has liquidity but no initialized tick, the same swap
    moves [feeGrowthGlobal0X64] and returns 9906 when it returns. *)
Lemma applySwap_degenerate_cex :
  liquidity pool_100_60 = 0 /\
  getNextTick pool_100_60 (tickCurrent pool_100_60) true = None /\
  (forall lm : Libm,
      applySwap lm 10000 true pool_100_60 = (set_totalSwapFee0 1 pool_100_60, Ok 0)) /\
  totalSwapFee0 (set_totalSwapFee0 1 pool_100_60) <> totalSwapFee0 pool_100_60 /\
  getNextTick pool_setUp (tickCurrent pool_setUp) true = None /\
  feeGrowthGlobal0X64 pool_setUp = 0 /\
  (forall lm : Libm,
      feeGrowthGlobal0X64 (applySwap lm 10000 true pool_setUp).1 = 18446744073709 /\
      forall out, (applySwap lm 10000 true pool_setUp).2 = Ok out -> out = 9906).
Proof.
  split; [reflexivity|]. split; [vm_compute; reflexivity|].
  split; [intros lm; vm_compute; reflexivity|].
  split; [vm_compute; discriminate|]. split; [vm_compute; reflexivity|].
  split; [reflexivity|].
  intros lm. unfold applySwap.
  change (calculateFees pool_setUp 10000)
    with (Ok {| totalFee := 1; lpFee := 1; protocolFee := 0 |}).
  cbv beta iota.
  rewrite applySwapInternal_unfold by (simpl; lia).
  rewrite executeCLMMSwap_no_next_tick by (first [simpl; lia | vm_compute; reflexivity]).
  destruct (sqrtPriceToTick lm _) as [t|e]; cbn [rbind fst snd].
  - split; [vm_compute; reflexivity|]. intros out H.
    match type of H with
    | ?l = _ => assert (E : l = Ok 9906) by (vm_compute; reflexivity); rewrite E in H
    end.
    by injection H.
  - split; [vm_compute; reflexivity|]. intros out [=].
Qed.

(** ** Estimators and the pool state *)

Lemma tickToSqrtPrice_0 (lm : Libm) : tickToSqrtPrice lm 0 = Ok Q64.
Proof.
  vm_compute. reflexivity.
Qed.

Lemma estimateAmountOut_state (lm : Libm) (amountIn : Z) (zeroForOne : bool) (p : Pool) :
  (estimateAmountOut lm amountIn zeroForOne p).1 =
  match calculateFees p amountIn with
  | Raise _ => p
  | Ok fees =>
      if totalFee fees <? amountIn then
        (executeCLMMSwap lm (amountIn - totalFee fees) zeroForOne p).1
      else p
  end.
Proof.
  unfold estimateAmountOut.
  destruct (calculateFees p amountIn) as [fees|e]; [|reflexivity].
  destruct (Z.ltb_spec (totalFee fees) amountIn).
  - destruct (Z.ltb_spec 0 (amountIn - totalFee fees)); [|lia].
    by destruct (executeCLMMSwap _ _ _ _) as [p' [r|e]].
  - reflexivity.
Qed.

Lemma executeCLMMSwap_cross (lm : Libm) (amountIn : Z) (zeroForOne : bool) (p : Pool)
    (nextTick maxAmount cur' : Z) :
  0 < maxAmount -> maxAmount < amountIn ->
  getNextTick p (tickCurrent p) zeroForOne = Some nextTick ->
  calculateMaxSwapAtPrice lm p (sqrtPriceX64 p) nextTick zeroForOne = Ok maxAmount ->
  tickToSqrtPrice lm nextTick = Ok cur' ->
  exists fuel,
    executeCLMMSwap lm amountIn zeroForOne p =
    executeCLMMSwap_loop lm zeroForOne fuel
      (crossTick nextTick zeroForOne (updateFeeGrowthOutside nextTick zeroForOne p))
      cur' nextTick
      (0 + step_amountOut (swapAtPrice p maxAmount (sqrtPriceX64 p) zeroForOne))
      (amountIn - maxAmount).
Proof.
  intros Hm Hlt Hnext Hmax Hcur. unfold executeCLMMSwap.
  destruct (Z.to_nat amountIn) as [|fuel] eqn:Hfuel; [lia|].
  exists fuel. rewrite executeCLMMSwap_loop_S by lia.
  rewrite Hnext, Hmax, Hcur.
  destruct (Z.leb_spec maxAmount 0); [lia|].
  destruct (Z.leb_spec amountIn maxAmount); [lia|]. reflexivity.
Qed.

Lemma executeCLMMSwap_loop_state_no_next (lm : Libm) (zeroForOne : bool) (fuel : nat)
    (p : Pool) (cur tick out remaining : Z) :
  getNextTick p tick zeroForOne = None ->
  (executeCLMMSwap_loop lm zeroForOne fuel p cur tick out remaining).1 = p.
Proof.
  intros Hnone. destruct (Z.leb_spec remaining 0).
  - by rewrite executeCLMMSwap_loop_0.
  - destruct fuel as [|fuel].
    + cbn [executeCLMMSwap_loop]. by destruct (remaining <=? 0).
    + rewrite executeCLMMSwap_loop_S by done. by rewrite Hnone.
Qed.

(** C1 fails on the code: [estimateAmountOut] runs the tick walk on the pool
    itself.  On [pool_below_0] (liquidity 1000, next initialized tick 0 above
    the price) the estimate of a swap of 10000 upwards crosses tick 0 and
    leaves the pool with [liquidity = 0]; with a fee growth of 5 it also
    overwrites [feeGrowthOutside1X64] of tick 0.  This holds whatever libm
    computes and whether the call returns or raises. *)
Theorem estimateAmountOut_moves_liquidity (lm : Libm) :
  liquidity pool_below_0 = 1000 /\
  liquidity (estimateAmountOut lm 10000 false pool_below_0).1 = 0 /\
  feeGrowthOutside1X64 <$> ticks pool_below_0_fees !! 0 = Some 0 /\
  feeGrowthOutside1X64 <$>
    ticks (estimateAmountOut lm 10000 false pool_below_0_fees).1 !! 0 = Some 5.
Proof.
  assert (Hcross : forall p, p = pool_below_0 \/ p = pool_below_0_fees ->
    (estimateAmountOut lm 10000 false p).1 =
    crossTick 0 false (updateFeeGrowthOutside 0 false p)).
  { intros p Hp. rewrite estimateAmountOut_state.
    replace (calculateFees p 10000)
      with (Ok {| totalFee := 1; lpFee := 1; protocolFee := 0 |})
      by (destruct Hp as [-> | ->]; vm_compute; reflexivity).
    cbn [totalFee]. change (1 <? 10000) with true. cbv iota.
    destruct (executeCLMMSwap_cross lm (10000 - 1) false p 0 500 Q64) as [fuel ->].
    - lia.
    - lia.
    - destruct Hp as [-> | ->]; vm_compute; reflexivity.
    - unfold calculateMaxSwapAtPrice. rewrite tickToSqrtPrice_0.
      destruct Hp as [-> | ->]; vm_compute; reflexivity.
    - apply tickToSqrtPrice_0.
    - apply executeCLMMSwap_loop_state_no_next.
      destruct Hp as [-> | ->]; vm_compute; reflexivity. }
  split; [reflexivity|].
  split; [rewrite Hcross by (by left); vm_compute; reflexivity|].
  split; [vm_compute; reflexivity|].
  rewrite Hcross by (by right). vm_compute. reflexivity.
Qed.

(** ** Serializer round trip *)

Lemma scan_digits_string_of_uint (d : Decimal.uint) :
  scan_digits true (NilEmpty.string_of_uint d) = Some d.
Proof.
  induction d; cbn [NilEmpty.string_of_uint scan_digits digit_of]; [done|..];
    by rewrite IHd.
Qed.

Lemma int_of_str_digits (negative : bool) (d : Decimal.uint) :
  d <> Decimal.Nil ->
  int_of_str (if negative then String "-" (NilEmpty.string_of_uint d)
              else NilEmpty.string_of_uint d) =
  if int_max_str_digits <? Z.of_nat (Decimal.nb_digits d) then Raise ValueError
  else Ok (if negative then - Z.of_uint d else Z.of_uint d).
Proof.
  intros Hd. unfold int_of_str.
  destruct negative, d; try done; cbn [NilEmpty.string_of_uint];
    match goal with
    | |- context [lstrip (String ?c ?s)] => change (lstrip (String c s)) with (String c s)
    end; cbv beta iota; cbn [scan_digits digit_of];
    rewrite scan_digits_string_of_uint; reflexivity.
Qed.

Lemma to_int_nonnil (z : Z) :
  match Z.to_int z with Decimal.Pos d | Decimal.Neg d => d <> Decimal.Nil end.
Proof.
  destruct z; cbn; [done|apply Unsigned.to_uint_nonnil..].
Qed.

Lemma int_of_str_py_str (z : Z) (s : string) : py_str z = Ok s -> int_of_str s = Ok z.
Proof.
  unfold py_str. pose proof (to_int_nonnil z) as Hd. pose proof (DecimalZ.of_to z) as Hz.
  destruct (Z.to_int z) as [d|d]; cbn [int_digits NilZero.string_of_int];
    (destruct (int_max_str_digits <? Z.of_nat (Decimal.nb_digits d)) eqn:Hlim; [done|]);
    intros [= <-].
  - replace (NilZero.string_of_uint d) with (NilEmpty.string_of_uint d) by (by destruct d).
    rewrite (int_of_str_digits false d Hd), Hlim. by rewrite <- Hz.
  - replace (NilZero.string_of_uint d) with (NilEmpty.string_of_uint d) by (by destruct d).
    rewrite (int_of_str_digits true d Hd), Hlim. by rewrite <- Hz.
Qed.

Lemma py_str_ok (z : Z) : str_ok z = true -> exists s, py_str z = Ok s.
Proof.
  unfold str_ok, py_str. intros H.
  destruct (Z.ltb_spec int_max_str_digits (int_digits (Z.to_int z))); [lia|]. by eexists.
Qed.

Ltac str_step :=
  match goal with
  | |- context [rbind (py_str ?z) _] =>
      let s := fresh "s" in let E := fresh "E" in
      destruct (py_str z) as [s|] eqn:E; cbn [rbind]; [|discriminate]
  end.

Ltac int_step :=
  cbn [json_get json_get_default assoc String.eqb Ascii.eqb Bool.eqb lift lbind
       py_int stored_int stored_float stored_key default from_option id];
  repeat match goal with
         | H : py_str _ = Ok ?s |- context [int_of_str ?s] =>
             rewrite (int_of_str_py_str _ _ H)
         end;
  cbn [lift lbind].

Lemma deserialize_tick_serialize (kv : Z * TickData) (x : json) (m : gmap Z TickData) :
  serialize_tick kv = Ok x -> deserialize_tick x m = Loaded (<[kv.1 := kv.2]> m).
Proof.
  destruct kv as [tick [net gross fgo0 fgo1]]. unfold serialize_tick.
  cbn [liquidityNet liquidityGross feeGrowthOutside0X64 feeGrowthOutside1X64].
  repeat str_step. intros [= <-]. unfold deserialize_tick.
  by do 5 int_step.
Qed.

Lemma deserialize_ticks_serialize (l : list (Z * TickData)) :
  forall (xs : list json) (m : gmap Z TickData),
    serialize_ticks l = Ok xs ->
    deserialize_ticks xs m = Loaded (foldl (fun m kv => <[kv.1 := kv.2]> m) m l).
Proof.
  induction l as [|kv l IH]; intros xs m; cbn [serialize_ticks].
  { by intros [= <-]. }
  destruct (serialize_tick kv) as [x|] eqn:Ex; cbn [rbind]; [|done].
  destruct (serialize_ticks l) as [xs'|] eqn:El; cbn [rbind]; [|done].
  intros [= <-]. cbn [deserialize_ticks foldl].
  rewrite (deserialize_tick_serialize kv x m Ex). cbn [lbind]. by apply IH.
Qed.

Lemma json_dumps_int_Ok (z : Z) (x : json) : json_dumps_int z = Ok x -> x = JInt z.
Proof.
  unfold json_dumps_int. destruct (py_str z); cbn [rbind]; [|done]. by intros [= <-].
Qed.

Lemma stored_keys_dumps (l : list Z) :
  forall xs, json_dumps_ints l = Ok xs -> stored_keys xs = Loaded l.
Proof.
  induction l as [|z l IH]; intros xs; cbn [json_dumps_ints].
  { by intros [= <-]. }
  destruct (json_dumps_int z) as [x|] eqn:Ex; cbn [rbind]; [|done].
  destruct (json_dumps_ints l) as [xs'|] eqn:El; cbn [rbind]; [|done].
  intros [= <-]. apply json_dumps_int_Ok in Ex as ->.
  cbn [stored_keys stored_key lbind]. by rewrite (IH xs' eq_refl).
Qed.

Lemma foldl_insert_list_to_map (l : list (Z * TickData)) (m : gmap Z TickData) :
  foldl (fun m kv => <[kv.1 := kv.2]> m) m l =
  foldr (fun kv m => <[kv.1 := kv.2]> m) m (reverse l).
Proof.
  revert m. induction l as [|kv l IH]; intros m; [reflexivity|].
  cbn [foldl]. rewrite IH, reverse_cons, foldr_app. reflexivity.
Qed.

Lemma foldl_insert_order (l : list (Z * TickData)) (m : gmap Z TickData) :
  l ≡ₚ map_to_list m -> foldl (fun m kv => <[kv.1 := kv.2]> m) ∅ l = m.
Proof.
  intros Hl. rewrite foldl_insert_list_to_map.
  change (foldr (fun kv m => <[kv.1 := kv.2]> m) ∅ (reverse l))
    with (list_to_map (M := gmap Z TickData) (reverse l)).
  rewrite <- (list_to_map_to_list m) at 1.
  apply list_to_map_proper.
  - rewrite fmap_reverse, reverse_Permutation, Hl. apply NoDup_fst_map_to_list.
  - by rewrite reverse_Permutation.
Qed.

Lemma float_of_int_1000000 : float_of_int 1000000 = Ok 1000000%float.
Proof. vm_compute. reflexivity. Qed.

Lemma deserialize_serialize (ticksOrder : list (Z * TickData)) (bitmapOrder : list Z)
    (p : Pool) (state : json) :
  iterationOrders ticksOrder bitmapOrder p ->
  is_Ok (float_of_int (feeRatePpm p)) ->
  serialize ticksOrder bitmapOrder p = Ok state ->
  deserialize state = Loaded (set_validationStats validationStats_init p).
Proof.
  intros [Ht Hb] Hppm. unfold serialize. repeat str_step.
  destruct (serialize_ticks ticksOrder) as [ts|] eqn:Ets; cbn [rbind]; [|done].
  destruct (json_dumps_int (tickCurrent p)) as [tc|] eqn:Etc; cbn [rbind]; [|done].
  destruct (json_dumps_int (tickSpacing p)) as [tsp|] eqn:Etsp; cbn [rbind]; [|done].
  destruct (json_dumps_ints ticksOrder.*1) as [tks|] eqn:Etks; cbn [rbind]; [|done].
  destruct (json_dumps_ints bitmapOrder) as [bm|] eqn:Ebm; cbn [rbind]; [|done].
  intros [= <-].
  apply json_dumps_int_Ok in Etc as ->. apply json_dumps_int_Ok in Etsp as ->.
  unfold deserialize, Pool_init.
  destruct (float_of_int (feeRatePpm p)) as [f|e] eqn:Hf; [clear Hppm|done].
  do 2 int_step. rewrite Hf, float_of_int_1000000. cbn [rbind].
  unfold float_div. change (PrimFloat.eqb 1000000 0) with false.
  cbn [rbind lift lbind].
  do 12 int_step. cbn [py_iter lift lbind].
  rewrite (deserialize_ticks_serialize ticksOrder ts ∅ Ets). int_step.
  cbn [py_iter lift lbind]. rewrite (stored_keys_dumps bitmapOrder bm Ebm). cbn [lbind].
  rewrite (foldl_insert_order _ _ Ht), Hb, list_to_set_elements_L.
  by destruct p.
Qed.

Lemma forallb_perm {A} (f : A -> bool) (l l' : list A) :
  l ≡ₚ l' -> forallb f l' = true -> forallb f l = true.
Proof.
  intros Hl. rewrite !forallb_forall. intros H x Hx. apply H.
  apply list_elem_of_In. rewrite <- Hl. by apply list_elem_of_In.
Qed.

Lemma serialize_ticks_returns (l : list (Z * TickData)) :
  forallb tick_str_ok l = true -> exists xs, serialize_ticks l = Ok xs.
Proof.
  induction l as [|[tick [net gross fgo0 fgo1]] l IH]; cbn [forallb serialize_ticks].
  { by eexists. }
  unfold tick_str_ok at 1.
  cbn [fst snd liquidityNet liquidityGross feeGrowthOutside0X64 feeGrowthOutside1X64].
  rewrite !andb_true_iff. intros [[[[[_ H1] H2] H3] H4] Hl].
  destruct (IH Hl) as [xs ->]. unfold serialize_tick.
  cbn [liquidityNet liquidityGross feeGrowthOutside0X64 feeGrowthOutside1X64].
  destruct (py_str_ok _ H1) as [? ->], (py_str_ok _ H2) as [? ->],
    (py_str_ok _ H3) as [? ->], (py_str_ok _ H4) as [? ->].
  cbn [rbind]. by eexists.
Qed.

Lemma json_dumps_ints_returns (l : list Z) :
  forallb str_ok l = true -> exists xs, json_dumps_ints l = Ok xs.
Proof.
  induction l as [|z l IH]; cbn [forallb json_dumps_ints]; [by eexists|].
  rewrite andb_true_iff. intros [Hz Hl]. destruct (IH Hl) as [xs ->].
  unfold json_dumps_int. destruct (py_str_ok _ Hz) as [? ->]. cbn [rbind]. by eexists.
Qed.

Lemma serialize_returns (ticksOrder : list (Z * TickData)) (bitmapOrder : list Z)
    (p : Pool) :
  iterationOrders ticksOrder bitmapOrder p -> serializable p = true ->
  exists state, serialize ticksOrder bitmapOrder p = Ok state.
Proof.
  intros [Ht Hb]. unfold serializable. rewrite !andb_true_iff.
  intros [[[[[[[[[[[[[[H1 H2] H3] H4] H5] H6] H7] H8] H9] H10] H11] H12] H13] Hts] Hbm].
  apply (forallb_perm _ _ _ Ht) in Hts. apply (forallb_perm _ _ _ Hb) in Hbm.
  assert (Htk : forallb str_ok ticksOrder.*1 = true).
  { apply forallb_forall. intros z Hz.
    apply list_elem_of_In, list_elem_of_fmap in Hz as [kv [-> Hkv]].
    rewrite forallb_forall in Hts. apply list_elem_of_In, Hts in Hkv.
    unfold tick_str_ok in Hkv. rewrite !andb_true_iff in Hkv. tauto. }
  unfold serialize, json_dumps_int.
  destruct (py_str_ok _ H1) as [? ->], (py_str_ok _ H2) as [? ->],
    (py_str_ok _ H3) as [? ->], (py_str_ok _ H4) as [? ->], (py_str_ok _ H5) as [? ->],
    (py_str_ok _ H6) as [? ->], (py_str_ok _ H7) as [? ->], (py_str_ok _ H8) as [? ->],
    (py_str_ok _ H9) as [? ->], (py_str_ok _ H10) as [? ->], (py_str_ok _ H11) as [? ->],
    (py_str_ok _ H12) as [? ->], (py_str_ok _ H13) as [? ->].
  destruct (serialize_ticks_returns _ Hts) as [? ->].
  destruct (json_dumps_ints_returns _ Htk) as [? ->].
  destruct (json_dumps_ints_returns _ Hbm) as [? ->].
  cbn [rbind]. by eexists.
Qed.

Lemma updateFeeGrowthOutside_stats (s : ValidationStats) (tick : Z) (zeroForOne : bool)
    (p : Pool) :
  updateFeeGrowthOutside tick zeroForOne (set_validationStats s p) =
  set_validationStats s (updateFeeGrowthOutside tick zeroForOne p).
Proof.
  unfold updateFeeGrowthOutside. cbn [ticks set_validationStats].
  destruct (ticks p !! tick); [destruct zeroForOne|]; reflexivity.
Qed.

Lemma crossTick_stats (s : ValidationStats) (tick : Z) (zeroForOne : bool) (p : Pool) :
  crossTick tick zeroForOne (set_validationStats s p) =
  set_validationStats s (crossTick tick zeroForOne p).
Proof.
  unfold crossTick. cbn [ticks set_validationStats].
  destruct (ticks p !! tick); [|reflexivity].
  destruct zeroForOne; cbn; by destruct (_ <? 0).
Qed.

Lemma executeCLMMSwap_loop_stats (lm : Libm) (zeroForOne : bool) (s : ValidationStats)
    (fuel : nat) :
  forall (p : Pool) (cur tick out remaining : Z),
    executeCLMMSwap_loop lm zeroForOne fuel (set_validationStats s p)
      cur tick out remaining =
    (set_validationStats s
       (executeCLMMSwap_loop lm zeroForOne fuel p cur tick out remaining).1,
     (executeCLMMSwap_loop lm zeroForOne fuel p cur tick out remaining).2).
Proof.
  induction fuel as [|fuel IH]; intros p cur tick out remaining.
  - cbn [executeCLMMSwap_loop]. by destruct (remaining <=? 0).
  - destruct (Z.leb_spec remaining 0) as [Hr|Hr].
    { by rewrite !executeCLMMSwap_loop_0. }
    rewrite !executeCLMMSwap_loop_S by done.
    change (getNextTick (set_validationStats s p) tick zeroForOne)
      with (getNextTick p tick zeroForOne).
    destruct (getNextTick p tick zeroForOne) as [nextTick|]; [|reflexivity].
    change (calculateMaxSwapAtPrice lm (set_validationStats s p) cur nextTick zeroForOne)
      with (calculateMaxSwapAtPrice lm p cur nextTick zeroForOne).
    destruct (calculateMaxSwapAtPrice lm p cur nextTick zeroForOne) as [m|e];
      [|reflexivity].
    destruct (m <=? 0); [reflexivity|].
    destruct (remaining <=? m); [reflexivity|].
    destruct (tickToSqrtPrice lm nextTick) as [cur'|e]; [|reflexivity].
    rewrite updateFeeGrowthOutside_stats, crossTick_stats. apply IH.
Qed.

Lemma chargeFees_stats (s : ValidationStats) (zeroForOne : bool) (fees : Fees) (p : Pool) :
  chargeFees zeroForOne fees (set_validationStats s p) =
  set_validationStats s (chargeFees zeroForOne fees p).
Proof.
  unfold chargeFees, updateFeeGrowth.
  destruct (0 <? totalFee fees), (0 <? lpFee fees), zeroForOne; cbn;
    try reflexivity; by destruct (0 <? liquidity p).
Qed.

Lemma applySwapInternal_fee_only (lm : Libm) (amountIn : Z) (zeroForOne : bool)
    (fees : Fees) (p : Pool) :
  0 < amountIn -> amountIn <= totalFee fees ->
  applySwapInternal lm amountIn zeroForOne fees p = (chargeFees zeroForOne fees p, Ok 0).
Proof.
  intros Ha Hge. unfold applySwapInternal, chargeFees.
  destruct (Z.leb_spec amountIn 0); [lia|]. cbv zeta.
  destruct (Z.ltb_spec (totalFee fees) amountIn); [lia|]. reflexivity.
Qed.

Lemma applySwapInternal_stats (lm : Libm) (amountIn : Z) (zeroForOne : bool)
    (fees : Fees) (s : ValidationStats) (p : Pool) :
  applySwapInternal lm amountIn zeroForOne fees (set_validationStats s p) =
  (set_validationStats s (applySwapInternal lm amountIn zeroForOne fees p).1,
   (applySwapInternal lm amountIn zeroForOne fees p).2).
Proof.
  destruct (Z.leb_spec amountIn 0) as [Ha|Ha].
  { unfold applySwapInternal. by destruct (Z.leb_spec amountIn 0); [|lia]. }
  destruct (Z.leb_spec amountIn (totalFee fees)) as [Hf|Hf].
  { rewrite !applySwapInternal_fee_only by done. by rewrite chargeFees_stats. }
  rewrite !applySwapInternal_unfold by done.
  rewrite chargeFees_stats. unfold executeCLMMSwap.
  cbn [sqrtPriceX64 tickCurrent set_validationStats].
  rewrite executeCLMMSwap_loop_stats.
  destruct (executeCLMMSwap_loop _ _ _ _ _ _ _ _) as [p' [r|e]]; reflexivity.
Qed.

Lemma applySwap_stats (lm : Libm) (amountIn : Z) (zeroForOne : bool)
    (s : ValidationStats) (p : Pool) :
  applySwap lm amountIn zeroForOne (set_validationStats s p) =
  (set_validationStats s (applySwap lm amountIn zeroForOne p).1,
   (applySwap lm amountIn zeroForOne p).2).
Proof.
  unfold applySwap.
  change (calculateFees (set_validationStats s p) amountIn)
    with (calculateFees p amountIn).
  destruct (calculateFees p amountIn) as [fees|e]; [|reflexivity].
  apply applySwapInternal_stats.
Qed.

Lemma estimateAmountOut_stats (lm : Libm) (amountIn : Z) (zeroForOne : bool)
    (s : ValidationStats) (p : Pool) :
  estimateAmountOut lm amountIn zeroForOne (set_validationStats s p) =
  (set_validationStats s (estimateAmountOut lm amountIn zeroForOne p).1,
   (estimateAmountOut lm amountIn zeroForOne p).2).
Proof.
  unfold estimateAmountOut.
  change (calculateFees (set_validationStats s p) amountIn)
    with (calculateFees p amountIn).
  destruct (calculateFees p amountIn) as [fees|e]; [|reflexivity].
  destruct (0 <? _); [|reflexivity].
  unfold executeCLMMSwap. cbn [sqrtPriceX64 tickCurrent set_validationStats].
  rewrite executeCLMMSwap_loop_stats.
  destruct (executeCLMMSwap_loop _ _ _ _ _ _ _ _) as [p' [r|e]]; reflexivity.
Qed.

(** C5, as the code has it: [serialize] writes every attribute of the pool
    except the validation counters, and [deserialize] builds a pool with
    fresh counters.  For a pool whose [feeRatePpm] converts to a float and
    whose [int]s are within the digit limit of [str], and whatever the
    iteration order of [ticks] and [tickBitmap], [serialize] returns and
    [deserialize] gives back the pool with its counters reset.  The pool with
    reset counters behaves as the pool itself, counters aside: [serialize]
    writes the same value for the same iteration orders, and [applySwap],
    [estimateAmountOut] and [getFeesAtTick] return the same results and leave
    the same pools. *)
Theorem deserialize_serialize_roundtrip (ticksOrder : list (Z * TickData))
    (bitmapOrder : list Z) (p : Pool) :
  iterationOrders ticksOrder bitmapOrder p ->
  is_Ok (float_of_int (feeRatePpm p)) ->
  serializable p = true ->
  let p' := set_validationStats validationStats_init p in
  (exists state, serialize ticksOrder bitmapOrder p = Ok state /\
                 deserialize state = Loaded p') /\
  (forall ticksOrder' bitmapOrder',
      serialize ticksOrder' bitmapOrder' p' = serialize ticksOrder' bitmapOrder' p) /\
  (forall lm amountIn zeroForOne,
      applySwap lm amountIn zeroForOne p' =
      (set_validationStats validationStats_init (applySwap lm amountIn zeroForOne p).1,
       (applySwap lm amountIn zeroForOne p).2)) /\
  (forall lm amountIn zeroForOne,
      estimateAmountOut lm amountIn zeroForOne p' =
      (set_validationStats validationStats_init
         (estimateAmountOut lm amountIn zeroForOne p).1,
       (estimateAmountOut lm amountIn zeroForOne p).2)) /\
  (forall tick, getFeesAtTick tick p' = getFeesAtTick tick p).
Proof.
  intros Hord Hppm Hser p'. subst p'.
  split.
  { destruct (serialize_returns ticksOrder bitmapOrder p Hord Hser) as [state Hstate].
    exists state. split; [exact Hstate|]. by eapply deserialize_serialize. }
  split; [reflexivity|].
  split; [intros; apply applySwap_stats|].
  split; [intros; apply estimateAmountOut_stats|].
  reflexivity.
Qed.

Lemma iterationOrders_canonical (p : Pool) :
  iterationOrders (map_to_list (ticks p)) (elements (tickBitmap p)) p.
Proof.
  split; reflexivity.
Defined.

(** C5 at the test pool with the position on [5, 10), its ticks listed in
    ascending order. *)
Lemma deserialize_serialize_roundtrip_witness :
  is_Ok (float_of_int (feeRatePpm pool_position)) /\
  serializable pool_position = true /\
  exists state,
    serialize (map_to_list (ticks pool_position)) (elements (tickBitmap pool_position))
      pool_position = Ok state /\
    deserialize state = Loaded (set_validationStats validationStats_init pool_position).
Proof.
  assert (H1 : is_Ok (float_of_int (feeRatePpm pool_position))) by exact I.
  assert (H2 : serializable pool_position = true) by (vm_compute; reflexivity).
  split; [exact H1|]. split; [exact H2|].
  exact (proj1 (deserialize_serialize_roundtrip _ _ pool_position
                  (iterationOrders_canonical pool_position) H1 H2)).
Defined.

(** C5 as stated fails: the round trip of a pool that has counted one
    validated swap is a pool that has counted none. *)
Lemma deserialize_serialize_counters_cex :
  totalSwaps (validationStats pool_counted) = 1 /\
  iterationOrders [] [] pool_counted /\
  lbind (lift (serialize [] [] pool_counted)) deserialize = Loaded pool_setUp /\
  totalSwaps (validationStats pool_setUp) = 0 /\
  pool_setUp <> pool_counted.
Proof.
  split; [reflexivity|]. split.
  { unfold iterationOrders.
    change (ticks pool_counted) with (∅ : gmap Z TickData).
    change (tickBitmap pool_counted) with (∅ : gset Z).
    by rewrite map_to_list_empty, elements_empty. }
  split; [vm_compute; reflexivity|]. split; [reflexivity|].
  intros H. apply (f_equal (fun q => totalSwaps (validationStats q))) in H.
  discriminate H.
Qed.

(** ** Further properties of the swap engine *)

Lemma py_round_python (x : float) : python_result (py_round x).
Proof.
  unfold python_result, py_round. by destruct (Prim2SF x).
Qed.

Lemma calculateFees_python (p : Pool) (amountIn : Z) :
  python_result (calculateFees p amountIn).
Proof.
  unfold calculateFees. destruct (amountIn <=? 0); [done|].
  apply rbind_python.
  - unfold effectivePpm. destruct (0 <? feeRatePpm p); [done|].
    apply rbind_python; [apply float_of_int_python|intros; apply py_round_python].
  - intros ppm. destruct (ppm <=? 0); [done|]. cbv zeta. by destruct (_ <=? 0).
Qed.

Lemma calculatePriceImpact_python (p : Pool) (amountIn amountOut : Z) (zeroForOne : bool) :
  python_result (calculatePriceImpact p amountIn amountOut zeroForOne).
Proof.
  unfold calculatePriceImpact, price.
  apply rbind_python.
  { apply rbind_python; [apply int_true_div_python|done]. }
  intros cur. destruct (_ || _); [done|].
  apply rbind_python.
  { destruct zeroForOne; apply int_true_div_python. }
  intros eff. destruct (negb _); [|done].
  apply rbind_python; [apply float_of_int_python|done].
Qed.

(** X1: the tick walk terminates.  Each iteration of the [while] loop that
    does not leave it lowers [remainingAmount] by at least 1, so the loop runs
    at most [amountIn] times: [executeCLMMSwap], [applySwap] and
    [estimateAmountOut] end with a value or a Python exception, never on the
    model's iteration bound. *)
Theorem executeCLMMSwap_terminates (lm : Libm) (amountIn : Z) (zeroForOne : bool)
    (p : Pool) :
  python_result (executeCLMMSwap lm amountIn zeroForOne p).2 /\
  python_result (applySwap lm amountIn zeroForOne p).2 /\
  python_result (estimateAmountOut lm amountIn zeroForOne p).2.
Proof.
  split; [apply executeCLMMSwap_python|]. split.
  - unfold applySwap.
    pose proof (calculateFees_python p amountIn) as Hf.
    destruct (calculateFees p amountIn) as [fees|e];
      [|exact (python_result_Raise e Hf)].
    unfold applySwapInternal. destruct (amountIn <=? 0); [done|]. cbv zeta.
    destruct (_ =? 0); [done|].
    match goal with
    | |- context [executeCLMMSwap lm ?a zeroForOne ?q] =>
        pose proof (executeCLMMSwap_python lm a zeroForOne q) as Hx;
        destruct (executeCLMMSwap lm a zeroForOne q) as [p' [r|e]]
    end; [done|exact (python_result_Raise e Hx)].
  - unfold estimateAmountOut.
    pose proof (calculateFees_python p amountIn) as Hf.
    destruct (calculateFees p amountIn) as [fees|e];
      [|exact (python_result_Raise e Hf)].
    destruct (0 <? _).
    + match goal with
      | |- context [executeCLMMSwap lm ?a zeroForOne ?q] =>
          pose proof (executeCLMMSwap_python lm a zeroForOne q) as Hx;
          destruct (executeCLMMSwap lm a zeroForOne q) as [p' [r|e]]
      end; [|exact (python_result_Raise e Hx)].
      cbn [snd]. apply rbind_python; [apply calculatePriceImpact_python|done].
    + cbn [snd]. apply rbind_python; [apply calculatePriceImpact_python|done].
Qed.

Lemma updateFeeGrowthOutside_walkFrame (tick : Z) (zeroForOne : bool) (p : Pool) :
  walkFrame (updateFeeGrowthOutside tick zeroForOne p) = walkFrame p.
Proof.
  unfold updateFeeGrowthOutside.
  destruct (ticks p !! tick) as [d|] eqn:Hd; [|reflexivity].
  unfold walkFrame. destruct zeroForOne; cbn; f_equal;
    rewrite fmap_insert; apply insert_id; by rewrite lookup_fmap, Hd.
Qed.

Lemma crossTick_walkFrame (tick : Z) (zeroForOne : bool) (p : Pool) :
  walkFrame (crossTick tick zeroForOne p) = walkFrame p.
Proof.
  unfold crossTick. destruct (ticks p !! tick); [|reflexivity].
  destruct zeroForOne; cbn; by destruct (_ <? 0).
Qed.

Lemma executeCLMMSwap_loop_walkFrame (lm : Libm) (zeroForOne : bool) (fuel : nat) :
  forall (p : Pool) (cur tick out remaining : Z),
    walkFrame (executeCLMMSwap_loop lm zeroForOne fuel p cur tick out remaining).1 =
    walkFrame p.
Proof.
  induction fuel as [|fuel IH]; intros p cur tick out remaining.
  - cbn [executeCLMMSwap_loop]. by destruct (remaining <=? 0).
  - destruct (Z.leb_spec remaining 0) as [Hr|Hr].
    { by rewrite executeCLMMSwap_loop_0. }
    rewrite executeCLMMSwap_loop_S by done.
    destruct (getNextTick p tick zeroForOne) as [nextTick|]; [|done].
    destruct (calculateMaxSwapAtPrice lm p cur nextTick zeroForOne) as [m|e]; [|done].
    destruct (m <=? 0); [done|].
    destruct (remaining <=? m); [done|].
    destruct (tickToSqrtPrice lm nextTick) as [cur'|e]; [|done].
    by rewrite IH, crossTick_walkFrame, updateFeeGrowthOutside_walkFrame.
Qed.

Lemma estimateAmountOut_walkFrame (lm : Libm) (amountIn : Z) (zeroForOne : bool)
    (p : Pool) :
  walkFrame (estimateAmountOut lm amountIn zeroForOne p).1 = walkFrame p.
Proof.
  rewrite estimateAmountOut_state.
  destruct (calculateFees p amountIn) as [fees|e]; [|done].
  destruct (_ <? _); [|done]. apply executeCLMMSwap_loop_walkFrame.
Qed.

(** X2: what [estimateAmountOut] does keep.  Whatever the input, the call
    leaves every attribute but [liquidity] as it was, and of each tick the set
    of keys and the fields [liquidityNet] and [liquidityGross]; and when no
    initialized tick lies on the side of the swap, or the fee takes the whole
    input, the pool is not changed at all. *)
Theorem estimateAmountOut_frame (lm : Libm) (amountIn : Z) (zeroForOne : bool)
    (p : Pool) :
  walkFrame (estimateAmountOut lm amountIn zeroForOne p).1 = walkFrame p /\
  (getNextTick p (tickCurrent p) zeroForOne = None ->
   (estimateAmountOut lm amountIn zeroForOne p).1 = p) /\
  (forall fees, calculateFees p amountIn = Ok fees -> amountIn <= totalFee fees ->
   (estimateAmountOut lm amountIn zeroForOne p).1 = p).
Proof.
  split; [apply estimateAmountOut_walkFrame|].
  rewrite estimateAmountOut_state. split.
  - intros Hnone. destruct (calculateFees p amountIn) as [fees|e]; [|done].
    destruct (_ <? _); [|done]. by apply executeCLMMSwap_loop_state_no_next.
  - intros fees -> Hle. by destruct (Z.ltb_spec (totalFee fees) amountIn); [lia|].
Qed.

(** X2 at the test pool, which has no initialized tick. *)
Lemma estimateAmountOut_frame_witness :
  getNextTick pool_setUp (tickCurrent pool_setUp) true = None /\
  (estimateAmountOut libm_sample 10000 true pool_setUp).1 = pool_setUp.
Proof.
  assert (H : getNextTick pool_setUp (tickCurrent pool_setUp) true = None)
    by (vm_compute; reflexivity).
  split.
  - exact H.
  - exact (proj1 (proj2 (estimateAmountOut_frame libm_sample 10000 true pool_setUp)) H).
Defined.

Lemma walkFrame_inv (p p' : Pool) :
  walkFrame p' = walkFrame p ->
  bookFrame p' = bookFrame p /\
  feeGrowthGlobal0X64 p' = feeGrowthGlobal0X64 p /\
  feeGrowthGlobal1X64 p' = feeGrowthGlobal1X64 p.
Proof.
  unfold walkFrame, bookFrame. intros H. injection H. intros.
  repeat split; congruence.
Qed.

Lemma tickBookConsistent_bookFrame (p p' : Pool) :
  bookFrame p' = bookFrame p -> tickBookConsistent p -> tickBookConsistent p'.
Proof.
  unfold bookFrame. intros [= Hb Ht] Hp t. rewrite Hb, <- (Hp t).
  apply (f_equal (fun m => m !! t)) in Ht. rewrite !lookup_fmap in Ht.
  destruct (ticks p' !! t), (ticks p !! t); try done; split; intros [? ?]; done.
Qed.

Lemma updateFeeGrowth_bookFrame (feeAmount : Z) (zeroForOne : bool) (p : Pool) :
  bookFrame (updateFeeGrowth feeAmount zeroForOne p) = bookFrame p.
Proof.
  unfold updateFeeGrowth. destruct (0 <? liquidity p); [destruct zeroForOne|]; done.
Qed.

Lemma chargeFees_bookFrame (zeroForOne : bool) (fees : Fees) (p : Pool) :
  bookFrame (chargeFees zeroForOne fees p) = bookFrame p.
Proof.
  unfold chargeFees. cbv zeta.
  destruct (0 <? lpFee fees); rewrite ?updateFeeGrowth_bookFrame;
    destruct (0 <? totalFee fees); [destruct zeroForOne| |destruct zeroForOne|]; done.
Qed.

Lemma updateFeeGrowth_le (feeAmount : Z) (zeroForOne : bool) (p : Pool) :
  0 < feeAmount -> feeGrowth_le p (updateFeeGrowth feeAmount zeroForOne p).
Proof.
  intros Hfee. unfold feeGrowth_le, updateFeeGrowth.
  destruct (Z.ltb_spec 0 (liquidity p)) as [Hl|Hl]; [|lia].
  assert (0 <= feeAmount * Z.shiftl 1 64 / liquidity p).
  { apply Z.div_pos; [|done]. change (Z.shiftl 1 64) with 18446744073709551616. lia. }
  destruct zeroForOne; cbn; lia.
Qed.

Lemma chargeFees_feeGrowth_le (zeroForOne : bool) (fees : Fees) (p : Pool) :
  feeGrowth_le p (chargeFees zeroForOne fees p).
Proof.
  unfold chargeFees. cbv zeta.
  set (p1 := if 0 <? totalFee fees then _ else p).
  assert (H1 : feeGrowthGlobal0X64 p1 = feeGrowthGlobal0X64 p /\
               feeGrowthGlobal1X64 p1 = feeGrowthGlobal1X64 p).
  { subst p1. destruct (0 <? totalFee fees); [destruct zeroForOne|]; done. }
  clearbody p1. destruct H1 as [H0 H1].
  destruct (Z.ltb_spec 0 (lpFee fees)) as [Hlp|Hlp].
  - destruct (updateFeeGrowth_le (lpFee fees) zeroForOne p1 Hlp). unfold feeGrowth_le. lia.
  - unfold feeGrowth_le. lia.
Qed.

Lemma applySwapInternal_frames (lm : Libm) (amountIn : Z) (zeroForOne : bool)
    (fees : Fees) (p : Pool) :
  bookFrame (applySwapInternal lm amountIn zeroForOne fees p).1 = bookFrame p /\
  feeGrowth_le p (applySwapInternal lm amountIn zeroForOne fees p).1.
Proof.
  destruct (Z.leb_spec amountIn 0) as [Ha|Ha].
  { unfold applySwapInternal. destruct (Z.leb_spec amountIn 0); [|lia].
    split; [done|]. unfold feeGrowth_le. cbn. lia. }
  destruct (Z.leb_spec amountIn (totalFee fees)) as [Hf|Hf].
  { rewrite applySwapInternal_fee_only by done. cbn [fst].
    split; [apply chargeFees_bookFrame|apply chargeFees_feeGrowth_le]. }
  rewrite applySwapInternal_unfold by done. unfold executeCLMMSwap.
  pose proof (executeCLMMSwap_loop_walkFrame lm zeroForOne
    (Z.to_nat (amountIn - totalFee fees)) (chargeFees zeroForOne fees p)
    (sqrtPriceX64 (chargeFees zeroForOne fees p))
    (tickCurrent (chargeFees zeroForOne fees p)) 0 (amountIn - totalFee fees)) as Hw.
  apply walkFrame_inv in Hw. destruct Hw as (Hb & H0 & H1).
  pose proof (chargeFees_bookFrame zeroForOne fees p) as Hb'.
  destruct (chargeFees_feeGrowth_le zeroForOne fees p) as [Hle0 Hle1].
  destruct (executeCLMMSwap_loop _ _ _ _ _ _ _ _) as [p' [r|e]];
    cbn [fst] in *; (split; [by rewrite <- Hb', <- Hb|]);
    unfold feeGrowth_le; cbn; lia.
Qed.

Lemma updateTickFeeGrowthForFlashSwap_frames (p : Pool) :
  bookFrame (updateTickFeeGrowthForFlashSwap p) = bookFrame p /\
  feeGrowthGlobal0X64 (updateTickFeeGrowthForFlashSwap p) = feeGrowthGlobal0X64 p /\
  feeGrowthGlobal1X64 (updateTickFeeGrowthForFlashSwap p) = feeGrowthGlobal1X64 p.
Proof.
  unfold updateTickFeeGrowthForFlashSwap, bookFrame. cbn.
  repeat split. f_equal. rewrite <- map_fmap_compose. by apply map_fmap_ext.
Qed.

Lemma applyRepayFlashSwap_frames (xd yd px py : Z) (rx ry : option Z) (p : Pool) :
  bookFrame (applyRepayFlashSwap xd yd px py rx ry p) = bookFrame p /\
  feeGrowth_le p (applyRepayFlashSwap xd yd px py rx ry p).
Proof.
  unfold applyRepayFlashSwap. cbv zeta.
  set (feeX := if xd <? px then _ else 0). set (feeY := if yd <? py then _ else 0).
  set (p1 := if 0 <? feeX then _ else p).
  assert (H1 : bookFrame p1 = bookFrame p /\ feeGrowth_le p p1).
  { subst p1. destruct (Z.ltb_spec 0 feeX) as [Hx|Hx].
    - split; [apply (updateFeeGrowth_bookFrame feeX true p)|].
      exact (updateFeeGrowth_le feeX true p Hx).
    - unfold feeGrowth_le. split; [done|lia]. }
  clearbody p1. destruct H1 as [Hb1 [Hx0 Hx1]].
  set (p2 := if 0 <? feeY then _ else p1).
  assert (H2 : bookFrame p2 = bookFrame p1 /\ feeGrowth_le p1 p2).
  { subst p2. destruct (Z.ltb_spec 0 feeY) as [Hy|Hy].
    - split; [apply (updateFeeGrowth_bookFrame feeY false p1)|].
      exact (updateFeeGrowth_le feeY false p1 Hy).
    - unfold feeGrowth_le. split; [done|lia]. }
  clearbody p2. destruct H2 as [Hb2 [Hy0 Hy1]].
  set (p3 := match rx with Some r => set_reserveA r p2 | None => p2 end).
  set (p4 := match ry with Some r => set_reserveB r p3 | None => p3 end).
  assert (H4 : bookFrame p4 = bookFrame p2 /\
               feeGrowthGlobal0X64 p4 = feeGrowthGlobal0X64 p2 /\
               feeGrowthGlobal1X64 p4 = feeGrowthGlobal1X64 p2).
  { subst p4 p3. by destruct rx, ry. }
  clearbody p4. clear p3. destruct H4 as (Hb4 & H40 & H41).
  destruct (updateTickFeeGrowthForFlashSwap_frames p4) as (Hb5 & H50 & H51).
  split; [congruence|]. unfold feeGrowth_le. lia.
Qed.

(** X3: the swap engine, the validation harness, the flash-swap repay and
    the estimator never add or drop a tick: from a pool whose [ticks] and
    [tickBitmap] hold the same indices they lead to such a pool again. *)
Theorem tickBook_consistency_swaps (lm : Libm) (p : Pool) :
  tickBookConsistent p ->
  (forall amountIn zeroForOne,
      tickBookConsistent (applySwap lm amountIn zeroForOne p).1) /\
  (forall amountIn zeroForOne expectedAmountOut expectedFee expectedProtocolFee,
      tickBookConsistent
        (applySwapWithValidation lm amountIn zeroForOne
           expectedAmountOut expectedFee expectedProtocolFee p).1) /\
  (forall amountXDebt amountYDebt paidX paidY reserveX reserveY,
      tickBookConsistent
        (applyRepayFlashSwap amountXDebt amountYDebt paidX paidY reserveX reserveY p)) /\
  (forall amountIn zeroForOne,
      tickBookConsistent (estimateAmountOut lm amountIn zeroForOne p).1).
Proof.
  intros Hp. repeat apply conj.
  - intros a z. unfold applySwap.
    destruct (calculateFees p a) as [fees|e]; [|done].
    eapply tickBookConsistent_bookFrame; [|exact Hp].
    apply applySwapInternal_frames.
  - intros a z e1 e2 e3. unfold applySwapWithValidation. cbv zeta.
    set (p0 := set_validationStats _ p).
    assert (H0 : bookFrame p0 = bookFrame p) by done. clearbody p0.
    destruct (calculateFees p0 a) as [fees|e];
      [|by eapply tickBookConsistent_bookFrame].
    match goal with
    | |- context [applySwapInternal lm a z ?fs p0] =>
        destruct (applySwapInternal_frames lm a z fs p0) as [Hb _];
        destruct (applySwapInternal lm a z fs p0) as [p1 [out|e]]
    end; cbn [fst] in *;
      (eapply tickBookConsistent_bookFrame; [|exact Hp]);
      by rewrite <- H0, <- Hb.
  - intros. eapply tickBookConsistent_bookFrame; [|exact Hp].
    apply applyRepayFlashSwap_frames.
  - intros a z. eapply tickBookConsistent_bookFrame; [|exact Hp].
    apply walkFrame_inv, estimateAmountOut_walkFrame.
Qed.

(** X3 at the test pool and [applySwap(10000, True)]. *)
Lemma tickBook_consistency_swaps_witness :
  tickBookConsistent pool_setUp /\
  tickBookConsistent (applySwap libm_sample 10000 true pool_setUp).1.
Proof.
  split.
  - exact tickBookConsistent_setUp.
  - exact (proj1 (tickBook_consistency_swaps libm_sample pool_setUp
                    tickBookConsistent_setUp) 10000 true).
Defined.

Lemma applyLiquidityDelta_feeGrowth (tickLower tickUpper liquidityDelta : Z) (p : Pool) :
  feeGrowthGlobal0X64 (applyLiquidityDelta tickLower tickUpper liquidityDelta p) =
    feeGrowthGlobal0X64 p /\
  feeGrowthGlobal1X64 (applyLiquidityDelta tickLower tickUpper liquidityDelta p) =
    feeGrowthGlobal1X64 p.
Proof.
  unfold applyLiquidityDelta. destruct (liquidityDelta =? 0); [done|]. cbv zeta.
  set (g := if 0 <=? liquidityDelta then _ else _). clearbody g.
  assert (Hu : forall t n q,
    feeGrowthGlobal0X64 (updateTickData t n g q) = feeGrowthGlobal0X64 q /\
    feeGrowthGlobal1X64 (updateTickData t n g q) = feeGrowthGlobal1X64 q).
  { intros t n q. unfold updateTickData. by destruct (_ && _). }
  destruct (Hu tickUpper (- liquidityDelta)
              (updateTickData tickLower liquidityDelta g p)) as [H0 H1].
  destruct (Hu tickLower liquidityDelta p) as [H0' H1'].
  destruct (_ && _); [destruct (_ <? 0)|]; cbn; split; congruence.
Qed.

(** X4: the global fee growth never decreases.  [applySwap],
    [applySwapWithValidation], [applyRepayFlashSwap] and [applyLiquidityDelta]
    leave [feeGrowthGlobal0X64] and [feeGrowthGlobal1X64] at least as large as
    they found them (also when a swap stops on an exception). *)
Theorem feeGrowthGlobal_monotone (lm : Libm) (p : Pool) :
  (forall amountIn zeroForOne,
      feeGrowth_le p (applySwap lm amountIn zeroForOne p).1) /\
  (forall amountIn zeroForOne expectedAmountOut expectedFee expectedProtocolFee,
      feeGrowth_le p
        (applySwapWithValidation lm amountIn zeroForOne
           expectedAmountOut expectedFee expectedProtocolFee p).1) /\
  (forall amountXDebt amountYDebt paidX paidY reserveX reserveY,
      feeGrowth_le p
        (applyRepayFlashSwap amountXDebt amountYDebt paidX paidY reserveX reserveY p)) /\
  (forall tickLower tickUpper liquidityDelta,
      feeGrowth_le p (applyLiquidityDelta tickLower tickUpper liquidityDelta p)).
Proof.
  repeat apply conj.
  - intros a z. unfold applySwap.
    destruct (calculateFees p a) as [fees|e].
    + apply applySwapInternal_frames.
    + unfold feeGrowth_le. cbn. lia.
  - intros a z e1 e2 e3. unfold applySwapWithValidation. cbv zeta.
    set (p0 := set_validationStats _ p).
    assert (H0 : feeGrowthGlobal0X64 p0 = feeGrowthGlobal0X64 p /\
                 feeGrowthGlobal1X64 p0 = feeGrowthGlobal1X64 p) by done.
    clearbody p0. destruct H0 as [H0 H1].
    destruct (calculateFees p0 a) as [fees|e];
      [|unfold feeGrowth_le; cbn; lia].
    match goal with
    | |- context [applySwapInternal lm a z ?fs p0] =>
        destruct (applySwapInternal_frames lm a z fs p0) as [_ [Hle0 Hle1]];
        destruct (applySwapInternal lm a z fs p0) as [p1 [out|e]]
    end; unfold feeGrowth_le; cbn [fst] in *; cbn; lia.
  - intros. apply applyRepayFlashSwap_frames.
  - intros tl tu d. destruct (applyLiquidityDelta_feeGrowth tl tu d p).
    unfold feeGrowth_le. lia.
Qed.

(** ** Neighbour lookup *)

Section sorted_head.
Context {A : Type} (R : relation A) `{!RelDecision R}.
Context `{!Transitive R, !Total R, !AntiSymm (=) R}.

(** The head of a sorted list is its least element. *)
Lemma head_merge_sort_Some (l : list A) (t : A) :
  head (merge_sort R l) = Some t <-> t ∈ l /\ forall u, u ∈ l -> R t u.
Proof.
  pose proof (StronglySorted_merge_sort R l) as Hs.
  pose proof (merge_sort_Permutation R l) as Hp.
  destruct (merge_sort R l) as [|t' s] eqn:Hm; simpl.
  - split; [done|]. intros [Hin _]. rewrite <- Hp in Hin.
    by apply elem_of_nil in Hin.
  - apply StronglySorted_cons in Hs as [Ht' _].
    assert (Hmin : forall u, u ∈ l -> R t' u).
    { intros u Hu. rewrite <- Hp in Hu. apply elem_of_cons in Hu as [->|Hu].
      - by destruct (total R t' t').
      - rewrite Forall_forall in Ht'. by apply Ht'. }
    assert (Hin' : t' ∈ l) by (rewrite <- Hp; left).
    split.
    + intros [= <-]. done.
    + intros [Hin Hle]. f_equal. apply (anti_symm R); auto.
Qed.

Lemma head_merge_sort_None (l : list A) :
  head (merge_sort R l) = None <-> l = [].
Proof.
  rewrite head_None. pose proof (merge_sort_Permutation R l) as Hp. split.
  - intros H. rewrite H in Hp. by apply Permutation_nil_l in Hp.
  - by intros ->.
Qed.
End sorted_head.

#[local] Instance Z_ge_trans : Transitive Z.ge.
Proof. intros x y z. lia. Qed.

#[local] Instance Z_ge_total : Total Z.ge.
Proof. intros x y. lia. Qed.

#[local] Instance Z_ge_antisymm : AntiSymm (=) Z.ge.
Proof. intros x y. lia. Qed.

(** X5: [getNextTick] finds the nearest initialized tick.  For a swap
    downwards it returns the greatest member of [tickBitmap] strictly below
    [currentTick], for a swap upwards the least member strictly above it, and
    [None] exactly when [tickBitmap] has no member on that side. *)
Theorem getNextTick_nearest (p : Pool) (currentTick : Z) :
  (forall t, getNextTick p currentTick true = Some t <->
     t ∈ tickBitmap p /\ t < currentTick /\
     forall u, u ∈ tickBitmap p -> u < currentTick -> u <= t) /\
  (getNextTick p currentTick true = None <->
     forall u, u ∈ tickBitmap p -> currentTick <= u) /\
  (forall t, getNextTick p currentTick false = Some t <->
     t ∈ tickBitmap p /\ currentTick < t /\
     forall u, u ∈ tickBitmap p -> currentTick < u -> t <= u) /\
  (getNextTick p currentTick false = None <->
     forall u, u ∈ tickBitmap p -> u <= currentTick).
Proof.
  unfold getNextTick. split; [|split; [|split]].
  - intros t. rewrite (head_merge_sort_Some Z.ge), list_elem_of_filter, elem_of_elements.
    split.
    + intros [[Hlt Hin] Hmax]. repeat split; try done.
      intros u Hu Hult. apply Z.ge_le, Hmax.
      by rewrite list_elem_of_filter, elem_of_elements.
    + intros (Hin & Hlt & Hmax). split; [done|].
      intros u [Hult Hu]%list_elem_of_filter. rewrite elem_of_elements in Hu.
      apply Z.le_ge. auto.
  - rewrite (head_merge_sort_None Z.ge). split.
    + intros Hnil u Hu. destruct (Z.le_gt_cases currentTick u) as [|Hlt]; [done|].
      assert (Hin : u ∈ filter (fun tick => tick < currentTick) (elements (tickBitmap p))).
      { by rewrite list_elem_of_filter, elem_of_elements. }
      rewrite Hnil in Hin. by apply elem_of_nil in Hin.
    + intros Hall. apply elem_of_nil_inv. intros u [Hlt Hu]%list_elem_of_filter.
      rewrite elem_of_elements in Hu. specialize (Hall u Hu). lia.
  - intros t. rewrite (head_merge_sort_Some Z.le), list_elem_of_filter, elem_of_elements.
    split.
    + intros [[Hlt Hin] Hmin]. repeat split; try done.
      intros u Hu Hult. apply Hmin.
      by rewrite list_elem_of_filter, elem_of_elements.
    + intros (Hin & Hlt & Hmin). split; [done|].
      intros u [Hult Hu]%list_elem_of_filter. rewrite elem_of_elements in Hu. auto.
  - rewrite (head_merge_sort_None Z.le). split.
    + intros Hnil u Hu. destruct (Z.le_gt_cases u currentTick) as [|Hlt]; [done|].
      assert (Hin : u ∈ filter (fun tick => currentTick < tick) (elements (tickBitmap p))).
      { rewrite list_elem_of_filter, elem_of_elements. split; [lia|done]. }
      rewrite Hnil in Hin. by apply elem_of_nil in Hin.
    + intros Hall. apply elem_of_nil_inv. intros u [Hlt Hu]%list_elem_of_filter.
      rewrite elem_of_elements in Hu. specialize (Hall u Hu). lia.
Qed.

(** ** Liquidity bookkeeping *)

Lemma Pool_eq (p q : Pool) :
  configFrame p = configFrame q -> liquidity p = liquidity q ->
  ticks p = ticks q -> tickBitmap p = tickBitmap q -> p = q.
Proof.
  destruct p, q. unfold configFrame. cbn. intros [= -> -> -> -> -> -> -> -> -> -> -> -> -> ->].
  by intros -> -> ->.
Qed.

Lemma updateTickData_ticks_lookup (tick netDelta grossDelta t : Z) (p : Pool) :
  ticks (updateTickData tick netDelta grossDelta p) !! t =
  if decide (tick = t) then tickAfter (ticks p !! t) netDelta grossDelta
  else ticks p !! t.
Proof.
  destruct (decide (tick = t)) as [<-|Hne].
  - apply updateTickData_lookup_eq.
  - by apply updateTickData_lookup_ne.
Qed.

Lemma updateTickData_configFrame (tick netDelta grossDelta : Z) (p : Pool) :
  configFrame (updateTickData tick netDelta grossDelta p) = configFrame p.
Proof.
  unfold updateTickData. by destruct (_ && _).
Qed.

Lemma applyLiquidityDelta_configFrame (tickLower tickUpper liquidityDelta : Z) (p : Pool) :
  configFrame (applyLiquidityDelta tickLower tickUpper liquidityDelta p) = configFrame p.
Proof.
  unfold applyLiquidityDelta. destruct (liquidityDelta =? 0); [done|]. cbv zeta.
  set (g := if 0 <=? liquidityDelta then _ else _). clearbody g.
  pose proof (eq_trans
                (updateTickData_configFrame tickUpper (- liquidityDelta) g
                   (updateTickData tickLower liquidityDelta g p))
                (updateTickData_configFrame tickLower liquidityDelta g p)) as H2.
  destruct (_ && _); [destruct (_ <? 0)|]; exact H2.
Qed.

Lemma applyLiquidityDelta_ticks_lookup (tickLower tickUpper liquidityDelta t : Z) (p : Pool) :
  liquidityDelta <> 0 ->
  ticks (applyLiquidityDelta tickLower tickUpper liquidityDelta p) !! t =
  ticks (updateTickData tickUpper (- liquidityDelta) liquidityDelta
           (updateTickData tickLower liquidityDelta liquidityDelta p)) !! t.
Proof.
  intros Hd. rewrite applyLiquidityDelta_eq_with. unfold applyLiquidityDelta_with.
  destruct (Z.eqb_spec liquidityDelta 0); [done|]. cbv zeta.
  destruct (_ && _); [destruct (_ <? 0)|]; reflexivity.
Qed.

Lemma tickAfter_undo (o : option TickData) (netDelta delta : Z) :
  0 < delta -> (forall d, o = Some d -> tickLive d) ->
  tickAfter (tickAfter o netDelta delta) (- netDelta) (- delta) = o.
Proof.
  intros Hd Hlive. unfold tickAfter at 2.
  destruct o as [[n g f0 f1]|]; cbn [default from_option id liquidityNet liquidityGross
    feeGrowthOutside0X64 feeGrowthOutside1X64 TickData_zero].
  - destruct (Hlive _ eq_refl) as [Hg Hnd]. cbn in Hg, Hnd.
    destruct (Z.leb_spec (g + delta) 0); [lia|]. cbn [andb].
    unfold tickAfter.
    cbn [default from_option id liquidityNet liquidityGross
         feeGrowthOutside0X64 feeGrowthOutside1X64].
    replace (Z.max 0 (g + delta) + - delta) with g by lia.
    replace (n + netDelta + - netDelta) with n by lia.
    destruct (Z.leb_spec g 0); destruct (Z.eqb_spec n 0); cbn [andb];
      first [lia | do 2 f_equal; lia].
  - destruct (Z.leb_spec (0 + delta) 0); [lia|]. cbn [andb].
    unfold tickAfter.
    cbn [default from_option id liquidityNet liquidityGross
         feeGrowthOutside0X64 feeGrowthOutside1X64].
    replace (Z.max 0 (0 + delta) + - delta) with 0 by lia.
    replace (0 + netDelta + - netDelta) with 0 by lia.
    reflexivity.
Qed.

Lemma applyLiquidityDelta_undo_ticks (tickLower tickUpper liquidityDelta : Z) (p : Pool) :
  0 < liquidityDelta -> tickLower <> tickUpper -> ticksLive p ->
  ticks (applyLiquidityDelta tickLower tickUpper (- liquidityDelta)
           (applyLiquidityDelta tickLower tickUpper liquidityDelta p)) = ticks p.
Proof.
  intros Hd Hne Hlive. apply map_eq. intros t.
  rewrite applyLiquidityDelta_ticks_lookup by lia.
  rewrite !updateTickData_ticks_lookup.
  rewrite !applyLiquidityDelta_ticks_lookup by lia.
  rewrite !updateTickData_ticks_lookup.
  rewrite Z.opp_involutive.
  destruct (decide (tickUpper = t)) as [<-|Hu].
  - destruct (decide (tickLower = tickUpper)); [done|].
    assert (Hl : forall d, ticks p !! tickUpper = Some d -> tickLive d)
      by (intros d Hd'; by eapply Hlive).
    pose proof (tickAfter_undo (ticks p !! tickUpper) (- liquidityDelta)
                  liquidityDelta Hd Hl) as Hx.
    by rewrite Z.opp_involutive in Hx.
  - destruct (decide (tickLower = t)) as [<-|Hl]; [|done].
    apply tickAfter_undo; [done|]. intros d Hd'. by eapply Hlive.
Qed.

Lemma configFrame_tickCurrent (p q : Pool) :
  configFrame p = configFrame q -> tickCurrent p = tickCurrent q.
Proof.
  unfold configFrame. intros H. injection H. intros. congruence.
Qed.

(** X7: opening a position and closing it again is a no-op.  On a pool with
    [liquidity >= 0] whose tick book is consistent and holds live entries
    only, [applyLiquidityDelta(tickLower, tickUpper, d)] followed by
    [applyLiquidityDelta(tickLower, tickUpper, -d)], for [d > 0] and two
    different ticks, gives back the pool it started from: the same ticks
    (entries created for the position are deleted again), the same bitmap,
    the same active liquidity. *)
Theorem applyLiquidityDelta_undo (tickLower tickUpper liquidityDelta : Z) (p : Pool) :
  0 < liquidityDelta -> tickLower <> tickUpper -> 0 <= liquidity p ->
  tickBookConsistent p -> ticksLive p ->
  applyLiquidityDelta tickLower tickUpper (- liquidityDelta)
    (applyLiquidityDelta tickLower tickUpper liquidityDelta p) = p.
Proof.
  intros Hd Hne Hl Hcons Hlive.
  set (m := applyLiquidityDelta tickLower tickUpper liquidityDelta p).
  assert (Hticks : ticks (applyLiquidityDelta tickLower tickUpper (- liquidityDelta) m)
                   = ticks p) by by apply applyLiquidityDelta_undo_ticks.
  assert (Hcfg : configFrame m = configFrame p)
    by apply applyLiquidityDelta_configFrame.
  apply Pool_eq.
  - by rewrite applyLiquidityDelta_configFrame.
  - rewrite applyLiquidityDelta_liquidity.
    rewrite (configFrame_tickCurrent _ _ Hcfg). subst m.
    rewrite applyLiquidityDelta_liquidity.
    destruct (Z.eqb_spec (- liquidityDelta) 0); [lia|].
    destruct (Z.eqb_spec liquidityDelta 0); [lia|]. cbn [orb].
    destruct (negb _); lia.
  - exact Hticks.
  - apply set_eq. intros t.
    assert (Hc : tickBookConsistent
                   (applyLiquidityDelta tickLower tickUpper (- liquidityDelta) m)).
    { subst m. by do 2 apply applyLiquidityDelta_consistent. }
    by rewrite <- (Hc t), <- (Hcons t), Hticks.
Qed.

Lemma ticksLive_setUp : ticksLive pool_setUp.
Proof.
  intros t d. simpl. rewrite lookup_empty. discriminate.
Defined.

(** X7 at the test pool and the position of liquidity 1000 on [5, 10). *)
Lemma applyLiquidityDelta_undo_witness :
  0 < 1000 /\ 5 <> 10 /\ 0 <= liquidity pool_setUp /\
  applyLiquidityDelta 5 10 (- 1000) (applyLiquidityDelta 5 10 1000 pool_setUp) = pool_setUp.
Proof.
  assert (H1 : 0 < 1000) by lia.
  assert (H2 : 5 <> 10) by lia.
  assert (H3 : 0 <= liquidity pool_setUp) by (simpl; lia).
  split; [exact H1|]. split; [exact H2|]. split; [exact H3|].
  exact (applyLiquidityDelta_undo 5 10 1000 pool_setUp H1 H2 H3
           tickBookConsistent_setUp ticksLive_setUp).
Defined.

Lemma tickAfter_live (o : option TickData) (netDelta grossDelta : Z) (d : TickData) :
  tickAfter o netDelta grossDelta = Some d -> tickLive d.
Proof.
  unfold tickAfter, tickLive.
  set (g := liquidityGross (default TickData_zero o) + grossDelta).
  set (n := liquidityNet (default TickData_zero o) + netDelta).
  destruct (Z.leb_spec g 0); destruct (Z.eqb_spec n 0); cbn [andb];
    intros [= <-]; cbn; lia.
Qed.

Lemma updateTickData_live (tick netDelta grossDelta : Z) (p : Pool) :
  ticksLive p -> ticksLive (updateTickData tick netDelta grossDelta p).
Proof.
  intros Hlive t d. rewrite updateTickData_ticks_lookup.
  destruct (decide (tick = t)); [apply tickAfter_live|apply Hlive].
Qed.

Lemma applyLiquidityDelta_live (tickLower tickUpper liquidityDelta : Z) (p : Pool) :
  ticksLive p -> ticksLive (applyLiquidityDelta tickLower tickUpper liquidityDelta p).
Proof.
  intros Hlive. destruct (Z.eq_dec liquidityDelta 0) as [->|Hd]; [done|].
  intros t d. rewrite applyLiquidityDelta_ticks_lookup by done.
  by apply updateTickData_live, updateTickData_live.
Qed.

Lemma ticksLive_bookFrame (p p' : Pool) :
  bookFrame p' = bookFrame p -> ticksLive p -> ticksLive p'.
Proof.
  unfold bookFrame. intros [= _ Ht] Hp t d' Hd'.
  apply (f_equal (fun m => m !! t)) in Ht. rewrite !lookup_fmap, Hd' in Ht.
  destruct (ticks p !! t) as [d|] eqn:Hd; [|done].
  injection Ht as Hn Hg. destruct (Hp t d Hd). unfold tickLive. lia.
Qed.

Lemma applySwap_bookFrame (lm : Libm) (amountIn : Z) (zeroForOne : bool) (p : Pool) :
  bookFrame (applySwap lm amountIn zeroForOne p).1 = bookFrame p.
Proof.
  unfold applySwap. destruct (calculateFees p amountIn) as [fees|e]; [|done].
  apply applySwapInternal_frames.
Qed.

Lemma applySwapWithValidation_bookFrame (lm : Libm) (amountIn : Z) (zeroForOne : bool)
    (e1 e2 e3 : option Z) (p : Pool) :
  bookFrame (applySwapWithValidation lm amountIn zeroForOne e1 e2 e3 p).1 = bookFrame p.
Proof.
  unfold applySwapWithValidation. cbv zeta.
  set (p0 := set_validationStats _ p).
  assert (H0 : bookFrame p0 = bookFrame p) by done. clearbody p0.
  destruct (calculateFees p0 amountIn) as [fees|e]; [|done].
  match goal with
  | |- context [applySwapInternal lm amountIn zeroForOne ?fs p0] =>
      destruct (applySwapInternal_frames lm amountIn zeroForOne fs p0) as [Hb _];
      destruct (applySwapInternal lm amountIn zeroForOne fs p0) as [p1 [out|e]]
  end; cbn [fst] in *; by rewrite <- H0, <- Hb.
Qed.

(** X6: the tick book holds live entries only.  Whatever the pool, the entry
    [updateTickData] leaves at its tick has [liquidityGross >= 0] and is not
    drained (not both [liquidityGross <= 0] and [liquidityNet = 0]); and from
    a pool all of whose entries are such, [applyLiquidityDelta], [applySwap],
    [applySwapWithValidation], [applyRepayFlashSwap] and [estimateAmountOut]
    lead to such a pool again. *)
Theorem ticksLive_preserved (lm : Libm) (p : Pool) :
  (forall tick netDelta grossDelta d,
      ticks (updateTickData tick netDelta grossDelta p) !! tick = Some d -> tickLive d) /\
  (ticksLive p ->
   (forall tick netDelta grossDelta,
       ticksLive (updateTickData tick netDelta grossDelta p)) /\
   (forall tickLower tickUpper liquidityDelta,
       ticksLive (applyLiquidityDelta tickLower tickUpper liquidityDelta p)) /\
   (forall amountIn zeroForOne, ticksLive (applySwap lm amountIn zeroForOne p).1) /\
   (forall amountIn zeroForOne expectedAmountOut expectedFee expectedProtocolFee,
       ticksLive (applySwapWithValidation lm amountIn zeroForOne
                    expectedAmountOut expectedFee expectedProtocolFee p).1) /\
   (forall amountXDebt amountYDebt paidX paidY reserveX reserveY,
       ticksLive (applyRepayFlashSwap amountXDebt amountYDebt paidX paidY
                    reserveX reserveY p)) /\
   (forall amountIn zeroForOne,
       ticksLive (estimateAmountOut lm amountIn zeroForOne p).1)).
Proof.
  split.
  { intros tick netDelta grossDelta d. rewrite updateTickData_lookup_eq.
    apply (tickAfter_live (ticks p !! tick)). }
  intros Hlive. repeat apply conj.
  - intros. by apply updateTickData_live.
  - intros. by apply applyLiquidityDelta_live.
  - intros. eapply ticksLive_bookFrame; [apply applySwap_bookFrame|done].
  - intros. eapply ticksLive_bookFrame; [apply applySwapWithValidation_bookFrame|done].
  - intros. eapply ticksLive_bookFrame; [apply applyRepayFlashSwap_frames|done].
  - intros. eapply ticksLive_bookFrame; [|done].
    apply walkFrame_inv, estimateAmountOut_walkFrame.
Qed.

(** X6 at the test pool and [applyLiquidityDelta(5, 10, 1000)]. *)
Lemma ticksLive_preserved_witness :
  ticksLive pool_setUp /\ ticksLive pool_position.
Proof.
  split.
  - exact ticksLive_setUp.
  - exact (proj1 (proj2 (proj2 (ticksLive_preserved libm_sample pool_setUp)
                           ticksLive_setUp)) 5 10 1000).
Defined.

(** ** The fee split in closed form *)

(** X8: for a positive amount and a positive effective rate [ppm],
    [calculateFees] returns [totalFee = ceil(amountIn * ppm / 10^6)], which is
    at least 1, [protocolFee = totalFee // 5] and [lpFee = totalFee -
    totalFee // 5]: the guards [rawFee <= 0], [lpFee < 1] and
    [protocolFee < 0] never fire. *)
Theorem calculateFees_closed_form (p : Pool) (amountIn ppm : Z) :
  0 < amountIn -> effectivePpm p = Ok ppm -> 0 < ppm ->
  let rawFee := (amountIn * ppm + 999999) / 1000000 in
  1 <= rawFee /\
  (rawFee - 1) * 1000000 < amountIn * ppm <= rawFee * 1000000 /\
  calculateFees p amountIn =
    Ok {| totalFee := rawFee; lpFee := rawFee - rawFee / 5; protocolFee := rawFee / 5 |}.
Proof.
  intros Ha Hppm Hp rawFee.
  assert (Hraw : (rawFee - 1) * 1000000 < amountIn * ppm <= rawFee * 1000000).
  { subst rawFee.
    pose proof (Z.div_mod (amountIn * ppm + 999999) 1000000 ltac:(lia)).
    pose proof (Z.mod_pos_bound (amountIn * ppm + 999999) 1000000 ltac:(lia)). lia. }
  assert (H1 : 1 <= rawFee) by nia.
  split; [exact H1|]. split; [exact Hraw|].
  rewrite (calculateFees_unfold p amountIn ppm Ha Hppm).
  destruct (Z.leb_spec ppm 0); [lia|]. cbv zeta.
  replace (amountIn * ppm + 1000000 - 1) with (amountIn * ppm + 999999) by lia.
  fold rawFee. destruct (Z.leb_spec rawFee 0); [lia|].
  assert (Hl : (rawFee * 4 + 5 - 1) / 5 = rawFee - rawFee / 5).
  { pose proof (Z.div_mod rawFee 5 ltac:(lia)).
    pose proof (Z.mod_pos_bound rawFee 5 ltac:(lia)).
    symmetry. apply Z.div_unique with (r := 4 - rawFee mod 5); lia. }
  rewrite Hl.
  assert (0 <= rawFee / 5 <= rawFee - 1).
  { split; [apply Z.div_pos; lia|].
    pose proof (Z.div_mod rawFee 5 ltac:(lia)).
    pose proof (Z.mod_pos_bound rawFee 5 ltac:(lia)). lia. }
  f_equal. f_equal; lia.
Qed.

(** X8 at the test pool (100 ppm) and an input of 10000. *)
Lemma calculateFees_closed_form_witness :
  0 < 10000 /\ effectivePpm pool_setUp = Ok 100 /\ 0 < 100 /\
  calculateFees pool_setUp 10000 = Ok {| totalFee := 1; lpFee := 1; protocolFee := 0 |}.
Proof.
  assert (H1 : 0 < 10000) by lia.
  assert (H2 : effectivePpm pool_setUp = Ok 100) by reflexivity.
  assert (H3 : 0 < 100) by lia.
  split; [exact H1|]. split; [exact H2|]. split; [exact H3|].
  exact (proj2 (proj2 (calculateFees_closed_form pool_setUp 10000 100 H1 H2 H3))).
Defined.

(** ** The validation harness without expectations *)

(** X9: [applySwapWithValidation(amountIn, zeroForOne)] with no expected
    value is [applySwap(amountIn, zeroForOne)] plus the counters: the pool it
    leaves is the one [applySwap] leaves but for [validationStats], where
    [totalSwaps] is one more (also when the swap raises) and, when the swap
    returns, [exactMatches] is one more and no mismatch is recorded; the
    amount out is [applySwap]'s, the fees reported are [calculateFees]'s. *)
Theorem applySwapWithValidation_plain (lm : Libm) (amountIn : Z) (zeroForOne : bool)
    (p : Pool) :
  let s := validationStats p in
  let q := applySwapWithValidation lm amountIn zeroForOne None None None p in
  match applySwap lm amountIn zeroForOne p with
  | (p', Raise e) => q = (set_validationStats (countSwap s) p', Raise e)
  | (p', Ok out) =>
      exists fees, calculateFees p amountIn = Ok fees /\
        q = (set_validationStats
               {| totalSwaps := totalSwaps s + 1;
                  amountOutMismatches := amountOutMismatches s;
                  feeMismatches := feeMismatches s;
                  protocolFeeMismatches := protocolFeeMismatches s;
                  totalAmountOutDifference := totalAmountOutDifference s;
                  totalFeeDifference := totalFeeDifference s;
                  totalProtocolFeeDifference := totalProtocolFeeDifference s;
                  exactMatches := exactMatches s + 1 |} p',
             Ok {| vs_amountOut := out; vs_feeAmount := lpFee fees;
                   vs_protocolFee := protocolFee fees;
                   vs_validation :=
                     {| amountOutMatch := true; feeMatch := true;
                        protocolFeeMatch := true; amountOutDifference := 0;
                        feeDifference := 0; protocolFeeDifference := 0;
                        isExactMatch := true |} |})
  end.
Proof.
  intros s q. subst q. unfold applySwapWithValidation, applySwap. cbv zeta.
  change (calculateFees (set_validationStats (countSwap (validationStats p)) p) amountIn)
    with (calculateFees p amountIn).
  destruct (calculateFees p amountIn) as [fees|e] eqn:Hfees; [|reflexivity].
  cbn [default from_option id].
  replace {| totalFee := lpFee fees + protocolFee fees; lpFee := lpFee fees;
             protocolFee := protocolFee fees |} with fees
    by (rewrite (calculateFees_sum _ _ _ Hfees); by destruct fees).
  rewrite applySwapInternal_stats.
  destruct (applySwapInternal lm amountIn zeroForOne fees p) as [p' [out|e]];
    cbn [fst snd]; [|reflexivity].
  exists fees. split; [reflexivity|]. by destruct p'.
Qed.

(** ** The flash-swap repay *)

Lemma updateFeeGrowth_accounts (feeAmount : Z) (zeroForOne : bool) (p : Pool) :
  totalSwapFee0 (updateFeeGrowth feeAmount zeroForOne p) = totalSwapFee0 p /\
  totalSwapFee1 (updateFeeGrowth feeAmount zeroForOne p) = totalSwapFee1 p /\
  reserveA (updateFeeGrowth feeAmount zeroForOne p) = reserveA p /\
  reserveB (updateFeeGrowth feeAmount zeroForOne p) = reserveB p.
Proof.
  unfold updateFeeGrowth. by destruct (0 <? liquidity p), zeroForOne.
Qed.

Lemma applyRepayFlashSwap_accounts (xd yd px py : Z) (rx ry : option Z) (p : Pool) :
  let p' := applyRepayFlashSwap xd yd px py rx ry p in
  totalSwapFee0 p' = totalSwapFee0 p + Z.max 0 (px - xd) /\
  totalSwapFee1 p' = totalSwapFee1 p + Z.max 0 (py - yd) /\
  reserveA p' = default (reserveA p) rx /\
  reserveB p' = default (reserveB p) ry.
Proof.
  unfold applyRepayFlashSwap. cbv zeta.
  set (feeX := if xd <? px then _ else 0). set (feeY := if yd <? py then _ else 0).
  assert (HX : feeX = Z.max 0 (px - xd)) by (subst feeX; destruct (Z.ltb_spec xd px); lia).
  assert (HY : feeY = Z.max 0 (py - yd)) by (subst feeY; destruct (Z.ltb_spec yd py); lia).
  set (p1 := if 0 <? feeX then _ else p).
  assert (H1 : totalSwapFee0 p1 = totalSwapFee0 p + feeX /\
               totalSwapFee1 p1 = totalSwapFee1 p /\
               reserveA p1 = reserveA p /\ reserveB p1 = reserveB p).
  { subst p1. destruct (Z.ltb_spec 0 feeX).
    - destruct (updateFeeGrowth_accounts feeX true p) as (E0 & E1 & Ea & Eb).
      cbn [totalSwapFee0 totalSwapFee1 reserveA reserveB set_totalSwapFee0].
      by rewrite E0.
    - repeat apply conj; try reflexivity. lia. }
  clearbody p1. destruct H1 as (H10 & H11 & H1a & H1b).
  set (p2 := if 0 <? feeY then _ else p1).
  assert (H2 : totalSwapFee0 p2 = totalSwapFee0 p1 /\
               totalSwapFee1 p2 = totalSwapFee1 p1 + feeY /\
               reserveA p2 = reserveA p1 /\ reserveB p2 = reserveB p1).
  { subst p2. destruct (Z.ltb_spec 0 feeY).
    - destruct (updateFeeGrowth_accounts feeY false p1) as (E0 & E1 & Ea & Eb).
      cbn [totalSwapFee0 totalSwapFee1 reserveA reserveB set_totalSwapFee1].
      by rewrite E1.
    - repeat apply conj; try reflexivity. lia. }
  clearbody p2. destruct H2 as (H20 & H21 & H2a & H2b).
  destruct rx, ry; cbn; repeat apply conj; congruence.
Qed.

Lemma applyRepayFlashSwap_outside (xd yd px py : Z) (rx ry : option Z) (p : Pool)
    (t : Z) (d : TickData) :
  let p' := applyRepayFlashSwap xd yd px py rx ry p in
  ticks p' !! t = Some d ->
  feeGrowthOutside0X64 d = feeGrowthGlobal0X64 p' /\
  feeGrowthOutside1X64 d = feeGrowthGlobal1X64 p'.
Proof.
  unfold applyRepayFlashSwap. cbv zeta.
  match goal with |- context [updateTickFeeGrowthForFlashSwap ?q] => generalize q end.
  intros q. unfold updateTickFeeGrowthForFlashSwap. cbn. rewrite lookup_fmap.
  destruct (ticks q !! t); [|done]. by intros [= <-].
Qed.

Lemma calculateFeeGrowthInside_settled (tickLower tickUpper tokenIndex : Z) (p : Pool) :
  (forall t d, ticks p !! t = Some d ->
     feeGrowthOutside0X64 d = feeGrowthGlobal0X64 p /\
     feeGrowthOutside1X64 d = feeGrowthGlobal1X64 p) ->
  0 <= feeGrowthGlobal0X64 p -> 0 <= feeGrowthGlobal1X64 p ->
  calculateFeeGrowthInside tickLower tickUpper tokenIndex p = 0.
Proof.
  intros Hout H0 H1. unfold calculateFeeGrowthInside.
  destruct (ticks p !! tickLower) as [dl|] eqn:Hl; [|done].
  destruct (ticks p !! tickUpper) as [du|] eqn:Hu; [|done].
  destruct (Hout _ _ Hl) as [-> ->]. destruct (Hout _ _ Hu) as [-> ->].
  unfold submod.
  destruct (tokenIndex =? 0), (tickCurrent p <? tickLower), (tickUpper <=? tickCurrent p);
    repeat match goal with |- context [?a <? 0] => destruct (Z.ltb_spec a 0) end; lia.
Qed.

(** X10: what a flash-swap repay leaves behind.  [applyRepayFlashSwap] adds
    [max(paid - debt, 0)] to [totalSwapFee0] and to [totalSwapFee1], replaces
    the reserves that are given, and sets the [feeGrowthOutside] of every tick
    to the global fee growth.  On a pool whose global fee growth is not
    negative, every position's fee preview is zero afterwards: the repay
    settles whatever the ticks had accrued. *)
Theorem applyRepayFlashSwap_settles (amountXDebt amountYDebt paidX paidY : Z)
    (reserveX reserveY : option Z) (p : Pool) :
  0 <= feeGrowthGlobal0X64 p -> 0 <= feeGrowthGlobal1X64 p ->
  let p' := applyRepayFlashSwap amountXDebt amountYDebt paidX paidY reserveX reserveY p in
  (forall t d, ticks p' !! t = Some d ->
     feeGrowthOutside0X64 d = feeGrowthGlobal0X64 p' /\
     feeGrowthOutside1X64 d = feeGrowthGlobal1X64 p') /\
  (forall tickLower tickUpper liquidityAmount,
     estimatePositionFees tickLower tickUpper liquidityAmount p' =
     {| fee0 := 0; fee1 := 0 |}) /\
  totalSwapFee0 p' = totalSwapFee0 p + Z.max 0 (paidX - amountXDebt) /\
  totalSwapFee1 p' = totalSwapFee1 p + Z.max 0 (paidY - amountYDebt) /\
  reserveA p' = default (reserveA p) reserveX /\
  reserveB p' = default (reserveB p) reserveY.
Proof.
  intros H0 H1 p'.
  assert (Hout : forall t d, ticks p' !! t = Some d ->
            feeGrowthOutside0X64 d = feeGrowthGlobal0X64 p' /\
            feeGrowthOutside1X64 d = feeGrowthGlobal1X64 p')
    by (intros t d; apply applyRepayFlashSwap_outside).
  split; [exact Hout|]. split; [|apply applyRepayFlashSwap_accounts].
  destruct (applyRepayFlashSwap_frames amountXDebt amountYDebt paidX paidY
              reserveX reserveY p) as [_ [Hg0 Hg1]].
  fold p' in Hg0, Hg1.
  intros tickLower tickUpper liquidityAmount. unfold estimatePositionFees.
  rewrite !calculateFeeGrowthInside_settled by (done || lia).
  by rewrite Z.mul_0_r.
Qed.

(** X10 at the test pool with its position: a repay that pays 10 over the
    debt on token 0. *)
Lemma applyRepayFlashSwap_settles_witness :
  0 <= feeGrowthGlobal0X64 pool_position /\ 0 <= feeGrowthGlobal1X64 pool_position /\
  totalSwapFee0 (applyRepayFlashSwap 0 0 10 0 None None pool_position) =
    totalSwapFee0 pool_position + Z.max 0 (10 - 0).
Proof.
  assert (H0 : 0 <= feeGrowthGlobal0X64 pool_position) by (by vm_compute).
  assert (H1 : 0 <= feeGrowthGlobal1X64 pool_position) by (by vm_compute).
  split; [exact H0|]. split; [exact H1|].
  exact (proj1 (proj2 (proj2
           (applyRepayFlashSwap_settles 0 0 10 0 None None pool_position H0 H1)))).
Defined.

(** ** Fee previews of a position *)

Lemma submod_nonneg (a b : Z) : 0 <= submod a b.
Proof.
  unfold submod. destruct (Z.ltb_spec (a - b) 0); lia.
Qed.

Lemma calculateFeeGrowthInside_nonneg (tickLower tickUpper tokenIndex : Z) (p : Pool) :
  0 <= calculateFeeGrowthInside tickLower tickUpper tokenIndex p.
Proof.
  unfold calculateFeeGrowthInside.
  destruct (ticks p !! tickLower); [|done]. destruct (ticks p !! tickUpper); [|done].
  destruct (tickCurrent p <? tickLower); [apply submod_nonneg|].
  destruct (tickUpper <=? tickCurrent p); apply submod_nonneg.
Qed.

Lemma calculateFeeGrowthInside_uninitialized (tickLower tickUpper tokenIndex : Z) (p : Pool) :
  ticks p !! tickLower = None \/ ticks p !! tickUpper = None ->
  calculateFeeGrowthInside tickLower tickUpper tokenIndex p = 0.
Proof.
  unfold calculateFeeGrowthInside. intros [-> | ->]; [done|].
  by destruct (ticks p !! tickLower).
Qed.

Lemma fee_share_mono (l l' g : Z) :
  0 <= g -> l <= l' -> (l * g) / Z.shiftl 1 64 <= (l' * g) / Z.shiftl 1 64.
Proof.
  intros Hg Hl. apply Z.div_le_mono; [done|]. by apply Z.mul_le_mono_nonneg_r.
Qed.

(** X11: the fee preview of a position.  [calculateFeeGrowthInside] is never
    negative (every branch ends in [submod]); so for [liquidityAmount >= 0]
    both fees of [estimatePositionFees] are non-negative, and they do not
    decrease when [liquidityAmount] grows.  They are zero when one of the two
    ticks is not initialized and when the two ticks coincide.
    [estimateCollectFee] reports the same fees twice ([collectableFees] and
    [totalFees]) and their sum as [estimatedValue]. *)
Theorem estimatePositionFees_nonneg (tickLower tickUpper liquidityAmount : Z) (p : Pool) :
  0 <= liquidityAmount ->
  let f := estimatePositionFees tickLower tickUpper liquidityAmount p in
  let c := estimateCollectFee tickLower tickUpper liquidityAmount p in
  0 <= fee0 f /\ 0 <= fee1 f /\
  (forall more, liquidityAmount <= more ->
     fee0 f <= fee0 (estimatePositionFees tickLower tickUpper more p) /\
     fee1 f <= fee1 (estimatePositionFees tickLower tickUpper more p)) /\
  (ticks p !! tickLower = None \/ ticks p !! tickUpper = None \/ tickLower = tickUpper ->
     f = {| fee0 := 0; fee1 := 0 |}) /\
  collectableFees c = f /\ totalFees c = f /\
  estimatedValue c = fee0 f + fee1 f /\ 0 <= estimatedValue c /\
  0 <= fee0 (feeGrowthInside c) /\ 0 <= fee1 (feeGrowthInside c).
Proof.
  intros HL f c.
  pose proof (calculateFeeGrowthInside_nonneg tickLower tickUpper 0 p) as H0.
  pose proof (calculateFeeGrowthInside_nonneg tickLower tickUpper 1 p) as H1.
  assert (Hf0 : 0 <= fee0 f) by (apply Z.div_pos; [by apply Z.mul_nonneg_nonneg|done]).
  assert (Hf1 : 0 <= fee1 f) by (apply Z.div_pos; [by apply Z.mul_nonneg_nonneg|done]).
  split; [exact Hf0|]. split; [exact Hf1|]. split.
  { intros more Hmore. split; by apply fee_share_mono. }
  split.
  { intros Hz. subst f. unfold estimatePositionFees.
    assert (Hg : forall i, calculateFeeGrowthInside tickLower tickUpper i p = 0).
    { intros i. destruct Hz as [Hz|[Hz|Hz]]; [| |subst tickUpper].
      - apply calculateFeeGrowthInside_uninitialized. by left.
      - apply calculateFeeGrowthInside_uninitialized. by right.
      - apply calculateFeeGrowthInside_diag. }
    by rewrite !Hg, Z.mul_0_r. }
  split; [reflexivity|]. split; [reflexivity|]. split; [reflexivity|].
  split; [change (0 <= fee0 f + fee1 f); lia|]. split; assumption.
Qed.

(** X11 at the test pool with its position of liquidity 1000 on [5, 10). *)
Lemma estimatePositionFees_nonneg_witness :
  0 <= 1000 /\ 0 <= fee0 (estimatePositionFees 5 10 1000 pool_position).
Proof.
  assert (H : 0 <= 1000) by lia.
  split; [exact H|].
  exact (proj1 (estimatePositionFees_nonneg 5 10 1000 pool_position H)).
Defined.

(** ** The tick listing *)

Lemma getFeesAtTick_diag (tick : Z) (p : Pool) :
  getFeesAtTick tick p = {| fee0 := 0; fee1 := 0 |}.
Proof.
  unfold getFeesAtTick. destruct (ticks p !! tick); [|done].
  by rewrite !calculateFeeGrowthInside_diag, Z.mul_0_r.
Qed.

#[local] Instance tick_le_trans : Transitive tick_le.
Proof. unfold tick_le. intros x y z. lia. Qed.

#[local] Instance tick_le_total : Total tick_le.
Proof. unfold tick_le. intros x y. lia. Qed.

Lemma StronglySorted_tick_lt (l : list TickWithFees) :
  StronglySorted tick_le l -> NoDup (twf_tick <$> l) ->
  StronglySorted (fun x y => twf_tick x < twf_tick y) l.
Proof.
  induction 1 as [|x l Hs IH Hx]; [constructor|].
  rewrite fmap_cons, NoDup_cons. intros [Hn Hd]. constructor; [by apply IH|].
  rewrite Forall_forall in Hx |- *. intros y Hy.
  assert (twf_tick x <> twf_tick y).
  { intros E. apply Hn. rewrite E. by apply list_elem_of_fmap_2. }
  specialize (Hx y Hy). unfold tick_le in Hx. lia.
Qed.

(** X12: [getAllTicksWithFees] lists every initialized tick exactly once, in
    strictly ascending order of [tick], with [liquidity] the tick's
    [liquidityGross] and both fees zero. *)
Theorem getAllTicksWithFees_listing (p : Pool) :
  let l := getAllTicksWithFees p in
  StronglySorted (fun x y => twf_tick x < twf_tick y) l /\
  length l = size (ticks p) /\
  (forall x, x ∈ l <->
     exists d, ticks p !! twf_tick x = Some d /\
       twf_liquidity x = liquidityGross d /\ twf_fee0 x = 0 /\ twf_fee1 x = 0).
Proof.
  intros l. subst l. unfold getAllTicksWithFees.
  set (f := fun '(tick, tickData) => _).
  assert (Hf : forall kv, f kv = {| twf_tick := kv.1; twf_liquidity := liquidityGross kv.2;
                                    twf_fee0 := 0; twf_fee1 := 0 |}).
  { intros [k d]. subst f. cbn. by rewrite getFeesAtTick_diag. }
  pose proof (merge_sort_Permutation tick_le (f <$> map_to_list (ticks p))) as Hperm.
  split; [|split].
  - apply StronglySorted_tick_lt; [apply StronglySorted_merge_sort; apply _|].
    rewrite Hperm, <- list_fmap_compose.
    rewrite (list_fmap_ext (twf_tick ∘ f) fst (map_to_list (ticks p)))
      by (intros i kv _; cbn; by rewrite Hf).
    apply NoDup_fst_map_to_list.
  - by rewrite Hperm, length_fmap, length_map_to_list.
  - intros x. rewrite Hperm, list_elem_of_fmap. split.
    + intros ([k d] & -> & Hin). apply elem_of_map_to_list in Hin.
      rewrite Hf. cbn. by exists d.
    + intros (d & Hd & Hl & H0 & H1). exists (twf_tick x, d). split.
      * rewrite Hf. destruct x. cbn in *. by subst.
      * by apply elem_of_map_to_list.
Qed.

(** ** One step of the swap *)

Lemma swapAtPrice_step (p : Pool) (amountIn sqrtPrice : Z) (zeroForOne : bool) :
  0 <= liquidity p -> 0 <= sqrtPrice -> 0 <= amountIn ->
  let r := swapAtPrice p amountIn sqrtPrice zeroForOne in
  0 <= step_amountOut r /\
  (if zeroForOne then 0 <= step_newSqrtPriceX64 r <= sqrtPrice
   else sqrtPrice <= step_newSqrtPriceX64 r) /\
  (if zeroForOne then step_amountOut r <= liquidity p * sqrtPrice / Q64
   else 0 < sqrtPrice -> step_amountOut r <= liquidity p * Q64 / sqrtPrice).
Proof.
  intros HL Hs Ha. unfold swapAtPrice, mulDivRoundingDown, Q64.
  set (Q := Z.shiftl 1 64). assert (HQ : 0 < Q) by done.
  set (L := liquidity p) in *. cbv zeta.
  destruct zeroForOne; destruct (Z.eqb_spec L 0) as [HL0|HL0];
    cbn [step_amountOut step_newSqrtPriceX64].
  - rewrite HL0, Z.mul_0_l, Zdiv_0_l. repeat apply conj; lia.
  - assert (Hden : 0 < L * Q + amountIn * sqrtPrice) by nia.
    destruct (Z.eqb_spec (L * Q + amountIn * sqrtPrice) 0) as [E|_]; [lia|].
    set (s' := L * sqrtPrice * Q / (L * Q + amountIn * sqrtPrice)).
    assert (Hs' : 0 <= s' <= sqrtPrice).
    { split; [apply Z.div_pos; nia|]. apply Z.div_le_upper_bound; nia. }
    assert (Hout : 0 <= L * (sqrtPrice - s') / Q <= L * sqrtPrice / Q).
    { split; [apply Z.div_pos; nia|]. apply Z.div_le_mono; nia. }
    repeat apply conj; try lia.
    + destruct (Q =? 0), (L =? 0), (sqrtPrice - s' =? 0); cbn [orb]; lia.
    + destruct (Q =? 0), (L =? 0), (sqrtPrice - s' =? 0); cbn [orb]; try lia;
        apply Z.div_pos; nia.
  - rewrite HL0, Z.mul_0_l. repeat apply conj; try lia.
    intros Hs0. rewrite Zdiv_0_l. lia.
  - set (s' := sqrtPrice + amountIn * Q / L).
    assert (Hd : 0 <= amountIn * Q / L) by (apply Z.div_pos; nia).
    assert (Hs' : sqrtPrice <= s') by (subst s'; lia).
    repeat apply conj; try lia.
    + assert (0 <= s' * sqrtPrice) by nia.
      destruct (Z.eqb_spec (s' * sqrtPrice) 0); [lia|]. apply Z.div_pos; [nia|lia].
    + intros Hs0. assert (0 < s') by lia. assert (0 < s' * sqrtPrice) by nia.
      destruct (Z.eqb_spec (s' * sqrtPrice) 0); [lia|].
      transitivity (s' * (L * Q) / (s' * sqrtPrice)).
      * apply Z.div_le_mono; [lia|]. subst s'. nia.
      * rewrite Z.div_mul_cancel_l by lia. lia.
Qed.

Lemma swapAtPrice_zero_input (p : Pool) (sqrtPrice : Z) (zeroForOne : bool) :
  swapAtPrice p 0 sqrtPrice zeroForOne =
    {| step_amountOut := 0; step_newSqrtPriceX64 := sqrtPrice |}.
Proof.
  unfold swapAtPrice, mulDivRoundingDown. cbv zeta.
  set (Q := Z.shiftl 1 64). assert (HQ : 0 < Q) by done.
  destruct zeroForOne; destruct (Z.eqb_spec (liquidity p) 0) as [HL0|HL0]; try reflexivity.
  - rewrite Z.mul_0_l, Z.add_0_r.
    destruct (Z.eqb_spec (liquidity p * Q) 0); [nia|].
    replace (liquidity p * sqrtPrice * Q) with (sqrtPrice * (liquidity p * Q)) by lia.
    rewrite Z.div_mul by done. rewrite Z.sub_diag, Z.eqb_refl.
    by rewrite !orb_true_r.
  - rewrite Z.mul_0_l, Zdiv_0_l, Z.add_0_r, Z.sub_diag, Z.mul_0_r, Z.mul_0_l, Zdiv_0_l.
    by destruct (_ =? 0).
Qed.

(** X13: a swap step inside a segment.  With [liquidity >= 0], a price
    [sqrtPriceX64 >= 0] and [amountIn >= 0], [swapAtPrice] pays a
    non-negative amount, moves the price in the direction of the swap (down,
    and not below 0, for token 0 in; up for token 1 in), and never pays more
    than the segment's virtual reserve of the token it pays
    ([liquidity * sqrtPriceX64 // 2^64] of token 1, [liquidity * 2^64 //
    sqrtPriceX64] of token 0).  A zero input pays nothing and leaves the
    price where it is. *)
Theorem swapAtPrice_bounds (p : Pool) (amountIn sqrtPrice : Z) (zeroForOne : bool) :
  0 <= liquidity p -> 0 <= sqrtPrice -> 0 <= amountIn ->
  let r := swapAtPrice p amountIn sqrtPrice zeroForOne in
  0 <= step_amountOut r /\
  (if zeroForOne then 0 <= step_newSqrtPriceX64 r <= sqrtPrice
   else sqrtPrice <= step_newSqrtPriceX64 r) /\
  (if zeroForOne then step_amountOut r <= liquidity p * sqrtPrice / Q64
   else 0 < sqrtPrice -> step_amountOut r <= liquidity p * Q64 / sqrtPrice) /\
  swapAtPrice p 0 sqrtPrice zeroForOne =
    {| step_amountOut := 0; step_newSqrtPriceX64 := sqrtPrice |}.
Proof.
  intros HL Hs Ha r.
  destruct (swapAtPrice_step p amountIn sqrtPrice zeroForOne HL Hs Ha) as (H1 & H2 & H3).
  split; [exact H1|]. split; [exact H2|]. split; [exact H3|].
  apply swapAtPrice_zero_input.
Qed.

(** X13 at the test pool (liquidity 10^6, price 2^64 * 1.0003...) and an input
    of 1000 token 0. *)
Lemma swapAtPrice_bounds_witness :
  0 <= liquidity pool_setUp /\ 0 <= sqrtPriceX64 pool_setUp /\ 0 <= 1000 /\
  0 <= step_amountOut (swapAtPrice pool_setUp 1000 (sqrtPriceX64 pool_setUp) true).
Proof.
  assert (H1 : 0 <= liquidity pool_setUp) by (by vm_compute).
  assert (H2 : 0 <= sqrtPriceX64 pool_setUp) by (by vm_compute).
  assert (H3 : 0 <= 1000) by lia.
  split; [exact H1|]. split; [exact H2|]. split; [exact H3|].
  exact (proj1 (swapAtPrice_bounds pool_setUp 1000 (sqrtPriceX64 pool_setUp) true H1 H2 H3)).
Defined.

(** ** Signs of the float results *)

Lemma binary_round_aux_nonneg (mx ex : Z) (lx : location) :
  sf_nonneg (binary_round_aux prec emax false mx ex lx).
Proof.
  unfold binary_round_aux.
  destruct (shr_fexp prec emax mx ex lx) as [mrs' e'].
  destruct (shr_fexp prec emax _ e' loc_Exact) as [mrs'' e''].
  destruct (shr_m mrs''); [done| |done]. by destruct (_ <=? _).
Qed.

Lemma SFsqrt_nonneg (x : spec_float) : sf_nonneg (SFsqrt prec emax x).
Proof.
  destruct x as [s|s| |s m e]; cbn; try done.
  - by destruct s.
  - destruct s; [done|].
    destruct (SFsqrt_core_binary prec emax (Z.pos m) e) as [[mz ez] lz].
    apply binary_round_aux_nonneg.
Qed.

Lemma SFmul_nonneg (x y : spec_float) :
  sf_nonneg x -> sf_nonneg y -> sf_nonneg (SFmul prec emax x y).
Proof.
  destruct x as [sx|sx| |sx mx ex], y as [sy|sy| |sy my ey]; cbn; try done;
    try (by destruct sx, sy).
  destruct sx, sy; try done. intros _ _. apply binary_round_aux_nonneg.
Qed.

Lemma SFmul_square_nonneg (x : spec_float) : sf_nonneg (SFmul prec emax x x).
Proof.
  destruct x as [s|s| |s m e]; cbn; try done; try (by destruct s).
  replace (xorb s s) with false by (by destruct s). apply binary_round_aux_nonneg.
Qed.

Lemma math_floor_nonneg (x : float) (z : Z) :
  sf_nonneg (Prim2SF x) -> math_floor x = Ok z -> 0 <= z.
Proof.
  unfold math_floor. destruct (Prim2SF x) as [s|s| |s m e]; cbn; try done.
  - intros _ [= <-]. lia.
  - destruct s; [done|]. intros _ [= <-]. by apply Z.shiftl_nonneg.
Qed.

Lemma float_trunc_nonneg (x : float) (z : Z) :
  sf_nonneg (Prim2SF x) -> float_trunc x = Ok z -> 0 <= z.
Proof.
  unfold float_trunc. destruct (Prim2SF x) as [s|s| |s m e]; cbn; try done.
  - intros _ [= <-]. lia.
  - destruct s; [done|]. intros _ [= <-]. by apply Z.shiftl_nonneg.
Qed.

Lemma priceMillionths_nonneg (p : Pool) (k : Z) :
  priceMillionths p = Ok k -> 0 <= k.
Proof.
  unfold priceMillionths, price.
  destruct (int_true_div (sqrtPriceX64 p) Q64) as [s|e]; [|done]. cbn [rbind].
  rewrite float_of_int_1000000. cbn [rbind].
  apply float_trunc_nonneg. rewrite mul_spec.
  apply SFmul_nonneg; [|done]. rewrite mul_spec. apply SFmul_square_nonneg.
Qed.

Lemma tickToSqrtPrice_sign (lm : Libm) (tick : Z) :
  match tickToSqrtPrice lm tick with Ok v => 0 <= v | Raise _ => True end.
Proof.
  destruct (tickToSqrtPrice lm tick) as [v|e] eqn:H; [|done]. revert H.
  unfold tickToSqrtPrice.
  destruct (float_pow_int lm Base tick) as [b|e]; [|done]. cbn [rbind].
  unfold math_sqrt. destruct (PrimFloat.ltb b 0); [done|]. cbn [rbind].
  destruct (float_of_int Q64) as [q|e] eqn:Hq; [|done]. cbn [rbind].
  injection Hq as <-.
  apply math_floor_nonneg. rewrite mul_spec, sqrt_spec.
  apply SFmul_nonneg; [apply SFsqrt_nonneg|done].
Qed.

(** X14: [tickToSqrtPrice] never returns a negative price, whatever libm's
    [pow] answers: the result is the floor of a square root times 2^64. *)
Theorem tickToSqrtPrice_nonneg (lm : Libm) (tick v : Z) :
  tickToSqrtPrice lm tick = Ok v -> 0 <= v.
Proof.
  intros H. pose proof (tickToSqrtPrice_sign lm tick) as Hs.
  rewrite H in Hs. exact Hs.
Qed.

(** X14 at tick 0, where the price is 2^64 for every libm. *)
Lemma tickToSqrtPrice_nonneg_witness :
  tickToSqrtPrice libm_sample 0 = Ok Q64 /\ 0 <= Q64.
Proof.
  pose proof (tickToSqrtPrice_0 libm_sample) as H.
  split; [exact H|].
  exact (tickToSqrtPrice_nonneg libm_sample 0 Q64 H).
Defined.

(** ** Splitting the amounts of a new position *)

(** X15: [calculateActualLiquidityAmounts] on non-negative amounts.  It
    raises only where the conversion of the price to millionths raises (in
    range; the division by the price in millionths never divides by zero).
    When it returns, what is used and what is left add up to what was
    provided, for both tokens; none of the four amounts is negative; and one
    of the two tokens is used up. *)
Theorem calculateActualLiquidityAmounts_conservation
    (tickLower tickUpper amountA amountB : Z) (p : Pool) :
  0 <= amountA -> 0 <= amountB ->
  match calculateActualLiquidityAmounts tickLower tickUpper amountA amountB p with
  | Ok r =>
      actualAmountA r + unusedAmountA r = amountA /\
      actualAmountB r + unusedAmountB r = amountB /\
      0 <= actualAmountA r /\ 0 <= actualAmountB r /\
      0 <= unusedAmountA r /\ 0 <= unusedAmountB r /\
      (unusedAmountA r = 0 \/ unusedAmountB r = 0)
  | Raise e =>
      tickLower <= tickCurrent p < tickUpper /\ priceMillionths p = Raise e
  end.
Proof.
  intros HA HB. unfold calculateActualLiquidityAmounts. cbv zeta.
  destruct (Z.ltb_spec (tickCurrent p) tickLower).
  { cbn. repeat apply conj; try lia. }
  destruct (Z.leb_spec tickUpper (tickCurrent p)).
  { cbn. repeat apply conj; try lia. }
  destruct (priceMillionths p) as [k|e] eqn:Hk; cbn [rbind]; [|split; [lia|done]].
  pose proof (priceMillionths_nonneg p k Hk) as Hk0.
  assert (Hb : 0 <= amountA * k / 1000000) by (apply Z.div_pos; nia).
  destruct (Z.leb_spec (amountA * k / 1000000) amountB) as [Hle|Hgt].
  { cbn. repeat apply conj; try lia. }
  unfold int_floordiv. destruct (Z.eqb_spec k 0) as [->|Hk1].
  { rewrite Z.mul_0_r, Zdiv_0_l in Hgt. lia. }
  cbn [rbind actualAmountA actualAmountB unusedAmountA unusedAmountB].
  assert (Ha : 0 <= amountB * 1000000 / k <= amountA).
  { split; [apply Z.div_pos; lia|]. apply Z.div_le_upper_bound; [lia|].
    pose proof (Z.mul_div_le (amountA * k) 1000000 ltac:(lia)). lia. }
  repeat apply conj; try lia.
Qed.

(** X15 at the test pool, for a range around the current tick. *)
Lemma calculateActualLiquidityAmounts_conservation_witness :
  0 <= 100 /\ 0 <= 200 /\
  match calculateActualLiquidityAmounts (-10) 10 100 200 pool_setUp with
  | Ok r =>
      actualAmountA r + unusedAmountA r = 100 /\
      actualAmountB r + unusedAmountB r = 200 /\
      0 <= actualAmountA r /\ 0 <= actualAmountB r /\
      0 <= unusedAmountA r /\ 0 <= unusedAmountB r /\
      (unusedAmountA r = 0 \/ unusedAmountB r = 0)
  | Raise e =>
      -10 <= tickCurrent pool_setUp < 10 /\ priceMillionths pool_setUp = Raise e
  end.
Proof.
  assert (H1 : 0 <= 100) by lia.
  assert (H2 : 0 <= 200) by lia.
  split; [exact H1|]. split; [exact H2|].
  exact (calculateActualLiquidityAmounts_conservation (-10) 10 100 200 pool_setUp H1 H2).
Defined.

(** ** The amount-in estimator *)

Lemma calculateFees_walkFrame (p p' : Pool) (amountIn : Z) :
  walkFrame p' = walkFrame p -> calculateFees p' amountIn = calculateFees p amountIn.
Proof.
  unfold walkFrame. intros H. injection H. intros _ _ _ _ _ _ _ _ _ Hr _ Hppm _ _ _.
  unfold calculateFees, effectivePpm. by rewrite Hppm, Hr.
Qed.

Lemma estimateAmountIn_loop_spec (lm : Libm) (amountOut' : Z) (zeroForOne : bool)
    (fuel : nat) :
  forall (p : Pool) (low high best : Z),
    (Z.to_nat (high - low + 1) <= fuel)%nat ->
    let r := estimateAmountIn_loop lm amountOut' zeroForOne fuel p low high best in
    walkFrame r.1 = walkFrame p /\ python_result r.2 /\
    forall g, r.2 = Ok g -> g = best \/ low <= g <= high.
Proof.
  induction fuel as [|fuel IH]; intros p low high best Hfuel;
    cbn [estimateAmountIn_loop]; destruct (Z.ltb_spec high low) as [Hlt|Hge];
    try (cbn; split; [done|]; split; [done|]; intros g [= <-]; by left).
  { lia. }
  set (gross := (low + high) / 2).
  assert (Hg : low <= gross <= high).
  { subst gross. split; [apply Z.div_le_lower_bound; lia|].
    apply Z.div_le_upper_bound; lia. }
  pose proof (calculateFees_python p gross) as Hf.
  destruct (calculateFees p gross) as [fees|e];
    [|cbn; split; [done|]; split; [exact (python_result_Raise e Hf)|done]].
  set (net := if totalFee fees <? gross then _ else 0).
  set (pr := if 0 <? net then _ else _).
  assert (Hpr : walkFrame pr.1 = walkFrame p /\ python_result pr.2).
  { subst pr. destruct (0 <? net); [|done]. split; [|apply executeCLMMSwap_python].
    unfold executeCLMMSwap. apply executeCLMMSwap_loop_walkFrame. }
  destruct pr as [p1 [res|e]]; cbn [fst snd] in Hpr; destruct Hpr as [Hw Hp];
    [|cbn; split; [done|]; split; [exact (python_result_Raise e Hp)|done]].
  destruct (amountOut res =? amountOut').
  { cbn. split; [done|]. split; [done|]. intros g [= <-]. right. lia. }
  destruct (amountOut res <? amountOut').
  - destruct (IH p1 (gross + 1) high best ltac:(lia)) as (Hw' & Hp' & Hr').
    split; [congruence|]. split; [done|].
    intros g Hgr. destruct (Hr' g Hgr); [by left|right; lia].
  - destruct (IH p1 low (gross - 1) gross ltac:(lia)) as (Hw' & Hp' & Hr').
    split; [congruence|]. split; [done|].
    intros g Hgr. destruct (Hr' g Hgr); right; lia.
Qed.

(** X16: [estimateAmountIn].  Its bisection ends for every pool, target and
    libm (the interval [low, high] shrinks at every iteration), with a value
    or a Python exception.  The amount it returns lies between 0 and
    [2 * amountOut] (it is 0 for a target that is not positive), [totalCost]
    is that same amount and [feeAmount] is the [lpFee] of [calculateFees] on
    it.  Like [estimateAmountOut] it may move [liquidity] and the ticks'
    [feeGrowthOutside], and nothing else. *)
Theorem estimateAmountIn_bounds (lm : Libm) (amountOut' : Z) (zeroForOne : bool)
    (p : Pool) :
  let r := estimateAmountIn lm amountOut' zeroForOne p in
  python_result r.2 /\ walkFrame r.1 = walkFrame p /\
  match r.2 with
  | Ok e =>
      0 <= ain_amountIn e <= Z.max 0 (2 * amountOut') /\
      ain_totalCost e = ain_amountIn e /\
      exists fees, calculateFees p (ain_amountIn e) = Ok fees /\
                   ain_feeAmount e = lpFee fees
  | Raise _ => True
  end.
Proof.
  unfold estimateAmountIn. cbv zeta.
  destruct (estimateAmountIn_loop_spec lm amountOut' zeroForOne
              (Z.to_nat (amountOut' * 2 - 0 + 1)) p 0 (amountOut' * 2) 0 ltac:(lia))
    as (Hw & Hp & Hr).
  destruct (estimateAmountIn_loop _ _ _ _ _ _ _ _) as [p1 [g|e]];
    cbn [fst snd] in *; [|split; [exact (python_result_Raise e Hp)|done]].
  rewrite (calculateFees_walkFrame p p1 g Hw).
  pose proof (calculateFees_python p g) as Hf.
  destruct (calculateFees p g) as [fees|e] eqn:Hfees; cbn [rbind];
    [|split; [exact (python_result_Raise e Hf)|done]].
  pose proof (calculatePriceImpact_python p1 g amountOut' zeroForOne) as Hi.
  destruct (calculatePriceImpact p1 g amountOut' zeroForOne) as [impact|e]; cbn [rbind];
    [|split; [exact (python_result_Raise e Hi)|done]].
  cbn [fst snd ain_amountIn ain_totalCost ain_feeAmount].
  split; [discriminate|]. split; [exact Hw|].
  split; [destruct (Hr g eq_refl); lia|]. split; [reflexivity|]. by exists fees.
Qed.

(** ** Prices and amounts of a swap are never negative *)

Lemma walkFrame_sqrtPriceX64 (p p' : Pool) :
  walkFrame p' = walkFrame p -> sqrtPriceX64 p' = sqrtPriceX64 p.
Proof.
  unfold walkFrame. intros H. injection H. intros. assumption.
Qed.

Lemma executeCLMMSwap_loop_nonneg (lm : Libm) (zeroForOne : bool) (fuel : nat) :
  forall (p : Pool) (cur tick out remaining : Z),
    0 <= liquidity p -> 0 <= cur -> 0 <= out ->
    match (executeCLMMSwap_loop lm zeroForOne fuel p cur tick out remaining).2 with
    | Ok r => 0 <= amountOut r /\ 0 <= newSqrtPriceX64 r
    | Raise _ => True
    end.
Proof.
  induction fuel as [|fuel IH]; intros p cur tick out remaining HL Hcur Hout.
  { cbn [executeCLMMSwap_loop]. by destruct (remaining <=? 0). }
  destruct (Z.leb_spec remaining 0) as [Hr|Hr].
  { by rewrite executeCLMMSwap_loop_0. }
  rewrite executeCLMMSwap_loop_S by done.
  assert (Hstep : forall a, 0 <= a ->
            0 <= out + step_amountOut (swapAtPrice p a cur zeroForOne) /\
            0 <= step_newSqrtPriceX64 (swapAtPrice p a cur zeroForOne)).
  { intros a Ha.
    destruct (swapAtPrice_step p a cur zeroForOne HL Hcur Ha) as (H1 & H2 & _).
    split; [lia|]. destruct zeroForOne; lia. }
  destruct (getNextTick p tick zeroForOne) as [nextTick|].
  - destruct (calculateMaxSwapAtPrice lm p cur nextTick zeroForOne) as [m|e]; [|done].
    destruct (Z.leb_spec m 0); [done|].
    destruct (remaining <=? m).
    + cbn [snd]. destruct (sqrtPriceToTick lm _); [|done]. cbn [rbind].
      apply Hstep. lia.
    + pose proof (tickToSqrtPrice_sign lm nextTick) as Hs.
      destruct (tickToSqrtPrice lm nextTick) as [cur'|e]; [|done].
      apply IH; [|done|apply Hstep; lia].
      apply crossTick_liquidity_nonneg. by rewrite updateFeeGrowthOutside_liquidity.
  - cbn [snd]. destruct (sqrtPriceToTick lm _); [|done]. cbn [rbind].
    apply Hstep. lia.
Qed.

Lemma chargeFees_price (zeroForOne : bool) (fees : Fees) (p : Pool) :
  sqrtPriceX64 (chargeFees zeroForOne fees p) = sqrtPriceX64 p /\
  liquidity (chargeFees zeroForOne fees p) = liquidity p.
Proof.
  unfold chargeFees, updateFeeGrowth.
  destruct (0 <? totalFee fees), (0 <? lpFee fees), zeroForOne; cbn;
    try done; by destruct (0 <? liquidity p).
Qed.

Lemma applySwapInternal_nonneg (lm : Libm) (amountIn : Z) (zeroForOne : bool)
    (fees : Fees) (p : Pool) :
  0 <= liquidity p -> 0 <= sqrtPriceX64 p ->
  let r := applySwapInternal lm amountIn zeroForOne fees p in
  0 <= sqrtPriceX64 r.1 /\ match r.2 with Ok out => 0 <= out | Raise _ => True end.
Proof.
  intros HL Hs.
  destruct (chargeFees_price zeroForOne fees p) as [Hcs Hcl].
  destruct (Z.leb_spec amountIn 0) as [Ha|Ha].
  { unfold applySwapInternal. destruct (Z.leb_spec amountIn 0); [|lia]. by cbn. }
  destruct (Z.leb_spec amountIn (totalFee fees)) as [Hf|Hf].
  { rewrite applySwapInternal_fee_only by done. cbn. by rewrite Hcs. }
  rewrite applySwapInternal_unfold by done. unfold executeCLMMSwap.
  set (q := chargeFees zeroForOne fees p) in *.
  pose proof (executeCLMMSwap_loop_nonneg lm zeroForOne
                (Z.to_nat (amountIn - totalFee fees)) q (sqrtPriceX64 q) (tickCurrent q)
                0 (amountIn - totalFee fees) ltac:(lia) ltac:(lia) ltac:(lia)) as Hn.
  pose proof (executeCLMMSwap_loop_walkFrame lm zeroForOne
                (Z.to_nat (amountIn - totalFee fees)) q (sqrtPriceX64 q) (tickCurrent q)
                0 (amountIn - totalFee fees)) as Hw.
  apply walkFrame_sqrtPriceX64 in Hw.
  destruct (executeCLMMSwap_loop _ _ _ _ _ _ _ _) as [p' [r|e]]; cbn [fst snd] in *.
  - cbn. lia.
  - split; [lia|done].
Qed.

(** X17: a swap never pays a negative amount and never leaves a negative
    price.  From a pool with [liquidity >= 0] and [sqrtPriceX64 >= 0], for
    every input, direction and libm: [applySwap] and
    [applySwapWithValidation] (with any expected fees) leave
    [sqrtPriceX64 >= 0], also when they raise, and the amount they return is
    not negative; so are the amount and the price that [executeCLMMSwap]
    returns and the amount [estimateAmountOut] reports. *)
Theorem swap_nonneg (lm : Libm) (p : Pool) :
  0 <= liquidity p -> 0 <= sqrtPriceX64 p ->
  (forall amountIn zeroForOne,
     let r := applySwap lm amountIn zeroForOne p in
     0 <= sqrtPriceX64 r.1 /\ match r.2 with Ok out => 0 <= out | Raise _ => True end) /\
  (forall amountIn zeroForOne expectedAmountOut expectedFee expectedProtocolFee,
     let r := applySwapWithValidation lm amountIn zeroForOne
                expectedAmountOut expectedFee expectedProtocolFee p in
     0 <= sqrtPriceX64 r.1 /\
     match r.2 with Ok v => 0 <= vs_amountOut v | Raise _ => True end) /\
  (forall amountIn zeroForOne,
     match (executeCLMMSwap lm amountIn zeroForOne p).2 with
     | Ok r => 0 <= amountOut r /\ 0 <= newSqrtPriceX64 r
     | Raise _ => True
     end) /\
  (forall amountIn zeroForOne,
     match (estimateAmountOut lm amountIn zeroForOne p).2 with
     | Ok e => 0 <= est_amountOut e
     | Raise _ => True
     end).
Proof.
  intros HL Hs.
  assert (Hx : forall amountIn zeroForOne,
            match (executeCLMMSwap lm amountIn zeroForOne p).2 with
            | Ok r => 0 <= amountOut r /\ 0 <= newSqrtPriceX64 r
            | Raise _ => True
            end).
  { intros. unfold executeCLMMSwap. by apply executeCLMMSwap_loop_nonneg. }
  split; [|split; [|split; [exact Hx|]]].
  - intros amountIn zeroForOne. unfold applySwap.
    destruct (calculateFees p amountIn) as [fees|e]; [|by cbn].
    by apply applySwapInternal_nonneg.
  - intros amountIn zeroForOne e1 e2 e3. unfold applySwapWithValidation. cbv zeta.
    set (p0 := set_validationStats _ p).
    destruct (calculateFees p0 amountIn) as [fees|e]; [|by cbn].
    match goal with
    | |- context [applySwapInternal lm amountIn zeroForOne ?fs p0] =>
        pose proof (applySwapInternal_nonneg lm amountIn zeroForOne fs p0 HL Hs) as Hn;
        destruct (applySwapInternal lm amountIn zeroForOne fs p0) as [p1 [out|e]]
    end; cbn [fst snd] in *; [|done]. by cbn.
  - intros amountIn zeroForOne. unfold estimateAmountOut.
    destruct (calculateFees p amountIn) as [fees|e]; [|by cbn].
    cbv zeta. destruct (0 <? _).
    + specialize (Hx (if totalFee fees <? amountIn then amountIn - totalFee fees else 0)
                     zeroForOne).
      destruct (executeCLMMSwap lm _ zeroForOne p) as [p' [r|e]]; cbn [fst snd] in *;
        [|done].
      destruct (calculatePriceImpact _ _ _ _); [|done]. cbn. lia.
    + cbn [snd]. by destruct (calculatePriceImpact _ _ _ _).
Qed.

(** X17 at the test pool: a swap of 10000 token 0. *)
Lemma swap_nonneg_witness :
  0 <= liquidity pool_setUp /\ 0 <= sqrtPriceX64 pool_setUp /\
  0 <= sqrtPriceX64 (applySwap libm_sample 10000 true pool_setUp).1.
Proof.
  assert (H1 : 0 <= liquidity pool_setUp) by (by vm_compute).
  assert (H2 : 0 <= sqrtPriceX64 pool_setUp) by (by vm_compute).
  split; [exact H1|]. split; [exact H2|].
  pose proof (proj1 (swap_nonneg libm_sample pool_setUp H1 H2) 10000 true) as H.
  cbv zeta in H. destruct H as [H _]. exact H.
Defined.

(** ** What a swap books *)

Lemma walkFrame_accounts (p p' : Pool) :
  walkFrame p' = walkFrame p ->
  totalSwapFee0 p' = totalSwapFee0 p /\ totalSwapFee1 p' = totalSwapFee1 p /\
  feeGrowthGlobal0X64 p' = feeGrowthGlobal0X64 p /\
  feeGrowthGlobal1X64 p' = feeGrowthGlobal1X64 p.
Proof.
  unfold walkFrame. intros H. injection H. intros. by repeat apply conj.
Qed.

Lemma applySwapInternal_walkFrame (lm : Libm) (amountIn : Z) (zeroForOne : bool)
    (fees : Fees) (p : Pool) :
  0 < amountIn ->
  let p' := (applySwapInternal lm amountIn zeroForOne fees p).1 in
  totalSwapFee0 p' = totalSwapFee0 (chargeFees zeroForOne fees p) /\
  totalSwapFee1 p' = totalSwapFee1 (chargeFees zeroForOne fees p) /\
  feeGrowthGlobal0X64 p' = feeGrowthGlobal0X64 (chargeFees zeroForOne fees p) /\
  feeGrowthGlobal1X64 p' = feeGrowthGlobal1X64 (chargeFees zeroForOne fees p).
Proof.
  intros Ha. destruct (Z.leb_spec amountIn (totalFee fees)) as [Hf|Hf].
  { by rewrite applySwapInternal_fee_only. }
  rewrite applySwapInternal_unfold by done. unfold executeCLMMSwap.
  set (q := chargeFees zeroForOne fees p).
  pose proof (executeCLMMSwap_loop_walkFrame lm zeroForOne
                (Z.to_nat (amountIn - totalFee fees)) q (sqrtPriceX64 q) (tickCurrent q)
                0 (amountIn - totalFee fees)) as Hw.
  apply walkFrame_accounts in Hw.
  by destruct (executeCLMMSwap_loop _ _ _ _ _ _ _ _) as [p' [r|e]].
Qed.

Lemma chargeFees_accounts (zeroForOne : bool) (fees : Fees) (p : Pool) :
  0 <= totalFee fees -> 0 <= lpFee fees ->
  let growth :=
    if 0 <? liquidity p then lpFee fees * Z.shiftl 1 64 / liquidity p else 0 in
  let q := chargeFees zeroForOne fees p in
  totalSwapFee0 q = totalSwapFee0 p + (if zeroForOne then totalFee fees else 0) /\
  totalSwapFee1 q = totalSwapFee1 p + (if zeroForOne then 0 else totalFee fees) /\
  feeGrowthGlobal0X64 q = feeGrowthGlobal0X64 p + (if zeroForOne then growth else 0) /\
  feeGrowthGlobal1X64 q = feeGrowthGlobal1X64 p + (if zeroForOne then 0 else growth).
Proof.
  intros Ht Hl. unfold chargeFees, updateFeeGrowth.
  assert (Hz : lpFee fees = 0 -> lpFee fees * Z.shiftl 1 64 / liquidity p = 0)
    by (by intros ->).
  destruct (Z.ltb_spec 0 (totalFee fees)), (Z.ltb_spec 0 (lpFee fees)), zeroForOne;
    cbn [liquidity totalSwapFee0 totalSwapFee1 feeGrowthGlobal0X64 feeGrowthGlobal1X64
         set_totalSwapFee0 set_totalSwapFee1];
    destruct (0 <? liquidity p); cbn; repeat apply conj; lia.
Qed.

(** X18: what [applySwap] books, to the unit.  With [fees] the result of
    [calculateFees(amountIn)], the swap adds [totalFee] to [totalSwapFee0]
    (token 0 in) or [totalSwapFee1] (token 1 in) and
    [lpFee * 2^64 // liquidity] to the fee growth of that token when the
    liquidity it starts from is positive (nothing otherwise); the other
    token's counters do not move.  This holds also when the tick walk raises
    afterwards: the fees are booked first. *)
Theorem applySwap_accounting (lm : Libm) (amountIn : Z) (zeroForOne : bool)
    (fees : Fees) (p : Pool) :
  calculateFees p amountIn = Ok fees ->
  let growth :=
    if 0 <? liquidity p then lpFee fees * Z.shiftl 1 64 / liquidity p else 0 in
  let p' := (applySwap lm amountIn zeroForOne p).1 in
  totalSwapFee0 p' = totalSwapFee0 p + (if zeroForOne then totalFee fees else 0) /\
  totalSwapFee1 p' = totalSwapFee1 p + (if zeroForOne then 0 else totalFee fees) /\
  feeGrowthGlobal0X64 p' = feeGrowthGlobal0X64 p + (if zeroForOne then growth else 0) /\
  feeGrowthGlobal1X64 p' = feeGrowthGlobal1X64 p + (if zeroForOne then 0 else growth).
Proof.
  intros Hfees growth p'. subst p'. unfold applySwap. rewrite Hfees.
  destruct (Z.leb_spec amountIn 0) as [Ha|Ha].
  { assert (fees = Fees_zero) as ->.
    { revert Hfees. unfold calculateFees.
      destruct (Z.leb_spec amountIn 0); [|lia]. by intros [= <-]. }
    unfold applySwapInternal. destruct (Z.leb_spec amountIn 0); [|lia].
    subst growth. cbn [fst totalFee lpFee Fees_zero]. rewrite Z.mul_0_l, Zdiv_0_l.
    destruct zeroForOne, (0 <? liquidity p); repeat apply conj; lia. }
  assert (Hpos : 0 <= totalFee fees /\ 0 <= lpFee fees).
  { revert Hfees. unfold calculateFees.
    destruct (Z.leb_spec amountIn 0); [lia|].
    destruct (effectivePpm p) as [ppm|e]; cbn [rbind]; [|done].
    destruct (ppm <=? 0); [by intros [= <-]|]. cbv zeta.
    destruct (_ <=? 0); [by intros [= <-]|].
    intros [= <-]. cbn.
    repeat match goal with |- context [?a <? ?b] => destruct (Z.ltb_spec a b) end; lia. }
  destruct Hpos as [Ht Hl].
  destruct (applySwapInternal_walkFrame lm amountIn zeroForOne fees p Ha)
    as (-> & -> & -> & ->).
  by apply chargeFees_accounts.
Qed.

(** X18 at the test pool: a swap of 10000 token 0 books a fee of 1. *)
Lemma applySwap_accounting_witness :
  calculateFees pool_setUp 10000 = Ok {| totalFee := 1; lpFee := 1; protocolFee := 0 |} /\
  totalSwapFee0 (applySwap libm_sample 10000 true pool_setUp).1 =
    totalSwapFee0 pool_setUp + 1.
Proof.
  assert (H : calculateFees pool_setUp 10000 =
              Ok {| totalFee := 1; lpFee := 1; protocolFee := 0 |}) by reflexivity.
  split; [exact H|].
  exact (proj1 (applySwap_accounting libm_sample 10000 true _ pool_setUp H)).
Defined.

(** ** Adding to a position *)

Lemma tickAfter_pos (o : option TickData) (netDelta grossDelta : Z) :
  0 < grossDelta -> (forall d, o = Some d -> 0 <= liquidityGross d) ->
  tickAfter o netDelta grossDelta =
  Some {| liquidityNet := liquidityNet (default TickData_zero o) + netDelta;
          liquidityGross := liquidityGross (default TickData_zero o) + grossDelta;
          feeGrowthOutside0X64 := feeGrowthOutside0X64 (default TickData_zero o);
          feeGrowthOutside1X64 := feeGrowthOutside1X64 (default TickData_zero o) |}.
Proof.
  intros Hg Ho. unfold tickAfter.
  assert (0 <= liquidityGross (default TickData_zero o)).
  { destruct o as [d|]; [by apply Ho|done]. }
  destruct (Z.leb_spec (liquidityGross (default TickData_zero o) + grossDelta) 0); [lia|].
  cbn [andb]. do 2 f_equal. lia.
Qed.

Lemma tickAfter_add (o : option TickData) (n1 g1 n2 g2 : Z) :
  0 < g1 -> 0 < g2 -> (forall d, o = Some d -> 0 <= liquidityGross d) ->
  tickAfter (tickAfter o n1 g1) n2 g2 = tickAfter o (n1 + n2) (g1 + g2).
Proof.
  intros H1 H2 Ho.
  rewrite (tickAfter_pos o n1 g1), (tickAfter_pos o (n1 + n2) (g1 + g2)) by (done || lia).
  rewrite tickAfter_pos; [|done|].
  - cbn [default from_option id liquidityNet liquidityGross
         feeGrowthOutside0X64 feeGrowthOutside1X64]. do 2 f_equal; lia.
  - intros d [= <-]. cbn.
    assert (0 <= liquidityGross (default TickData_zero o)); [|lia].
    destruct o as [d|]; [by apply Ho|done].
Qed.

Lemma tickAfter_gross_nonneg (o : option TickData) (n g : Z) (d : TickData) :
  tickAfter o n g = Some d -> 0 <= liquidityGross d.
Proof.
  intros H. by destruct (tickAfter_live o n g d H).
Qed.

(** X19: two additions to the same range are one addition of the sum.  On
    a pool with [liquidity >= 0] whose tick book is consistent and whose tick
    entries have [liquidityGross >= 0], [applyLiquidityDelta(tickLower,
    tickUpper, d1)] followed by [applyLiquidityDelta(tickLower, tickUpper,
    d2)], for [d1 > 0] and [d2 > 0], leaves exactly the pool that
    [applyLiquidityDelta(tickLower, tickUpper, d1 + d2)] leaves. *)
Theorem applyLiquidityDelta_merge (tickLower tickUpper d1 d2 : Z) (p : Pool) :
  0 < d1 -> 0 < d2 -> 0 <= liquidity p -> tickBookConsistent p -> ticksLive p ->
  applyLiquidityDelta tickLower tickUpper d2 (applyLiquidityDelta tickLower tickUpper d1 p) =
  applyLiquidityDelta tickLower tickUpper (d1 + d2) p.
Proof.
  intros H1 H2 HL Hcons Hlive.
  assert (Hg : forall t d, ticks p !! t = Some d -> 0 <= liquidityGross d).
  { intros t d Hd. by destruct (Hlive t d Hd). }
  set (m := applyLiquidityDelta tickLower tickUpper d1 p).
  assert (Hcfg : configFrame m = configFrame p) by apply applyLiquidityDelta_configFrame.
  assert (Hticks : ticks (applyLiquidityDelta tickLower tickUpper d2 m) =
                   ticks (applyLiquidityDelta tickLower tickUpper (d1 + d2) p)).
  { apply map_eq. intros t. subst m.
    rewrite !applyLiquidityDelta_ticks_lookup by lia.
    rewrite !updateTickData_ticks_lookup.
    rewrite !applyLiquidityDelta_ticks_lookup by lia.
    rewrite !updateTickData_ticks_lookup.
    destruct (decide (tickUpper = t)) as [<-|Hu];
      destruct (decide (tickLower = tickUpper)) as [->|Hl].
    - rewrite !tickAfter_add; try lia; try (by apply Hg).
      + f_equal; lia.
      + intros d. apply tickAfter_gross_nonneg.
      + intros d. apply tickAfter_gross_nonneg.
    - rewrite tickAfter_add by (lia || by apply Hg). f_equal; lia.
    - by destruct (decide (tickUpper = t)).
    - destruct (decide (tickLower = t)) as [<-|Hl']; [|done].
      rewrite tickAfter_add by (lia || by apply Hg). reflexivity. }
  apply Pool_eq.
  - by rewrite !applyLiquidityDelta_configFrame.
  - rewrite !applyLiquidityDelta_liquidity.
    rewrite (configFrame_tickCurrent _ _ Hcfg). subst m.
    rewrite applyLiquidityDelta_liquidity.
    destruct (Z.eqb_spec d1 0); [lia|]. destruct (Z.eqb_spec d2 0); [lia|].
    destruct (Z.eqb_spec (d1 + d2) 0); [lia|]. cbn [orb].
    destruct (negb _); lia.
  - exact Hticks.
  - apply set_eq. intros t.
    assert (Hc1 : tickBookConsistent (applyLiquidityDelta tickLower tickUpper d2 m)).
    { subst m. by do 2 apply applyLiquidityDelta_consistent. }
    assert (Hc2 : tickBookConsistent (applyLiquidityDelta tickLower tickUpper (d1 + d2) p))
      by by apply applyLiquidityDelta_consistent.
    by rewrite <- (Hc1 t), <- (Hc2 t), Hticks.
Qed.

(** X19 at the test pool: liquidity 1000 and then 500 on [5, 10). *)
Lemma applyLiquidityDelta_merge_witness :
  0 < 1000 /\ 0 < 500 /\ 0 <= liquidity pool_setUp /\
  applyLiquidityDelta 5 10 500 (applyLiquidityDelta 5 10 1000 pool_setUp) =
  applyLiquidityDelta 5 10 (1000 + 500) pool_setUp.
Proof.
  assert (H1 : 0 < 1000) by lia.
  assert (H2 : 0 < 500) by lia.
  assert (H3 : 0 <= liquidity pool_setUp) by (by vm_compute).
  split; [exact H1|]. split; [exact H2|]. split; [exact H3|].
  exact (applyLiquidityDelta_merge 5 10 1000 500 pool_setUp H1 H2 H3
           tickBookConsistent_setUp ticksLive_setUp).
Defined.

(** ** A step stays inside its segment *)

(** X21: the capacity that [calculateMaxSwapAtPrice] computes is safe.  With
    positive liquidity and a positive current price, an input of at most
    [calculateMaxSwapAtPrice(currentSqrtPriceX64, nextTick, zeroForOne)]
    moves the price of [swapAtPrice] towards the price of [nextTick] and never
    beyond it: the new price lies between the two. *)
Theorem swapAtPrice_no_overshoot (lm : Libm) (p : Pool) (cur nextTick : Z)
    (zeroForOne : bool) (next maxAmount amountIn : Z) :
  0 < liquidity p -> 0 < cur ->
  tickToSqrtPrice lm nextTick = Ok next ->
  calculateMaxSwapAtPrice lm p cur nextTick zeroForOne = Ok maxAmount ->
  0 <= amountIn <= maxAmount ->
  let r := swapAtPrice p amountIn cur zeroForOne in
  if zeroForOne then next <= step_newSqrtPriceX64 r <= cur
  else cur <= step_newSqrtPriceX64 r <= next.
Proof.
  intros HL Hcur Hnext Hmax Ha.
  pose proof (tickToSqrtPrice_sign lm nextTick) as Hn. rewrite Hnext in Hn.
  pose proof (swapAtPrice_step p amountIn cur zeroForOne ltac:(lia) ltac:(lia) ltac:(lia))
    as (_ & Hdir & _).
  revert Hmax Hdir. unfold calculateMaxSwapAtPrice. rewrite Hnext. cbn [rbind].
  unfold swapAtPrice. cbv zeta.
  set (Q := Z.shiftl 1 64). assert (HQ : 0 < Q) by done.
  set (L := liquidity p) in *.
  destruct (Z.eqb_spec L 0); [lia|].
  destruct zeroForOne; cbn [step_newSqrtPriceX64]; intros [= <-] Hdir.
  - split; [|lia].
    assert (Hden : 0 < L * Q + amountIn * cur) by nia.
    destruct (Z.eqb_spec (L * Q + amountIn * cur) 0); [lia|].
    destruct (Z.eqb_spec (cur * next) 0) as [E|E]; cbn [negb] in Ha.
    + assert (next = 0) as -> by nia. apply Z.div_pos; nia.
    + assert (0 < cur * next) by nia.
      pose proof (Z.mul_div_le (L * (cur - next) * Q) (cur * next) ltac:(lia)) as Hfloor.
      apply Z.div_le_lower_bound; [lia|].
      assert (amountIn * (cur * next) <= L * (cur - next) * Q) by nia.
      nia.
  - split; [lia|].
    destruct (Z.eqb_spec Q 0); [lia|]. cbn [negb] in Ha.
    pose proof (Z.mul_div_le (L * (next - cur)) Q ltac:(lia)) as Hfloor.
    assert (amountIn * Q / L <= next - cur); [|lia].
    apply Z.div_le_upper_bound; [lia|]. nia.
Qed.

(** X21 at the test pool, whose price is above the price 2^64 of tick 0: the
    segment takes 349 token 0, an input of 100 stays inside. *)
Lemma swapAtPrice_no_overshoot_witness :
  0 < liquidity pool_setUp /\ 0 < sqrtPriceX64 pool_setUp /\
  tickToSqrtPrice libm_sample 0 = Ok Q64 /\
  calculateMaxSwapAtPrice libm_sample pool_setUp (sqrtPriceX64 pool_setUp) 0 true = Ok 349 /\
  0 <= 100 <= 349 /\
  Q64 <= step_newSqrtPriceX64 (swapAtPrice pool_setUp 100 (sqrtPriceX64 pool_setUp) true)
      <= sqrtPriceX64 pool_setUp.
Proof.
  assert (H1 : 0 < liquidity pool_setUp) by (by vm_compute).
  assert (H2 : 0 < sqrtPriceX64 pool_setUp) by (by vm_compute).
  assert (H3 : tickToSqrtPrice libm_sample 0 = Ok Q64) by (vm_compute; reflexivity).
  assert (H4 : calculateMaxSwapAtPrice libm_sample pool_setUp (sqrtPriceX64 pool_setUp)
                 0 true = Ok 349) by (vm_compute; reflexivity).
  assert (H5 : 0 <= 100 <= 349) by lia.
  split; [exact H1|]. split; [exact H2|]. split; [exact H3|]. split; [exact H4|].
  split; [exact H5|].
  exact (swapAtPrice_no_overshoot libm_sample pool_setUp (sqrtPriceX64 pool_setUp) 0 true
           Q64 349 100 H1 H2 H3 H4 H5).
Defined.

(** ** What the serialized state determines *)

(** X20: [serialize] loses nothing but the validation counters.  Two pools
    (whose [feeRatePpm] converts to a float, as the constructor requires)
    that serialize to the same state, whatever the iteration orders of their
    [ticks] and [tickBitmap], agree on every attribute other than
    [validationStats]. *)
Theorem serialize_injective (ticksOrder ticksOrder' : list (Z * TickData))
    (bitmapOrder bitmapOrder' : list Z) (p q : Pool) (state : json) :
  iterationOrders ticksOrder bitmapOrder p ->
  iterationOrders ticksOrder' bitmapOrder' q ->
  is_Ok (float_of_int (feeRatePpm p)) -> is_Ok (float_of_int (feeRatePpm q)) ->
  serialize ticksOrder bitmapOrder p = Ok state ->
  serialize ticksOrder' bitmapOrder' q = Ok state ->
  set_validationStats validationStats_init p = set_validationStats validationStats_init q.
Proof.
  intros Hop Hoq Hp Hq Sp Sq.
  pose proof (deserialize_serialize _ _ p state Hop Hp Sp) as Dp.
  pose proof (deserialize_serialize _ _ q state Hoq Hq Sq) as Dq.
  congruence.
Qed.

(** X20 at the test pool, before and after a validated swap is counted. *)
Lemma serialize_injective_witness :
  exists state,
    serialize [] [] pool_setUp = Ok state /\ serialize [] [] pool_counted = Ok state /\
    set_validationStats validationStats_init pool_setUp =
    set_validationStats validationStats_init pool_counted.
Proof.
  assert (Ho : iterationOrders [] [] pool_setUp).
  { unfold iterationOrders.
    change (ticks pool_setUp) with (∅ : gmap Z TickData).
    change (tickBitmap pool_setUp) with (∅ : gset Z).
    by rewrite map_to_list_empty, elements_empty. }
  assert (H1 : is_Ok (float_of_int (feeRatePpm pool_setUp))) by exact I.
  destruct (serialize_returns [] [] pool_setUp Ho eq_refl) as [state Hs].
  exists state. split; [exact Hs|]. split; [exact Hs|].
  exact (serialize_injective [] [] [] [] pool_setUp pool_counted state Ho Ho H1 H1 Hs Hs).
Defined.

(** ** What [deserialize] accepts *)








(** ** The tick / price round trip *)

Lemma tickToSqrtPrice_1 (lm : Libm) :
  libm_pow lm Base 1 = Some Base -> tickToSqrtPrice lm 1 = Ok 18447666387855958016.
Proof.
  intros Hpow. unfold tickToSqrtPrice, float_pow_int.
  change (float_of_int 1) with (Ok 1%float). cbn [rbind].
  change (1 =? 0) with false. cbv iota. rewrite Hpow.
  vm_compute. reflexivity.
Qed.

Lemma sqrtPriceToTick_sqrt_Base (lm : Libm) :
  within_ulp log_sqrt_Base (libm_log lm sqrt_Base) ->
  within_ulp log_Base (libm_log lm Base) ->
  sqrtPriceToTick lm 18447666387855958016 = Ok 0.
Proof.
  intros Ha Hb. unfold sqrtPriceToTick.
  change (18447666387855958016 <=? 0) with false. cbv iota.
  assert (Hp : int_true_div 18447666387855958016 Q64 = Ok sqrt_Base)
    by (vm_compute; reflexivity).
  rewrite Hp. cbn [rbind]. unfold math_log.
  change (float_is_finite sqrt_Base) with true.
  change (PrimFloat.ltb 0 sqrt_Base) with true.
  change (float_is_finite Base) with true.
  change (PrimFloat.ltb 0 Base) with true. cbv iota zeta.
  destruct Ha as [-> | [-> | ->]]; destruct Hb as [-> | [-> | ->]];
    vm_compute; reflexivity.
Qed.

(** C9, as the code has it: the round trip fails at tick 1.  For every libm
    that is exact on [pow(1.0001, 1.0)] and within one unit in the last place
    on the two logarithms involved, [tickToSqrtPrice(1)] is
    18447666387855958016 and [sqrtPriceToTick] of it is 0, not 1: the price
    is the floor of [sqrt(1.0001) * 2^64], so its logarithm falls below the
    logarithm of the tick's own price, and the second floor rounds the tick
    down. *)
Theorem tick_roundtrip_fails (lm : Libm) :
  libm_accurate_at_tick_1 lm ->
  tickToSqrtPrice lm 1 = Ok 18447666387855958016 /\
  sqrtPriceToTick lm 18447666387855958016 = Ok 0 /\
  (do sqrt_price <- tickToSqrtPrice lm 1 ; sqrtPriceToTick lm sqrt_price) <> Ok 1.
Proof.
  intros (Hpow & Ha & Hb).
  pose proof (tickToSqrtPrice_1 lm Hpow) as H1.
  pose proof (sqrtPriceToTick_sqrt_Base lm Ha Hb) as H2.
  split; [exact H1|]. split; [exact H2|].
  rewrite H1. cbn [rbind]. rewrite H2. discriminate.
Qed.

(** C9 at the table of the correctly rounded results. *)
Lemma tick_roundtrip_fails_witness :
  libm_accurate_at_tick_1 libm_tick_1 /\
  sqrtPriceToTick libm_tick_1 18447666387855958016 = Ok 0.
Proof.
  assert (H : libm_accurate_at_tick_1 libm_tick_1).
  { split; [reflexivity|]. split; right; left; reflexivity. }
  split; [exact H|].
  exact (proj1 (proj2 (tick_roundtrip_fails libm_tick_1 H))).
Defined.
